(** * Callico front-end: the interactive image annotation core

    A shallow embedding of the geometry helpers ([js/helpers.js]), of the
    [element] store module and of the methods of the [InteractiveImage]
    component that create, edit and delete the child regions of an element,
    with the properties of these functions.

    JavaScript numbers are modelled by their values: a finite number is a
    rational ([Q]; every finite double is one) and the three non-finite
    numbers are separate constructors.  Arithmetic on finite numbers is exact,
    as it is in JavaScript on the integer pixel coordinates the application
    stores; [-0] and [0] are not told apart, which no operation used here
    does either ([===], [<], [Math.round], string conversion). *)

From Stdlib Require Import String Ascii DecimalString.
From Stdlib Require Import ZArith QArith Qround Qminmax List Bool Lia Lqa.
Import ListNotations.

Open Scope Q_scope.

(** ** JavaScript values *)

(** A JavaScript number. *)
Inductive Number : Type :=
| Finite (q : Q)
| NaN
| PosInfinity
| NegInfinity.

(** [Number.isFinite] *)
Definition Number_isFinite (n : Number) : bool :=
  match n with
  | Finite _ => true
  | _ => false
  end.

(** [a < b] and [a === b] on finite numbers. *)
Definition Qlt_bool (a b : Q) : bool := negb (Qle_bool b a).

(** [Math.round] on a finite number: the nearest integer, a tie going to
    the greater one. *)
Definition Math_round (x : Q) : Q := inject_Z (Qfloor (x + (1 # 2))).

(** The result of [Math.min(...xs)] or [Math.max(...xs)] on an array of
    finite numbers: infinite only when the array is empty. *)
Inductive Extremum : Type :=
| MinusInfinity
| Value (q : Q)
| PlusInfinity.

Definition Math_min (xs : list Q) : Extremum :=
  match xs with
  | [] => PlusInfinity
  | x :: rest => Value (fold_left Qmin rest x)
  end.

Definition Math_max (xs : list Q) : Extremum :=
  match xs with
  | [] => MinusInfinity
  | x :: rest => Value (fold_left Qmax rest x)
  end.

(** [e < q] for an extremum and a finite number. *)
Definition Extremum_ltb (e : Extremum) (q : Q) : bool :=
  match e with
  | MinusInfinity => true
  | Value v => Qlt_bool v q
  | PlusInfinity => false
  end.

(** [Array.prototype.splice(start, deleteCount, ...items)]: the array after
    the call.  A negative [start] counts from the end and both bounds are
    clamped to the array. *)
Definition splice {A : Type} (start : Z) (deleteCount : nat) (items : list A)
    (l : list A) : list A :=
  let len := Z.of_nat (length l) in
  let from := Z.to_nat (if (start <? 0)%Z then Z.max (len + start) 0
                        else Z.min start len) in
  firstn from l ++ items ++ skipn (from + deleteCount) l.

(** What a call ends with: a value, or a thrown exception. *)
Inductive TypeErrorReason : Type :=
| NotAFinitePair (index : nat)  (* Point i: expected Array of two finite numbers *)
| NotIterable                   (* destructuring [undefined] or [null] as a point *)
| PropertyOfUndefined.          (* reading a property of [undefined] or [null] *)

Inductive PolygonErrorReason : Type :=
| NegativeCoordinates
| TooFewPoints
| TooManyPoints
| TooSmall.

Inductive Exception : Type :=
| TypeError (reason : TypeErrorReason)
| InvalidPolygonError (reason : PolygonErrorReason)
| InvalidImageSizeError (message : string)
| Error (message : string).

Inductive Completion (A : Type) : Type :=
| Return (a : A)
| Throw (e : Exception).
Arguments Return {A} a.
Arguments Throw {A} e.

(** ** [js/config.js] *)

Definition POLYGON_MIN_SIZE : Q := 2.
Definition POLYGON_MAX_POINTS : nat := 163.
Definition IMAGE_WARNING_RATIO : Q := 8 # 10.

(** ** [js/helpers.js]: polygons *)

(** A point with finite coordinates, and a polygon of such points. *)
Definition Point : Type := (Q * Q)%type.
Definition Polygon : Type := list Point.

(** What [checkPolygon] may be handed: an array of arrays of numbers. *)
Definition RawPolygon : Type := list (list Number).

Definition rawPoint (p : Point) : list Number := [Finite (fst p); Finite (snd p)].
Definition rawPolygon (polygon : Polygon) : RawPolygon := map rawPoint polygon.

Definition pointsEqual (p1 p2 : Point) : bool :=
  Qeq_bool (fst p1) (fst p2) && Qeq_bool (snd p1) (snd p2).

Definition shiftPolygon (points : Polygon) (vector : Point) : Polygon :=
  map (fun p => (fst p + fst vector, snd p + snd vector)) points.

(** [getSize]: the width and the height of a polygon.  On an empty polygon
    both are [-Infinity - Infinity]. *)
Definition getSize (polygon : Polygon) : Extremum * Extremum :=
  let xCoords := map fst polygon in
  let yCoords := map snd polygon in
  match Math_min xCoords, Math_max xCoords, Math_min yCoords, Math_max yCoords with
  | Value x, Value maxX, Value y, Value maxY => (Value (maxX - x), Value (maxY - y))
  | _, _, _, _ => (MinusInfinity, MinusInfinity)
  end.

(** The first loop of [checkPolygon]: every point is an array of two finite
    numbers, or a [TypeError] names the first point that is not. *)
Fixpoint checkPoints (index : nat) (polygon : RawPolygon) : Completion Polygon :=
  match polygon with
  | [] => Return []
  | point :: rest =>
      match point with
      | [Finite x; Finite y] =>
          match checkPoints (S index) rest with
          | Return points => Return ((x, y) :: points)
          | Throw e => Throw e
          end
      | _ => Throw (TypeError (NotAFinitePair index))
      end
  end.

Definition roundPolygon (polygon : Polygon) : Polygon :=
  map (fun p => (Math_round (fst p), Math_round (snd p))) polygon.

(** [newPolygon.find(point => point.find(coord => coord < 0))]: the inner
    [find] returns the negative coordinate, which is truthy. *)
Definition hasNegativeCoordinate (polygon : Polygon) : bool :=
  existsb (fun p => Qlt_bool (fst p) 0 || Qlt_bool (snd p) 0) polygon.

(** The deduplication loop, [ABBCCBCA -> ABCBCA]: while [j] is within the
    polygon, the point at [j] is spliced out when it equals the point before
    it, and [j] moves on otherwise.  Every turn takes a point out or moves
    [j] forward, so as many turns as the polygon has points are enough for
    [fuel]. *)
Fixpoint deduplicateLoop (fuel j : nat) (newPolygon : Polygon) : Polygon :=
  match fuel with
  | O => newPolygon
  | S fuel' =>
      if (j <? length newPolygon)%nat then
        match nth_error newPolygon j, nth_error newPolygon (j - 1) with
        | Some current, Some previous =>
            if pointsEqual current previous
            then deduplicateLoop fuel' j (splice (Z.of_nat j) 1 [] newPolygon)
            else deduplicateLoop fuel' (S j) newPolygon
        | _, _ => newPolygon
        end
      else newPolygon
  end.

(** [checkPolygon] once the points are known to be finite pairs. *)
Definition checkFinitePolygon (polygon : Polygon) (minSize : Q) : Completion Polygon :=
  let newPolygon := roundPolygon polygon in
  if hasNegativeCoordinate newPolygon then
    Throw (InvalidPolygonError NegativeCoordinates)
  else
    let newPolygon := deduplicateLoop (length newPolygon) 1 newPolygon in
    match newPolygon with
    | [] => Throw (TypeError NotIterable)  (* pointsEqual(undefined, undefined) *)
    | first :: _ =>
        let closed := pointsEqual first (last newPolygon first) in
        if (length newPolygon <? 3 + (if closed then 1 else 0))%nat then
          Throw (InvalidPolygonError TooFewPoints)
        else if ((POLYGON_MAX_POINTS + 1 <? length newPolygon)%nat
                 || ((length newPolygon =? POLYGON_MAX_POINTS + 1)%nat
                     && negb (pointsEqual first
                                (nth POLYGON_MAX_POINTS newPolygon first))))%bool then
          Throw (InvalidPolygonError TooManyPoints)
        else
          let (width, height) := getSize newPolygon in
          if (Extremum_ltb height minSize || Extremum_ltb width minSize)%bool then
            Throw (InvalidPolygonError TooSmall)
          else Return newPolygon
    end.

Definition checkPolygon (polygon : RawPolygon) (minSize : Q) : Completion Polygon :=
  match checkPoints 0 polygon with
  | Throw e => Throw e
  | Return points => checkFinitePolygon points minSize
  end.

(** The message each [InvalidPolygonError] carries. *)
Definition polygonErrorMessage (reason : PolygonErrorReason) : string :=
  match reason with
  | NegativeCoordinates => "A polygon cannot have negative coordinates."
  | TooFewPoints => "This polygon does not have at least three unique points."
  | TooManyPoints => "This polygon has more than 163 distinct points."
  | TooSmall => "This polygon is too small."
  end.

(** [polygonsEqual]: both polygons go through [checkPolygon] (the first
    failure is thrown) and the results are compared by [isEqual]. *)
Fixpoint isEqual (polygon1 polygon2 : Polygon) : bool :=
  match polygon1, polygon2 with
  | [], [] => true
  | p1 :: rest1, p2 :: rest2 => pointsEqual p1 p2 && isEqual rest1 rest2
  | _, _ => false
  end.

Definition polygonsEqual (polygon1 polygon2 : RawPolygon) : Completion bool :=
  match checkPolygon polygon1 POLYGON_MIN_SIZE with
  | Throw e => Throw e
  | Return checked1 =>
      match checkPolygon polygon2 POLYGON_MIN_SIZE with
      | Throw e => Throw e
      | Return checked2 => Return (isEqual checked1 checked2)
      end
  end.

(** ** [js/helpers.js]: bounding boxes *)

Record Image : Type := mkImage {
  imageWidth : Q;
  imageHeight : Q;
  imageUrl : string
}.

Record Element : Type := mkElement {
  elementImage : option Image;
  elementPolygon : option Polygon
}.

Record Box : Type := mkBox {
  boxX : Q;
  boxY : Q;
  boxWidth : Q;
  boxHeight : Q
}.

(** [Math.min(limit, Math.max(v, 0))] *)
Definition restrict (limit : Q) (v : Extremum) : Q :=
  match v with
  | MinusInfinity => Qmin limit 0
  | Value q => Qmin limit (Qmax q 0)
  | PlusInfinity => limit
  end.

(** [boundingBox(element)], with [imageBounds] left at its default [true]
    as every caller in the component and in [iiifUri] leaves it.  Reading
    [element.image.width] on an element with neither polygon nor image is
    the [TypeError] of the first line. *)
Definition boundingBox (element : Element) : Completion Box :=
  let coords :=
    match elementPolygon element, elementImage element with
    | Some polygon, _ => Return (map fst polygon, map snd polygon)
    | None, Some image => Return ([0; imageWidth image], [0; imageHeight image])
    | None, None => Throw (TypeError PropertyOfUndefined)
    end in
  match coords with
  | Throw e => Throw e
  | Return (xCoords, yCoords) =>
      match elementImage element with
      | None => Throw (Error "An image is required.")
      | Some image =>
          if (Qle_bool (imageWidth image) 0 || Qle_bool (imageHeight image) 0)%bool then
            Throw (Error "An image with valid dimensions is required.")
          else
            let minX := restrict (imageWidth image) (Math_min xCoords) in
            let minY := restrict (imageHeight image) (Math_min yCoords) in
            let maxX := restrict (imageWidth image) (Math_max xCoords) in
            let maxY := restrict (imageHeight image) (Math_max yCoords) in
            Return {| boxX := minX; boxY := minY;
                      boxWidth := maxX - minX; boxHeight := maxY - minY |}
      end
  end.

(** ** Arithmetic on numbers that may not be finite *)

Definition Number_div (a b : Number) : Number :=
  match a, b with
  | NaN, _ | _, NaN => NaN
  | Finite x, Finite y =>
      if Qeq_bool y 0 then
        if Qeq_bool x 0 then NaN
        else if Qlt_bool 0 x then PosInfinity else NegInfinity
      else Finite (x / y)
  | Finite _, _ => Finite 0
  | PosInfinity, Finite y => if Qlt_bool y 0 then NegInfinity else PosInfinity
  | NegInfinity, Finite y => if Qlt_bool y 0 then PosInfinity else NegInfinity
  | _, _ => NaN
  end.

Definition Number_max (a b : Number) : Number :=
  match a, b with
  | NaN, _ | _, NaN => NaN
  | PosInfinity, _ | _, PosInfinity => PosInfinity
  | NegInfinity, n | n, NegInfinity => n
  | Finite x, Finite y => Finite (Qmax x y)
  end.

Definition Number_round (a : Number) : Number :=
  match a with
  | Finite x => Finite (Math_round x)
  | other => other
  end.

(** [a < b] *)
Definition Number_ltb (a b : Number) : bool :=
  match a, b with
  | NaN, _ | _, NaN => false
  | _, NegInfinity => false
  | NegInfinity, _ => true
  | PosInfinity, _ => false
  | Finite _, PosInfinity => true
  | Finite x, Finite y => Qlt_bool x y
  end.

(** [a >= b] *)
Definition Number_geb (a b : Number) : bool :=
  match a, b with
  | NaN, _ | _, NaN => false
  | _, NegInfinity => true
  | PosInfinity, _ => true
  | NegInfinity, _ => false
  | Finite _, PosInfinity => false
  | Finite x, Finite y => Qle_bool y x
  end.

(** Whether a number is truthy: neither zero nor [NaN]. *)
Definition Number_truthy (a : Number) : bool :=
  match a with
  | Finite x => negb (Qeq_bool x 0)
  | NaN => false
  | _ => true
  end.

Definition isInteger (x : Q) : bool := Qeq_bool x (inject_Z (Qfloor x)).

(** [url.endsWith(suffix)] *)
Definition endsWith (s suffix : string) : bool :=
  let n := String.length s in
  let m := String.length suffix in
  ((m <=? n)%nat && String.eqb (substring (n - m) m s) suffix)%bool.

Inductive Language : Type := En | Fr.

Section Strings.

(** The digits JavaScript prints for a finite number that is not an
    integer (the shortest that read back as the same double) are not
    modelled: they are a parameter.  Integers print in decimal. *)
Variable fractionToString : Q -> string.

(** [document.documentElement.lang], which selects [TRANSLATIONS]. *)
Variable LANGUAGE : Language.

Definition Number_toString (a : Number) : string :=
  match a with
  | Finite x =>
      if isInteger x then NilZero.string_of_int (Z.to_int (Qfloor x))
      else fractionToString x
  | NaN => "NaN"
  | PosInfinity => "Infinity"
  | NegInfinity => "-Infinity"
  end.

(** [`${value ?? ''}`] *)
Definition orEmpty (value : option Number) : string :=
  match value with
  | Some n => Number_toString n
  | None => ""
  end.

(** [TRANSLATIONS.imageSizeError] *)
Definition imageSizeError (actualSize expectedSize imageURL : string) : string :=
  match LANGUAGE with
  | En => "The size of the provided image is " ++ actualSize ++ ", but "
          ++ expectedSize ++ " was expected. There may be an issue with the IIIF server at "
          ++ imageURL ++ "."
  | Fr => "La taille de l'image fournie est " ++ actualSize ++ ", mais "
          ++ expectedSize ++ " était attendu. Il se pourrait qu'il y ait un problème avec le serveur IIIF à l'adresse "
          ++ imageURL ++ "."
  end%string.

(** [if (!bound) bound = null]: a bound that is [undefined], [null] or 0
    is [None] from here on. *)
Definition orNull (bound : option Q) : option Q :=
  match bound with
  | Some q => if Qeq_bool q 0 then None else Some q
  | None => None
  end.

(** In a comparison or a division [null] counts as 0. *)
Definition toNumber (bound : option Q) : Q :=
  match bound with Some q => q | None => 0 end.

(** The end of [iiifUri], from the comment "Only one dimension is greater
    than the image" on: the bounds are scaled down when exactly one of them
    exceeds the box, and the size clause is appended to [url]. *)
Definition iiifResize (url : string) (box : Box) (width height : option Q) : string :=
  let scaled :=
    if xorb (Qlt_bool (boxWidth box) (toNumber width))
            (Qlt_bool (boxHeight box) (toNumber height)) then
      let ratio :=
        Number_max
          (Number_div (Finite (toNumber width)) (Finite (boxWidth box)))
          (Number_div (Finite (toNumber height)) (Finite (boxHeight box))) in
      let rescale (bound : option Q) :=
        match bound with
        | Some q => Some (Number_round (Number_div (Finite q) ratio))
        | None => None
        end in
      (rescale width, rescale height)
    else (option_map Finite width, option_map Finite height) in
  let width := fst scaled in
  let height := snd scaled in
  let orInfinity (bound : option Number) :=
    match bound with Some n => n | None => PosInfinity end in
  if (Number_geb (orInfinity width) (Finite (boxWidth box))
      && Number_geb (orInfinity height) (Finite (boxHeight box)))%bool then
    (url ++ "/full/0/default.jpg")%string
  else
    let truthy (bound : option Number) :=
      match bound with Some n => Number_truthy n | None => false end in
    (url ++ "/" ++ (if (truthy width && truthy height)%bool then "!" else "")
         ++ orEmpty width ++ "," ++ orEmpty height ++ "/0/default.jpg")%string.

(** [iiifUri(element, { width, height })]; [None] is a bound that was not
    given. *)
Definition iiifUri (element : Element) (width height : option Q) : Completion string :=
  match elementImage element with
  | None => Throw (Error "An image is required.")
  | Some image =>
      if (Qle_bool (imageWidth image) 0 || Qle_bool (imageHeight image) 0)%bool then
        Throw (Error "An image with valid dimensions is required.")
      else if String.eqb (imageUrl image) "" then
        Throw (Error "An image with a valid URL is required.")
      else
        let width := orNull width in
        let height := orNull height in
        let url := imageUrl image in
        let url := if endsWith url "/" then url else (url ++ "/")%string in
        match elementPolygon element with
        | None =>
            (* the entire image is the bounding box *)
            let box := {| boxX := 0; boxY := 0; boxWidth := imageWidth image;
                          boxHeight := imageHeight image |} in
            Return (iiifResize (url ++ "full") box width height)
        | Some _ =>
            match boundingBox element with
            | Throw e => Throw e
            | Return box =>
                let url :=
                  if (Qle_bool (boxX box) 0 && Qle_bool (boxY box) 0
                      && Qle_bool (imageWidth image) (boxWidth box)
                      && Qle_bool (imageHeight image) (boxHeight box))%bool
                  then (url ++ "full")%string
                  else (url ++ String.concat ","
                          (map (fun q => Number_toString (Finite q))
                             [boxX box; boxY box; boxWidth box; boxHeight box]))%string in
                Return (iiifResize url box width height)
            end
        end
  end.

(** [checkImageSize(img, expectedWidth, expectedHeight, imageURL)], where
    [img] is given by its width and height. *)
Definition checkImageSize (imgWidth imgHeight expectedWidth expectedHeight : Q)
    (imageURL : string) : Completion unit :=
  let ratios :=
    [ Number_div (Finite imgWidth) (Finite expectedWidth);
      Number_div (Finite imgHeight) (Finite expectedHeight);
      Number_div (Finite (imgWidth * imgHeight))
                 (Finite (expectedWidth * expectedHeight)) ] in
  if existsb (fun ratio =>
                (Number_ltb ratio (Finite IMAGE_WARNING_RATIO)
                 || Number_ltb (Finite (- IMAGE_WARNING_RATIO + 2)) ratio)%bool) ratios then
    let size (w h : Q) :=
      (Number_toString (Finite w) ++ "×" ++ Number_toString (Finite h))%string in
    Throw (InvalidImageSizeError
             (imageSizeError (size imgWidth imgHeight)
                             (size expectedWidth expectedHeight) imageURL))
  else Return tt.

End Strings.

(** ** The [element] store module and the [InteractiveImage] component *)

(** The id of a region: a number once the region is created,
    ['created-polygon'] while it is drawn. *)
Inductive Id : Type :=
| NumberId (n : Z)
| StringId (s : string).

Definition Id_eqb (a b : Id) : bool :=
  match a, b with
  | NumberId n, NumberId m => (n =? m)%Z
  | StringId s, StringId t => String.eqb s t
  | _, _ => false
  end.

Definition Id_truthy (a : Id) : bool :=
  match a with
  | NumberId n => negb (n =? 0)%Z
  | StringId s => negb (String.eqb s "")
  end.

(** A child region.  The other properties a child may carry, which the
    component only copies, are left out. *)
Record Region : Type := mkRegion {
  regionId : Id;
  regionPolygon : Polygon
}.

Inductive Mode : Type := DISPLAY_MODE | SELECT_MODE | CREATE_MODE.

Definition isSelectMode (m : Mode) : bool :=
  match m with SELECT_MODE => true | _ => false end.

Inductive Tool : Type := RECTANGLE_TOOL | POLYGON_TOOL | EDITION_TOOL.

Inductive Action : Type := Down | Up | Move | DbClick | Zoom.

Record ViewPosition : Type := mkViewPosition {
  viewX : Q;
  viewY : Q;
  viewApplied : bool;
  viewRecenter : bool
}.

(** The custom events dispatched on the document. *)
Inductive Event : Type :=
| SelectElement (id : Id)
| UnselectElement (id : Id)
| CreateElement (element : Region)
| UpdateElement (id : Id) (newPolygon : Polygon).

(** The state of the store module, the data of the component, and the
    events dispatched so far, oldest first.  The watchers of the component
    run once the handler of an event has returned and are not part of the
    methods below; the one on [editedElement] only selects the element that
    is edited and unselects the one that no longer is. *)
Record State : Type := mkState {
  mode : Mode;
  selected : list Id;
  highlighted : list Id;
  hovered : option Id;
  parsedElement : option Element;
  parsedChildren : list (option Region);
  editedElement : option Region;
  movedPointIndex : option nat;
  mouseDown : bool;
  lastMousePosition : option Point;
  updatedPolygon : bool;
  cancelled : bool;
  viewPosition : ViewPosition;
  tool : Tool;
  dispatched : list Event
}.

Definition setSelectedIds (ids : list Id) (s : State) : State :=
  mkState (mode s) ids (highlighted s) (hovered s) (parsedElement s)
    (parsedChildren s) (editedElement s) (movedPointIndex s) (mouseDown s)
    (lastMousePosition s) (updatedPolygon s) (cancelled s) (viewPosition s)
    (tool s) (dispatched s).

Definition setHovered (id : option Id) (s : State) : State :=
  mkState (mode s) (selected s) (highlighted s) id (parsedElement s)
    (parsedChildren s) (editedElement s) (movedPointIndex s) (mouseDown s)
    (lastMousePosition s) (updatedPolygon s) (cancelled s) (viewPosition s)
    (tool s) (dispatched s).

Definition setParsedChildren (children : list (option Region)) (s : State) : State :=
  mkState (mode s) (selected s) (highlighted s) (hovered s) (parsedElement s)
    children (editedElement s) (movedPointIndex s) (mouseDown s)
    (lastMousePosition s) (updatedPolygon s) (cancelled s) (viewPosition s)
    (tool s) (dispatched s).

Definition setEditedElement (element : option Region) (s : State) : State :=
  mkState (mode s) (selected s) (highlighted s) (hovered s) (parsedElement s)
    (parsedChildren s) element (movedPointIndex s) (mouseDown s)
    (lastMousePosition s) (updatedPolygon s) (cancelled s) (viewPosition s)
    (tool s) (dispatched s).

Definition setMovedPointIndex (index : option nat) (s : State) : State :=
  mkState (mode s) (selected s) (highlighted s) (hovered s) (parsedElement s)
    (parsedChildren s) (editedElement s) index (mouseDown s)
    (lastMousePosition s) (updatedPolygon s) (cancelled s) (viewPosition s)
    (tool s) (dispatched s).

Definition setLastMousePosition (position : option Point) (s : State) : State :=
  mkState (mode s) (selected s) (highlighted s) (hovered s) (parsedElement s)
    (parsedChildren s) (editedElement s) (movedPointIndex s) (mouseDown s)
    position (updatedPolygon s) (cancelled s) (viewPosition s)
    (tool s) (dispatched s).

Definition setUpdatedPolygon (updated : bool) (s : State) : State :=
  mkState (mode s) (selected s) (highlighted s) (hovered s) (parsedElement s)
    (parsedChildren s) (editedElement s) (movedPointIndex s) (mouseDown s)
    (lastMousePosition s) updated (cancelled s) (viewPosition s)
    (tool s) (dispatched s).

Definition setViewPosition (position : ViewPosition) (s : State) : State :=
  mkState (mode s) (selected s) (highlighted s) (hovered s) (parsedElement s)
    (parsedChildren s) (editedElement s) (movedPointIndex s) (mouseDown s)
    (lastMousePosition s) (updatedPolygon s) (cancelled s) position
    (tool s) (dispatched s).

(** [document.dispatchEvent(new CustomEvent(...))], as far as the log goes;
    the listeners the component itself registered are run by the caller. *)
Definition dispatchEvent (e : Event) (s : State) : State :=
  mkState (mode s) (selected s) (highlighted s) (hovered s) (parsedElement s)
    (parsedChildren s) (editedElement s) (movedPointIndex s) (mouseDown s)
    (lastMousePosition s) (updatedPolygon s) (cancelled s) (viewPosition s)
    (tool s) (dispatched s ++ [e]).

(** [ids.indexOf(id)], [-1] when absent. *)
Fixpoint indexOf (id : Id) (ids : list Id) : Z :=
  match ids with
  | [] => -1
  | x :: rest =>
      if Id_eqb x id then 0
      else let i := indexOf id rest in if (i <? 0)%Z then -1 else (i + 1)%Z
  end.

Definition includes (id : Id) (ids : list Id) : bool := existsb (Id_eqb id) ids.

(** [editedElement?.id === id] *)
Definition editedIs (id : Id) (s : State) : bool :=
  match editedElement s with
  | Some element => Id_eqb (regionId element) id
  | None => false
  end.

(** The [removeSelected] mutation.  Its [unselect-element] event is
    delivered at once to the listener the component registered in
    [created], which commits [removeSelected] again (with [force]) and then
    drops the edited element if it is the one unselected.  [fuel] bounds the
    nesting of these deliveries. *)
Fixpoint removeSelected (fuel : nat) (id : Id) (force : bool) (s : State) : State :=
  if (negb (includes id (selected s)) || (negb force && negb (isSelectMode (mode s))))%bool
  then s
  else
    let ids := splice (indexOf id (selected s)) 1 [] (selected s) in
    let s := setSelectedIds ids s in
    let s := dispatchEvent (UnselectElement id) s in
    match fuel with
    | O => s
    | S fuel' =>
        let s := removeSelected fuel' id true s in
        if editedIs id s then setEditedElement None s else s
    end.

(** [removeSelectedElement({ id, force })]: every delivery removes one
    occurrence of [id], so the length of the selection is fuel enough. *)
Definition removeSelectedElement (id : Id) (force : bool) (s : State) : State :=
  removeSelected (length (selected s)) id force s.

(** [getChildIndex(id)]: [findIndex(element => element?.id === id)]. *)
Fixpoint findChildIndex (id : Id) (children : list (option Region)) : Z :=
  match children with
  | [] => -1
  | child :: rest =>
      if match child with Some element => Id_eqb (regionId element) id | None => false end
      then 0
      else let i := findChildIndex id rest in if (i <? 0)%Z then -1 else (i + 1)%Z
  end.

Definition getChildIndex (id : Id) (s : State) : Z := findChildIndex id (parsedChildren s).

(** [array[index]]: [None] stands for [undefined]. *)
Definition at_index {A : Type} (l : list A) (index : Z) : option A :=
  if (index <? 0)%Z then None else nth_error l (Z.to_nat index).

(** [array[index] = value] at an index that holds an element; the component
    assigns only where it has just read one. *)
Definition assignAt {A : Type} (index : Z) (value : A) (l : list A) : list A :=
  if ((0 <=? index) && (index <? Z.of_nat (length l)))%Z
  then splice index 1 [value] l
  else l.

(** The listener of [delete-element] registered in [created]. *)
Definition onDeleteElement (id : Id) (s : State) : State :=
  let s := removeSelectedElement id true s in
  let s := setParsedChildren (splice (getChildIndex id s) 1 [] (parsedChildren s)) s in
  if editedIs id s then setEditedElement None s else s.

(** *** Methods: a state and exception monad *)

Definition M (A : Type) : Type := State -> Completion A * State.

Definition ret {A : Type} (a : A) : M A := fun s => (Return a, s).
Definition throw {A : Type} (e : Exception) : M A := fun s => (Throw e, s).
Definition bind {A B : Type} (m : M A) (k : A -> M B) : M B :=
  fun s => match m s with
           | (Return a, s') => k a s'
           | (Throw e, s') => (Throw e, s')
           end.
Definition get : M State := fun s => (Return s, s).
Definition modify (f : State -> State) : M unit := fun s => (Return tt, f s).
Definition lift {A : Type} (c : Completion A) : M A := fun s => (c, s).
(** [try { body } catch (e) { handler e }] *)
Definition tryCatch {A : Type} (body : M A) (handler : Exception -> M A) : M A :=
  fun s => match body s with
           | (Return a, s') => (Return a, s')
           | (Throw e, s') => handler e s'
           end.

Notation "x <- m ;; k" := (bind m (fun x => k))
  (at level 61, m at next level, right associativity).
Notation "m ;;; k" := (bind m (fun _ => k))
  (at level 61, right associativity).

(** The computed property [originalBoundingBox]; [None] is the empty
    object returned while there is no element. *)
Definition originalBoundingBox : M (option Box) :=
  s <- get ;;
  match parsedElement s with
  | None => ret None
  | Some element => box <- lift (boundingBox element) ;; ret (Some box)
  end.

(** A position within the limits of a box. *)
Definition limitTo (box : Box) (position : Point) : Point :=
  let (posX, posY) := position in
  let posX := if Qlt_bool posX (boxX box) then boxX box
              else if Qlt_bool (boxX box + boxWidth box) posX
                   then boxX box + boxWidth box else posX in
  let posY := if Qlt_bool posY (boxY box) then boxY box
              else if Qlt_bool (boxY box + boxHeight box) posY
                   then boxY box + boxHeight box else posY in
  (posX, posY).

(** [elementLimits(position)]; against the empty object every comparison
    is false and the position comes back as it is. *)
Definition elementLimits (position : Point) : M Point :=
  box <- originalBoundingBox ;;
  match box with
  | None => ret position
  | Some box => ret (limitTo box position)
  end.

(** [editElement(element)]: a region always has a polygon here, so the
    error for an element without one cannot be raised. *)
Definition editElement (element : option Region) : M unit :=
  modify (setEditedElement element).

Definition withPolygon (element : Region) (polygon : Polygon) : Region :=
  {| regionId := regionId element; regionPolygon := polygon |}.

(** [translate(position)] *)
Definition translate (position : Point) : M unit :=
  s <- get ;;
  match lastMousePosition s with
  | None => ret tt
  | Some lastPosition =>
      let dX := fst position - fst lastPosition in
      let dY := snd position - snd lastPosition in
      modify (setViewPosition
                {| viewX := viewX (viewPosition s) + dX;
                   viewY := viewY (viewPosition s) + dY;
                   viewApplied := false; viewRecenter := false |})
  end.

(** [create()] *)
Definition create : M unit :=
  s <- get ;;
  match editedElement s with
  | None => ret tt
  | Some edited =>
      checked <-
        tryCatch
          (polygon <- lift (checkPolygon (rawPolygon (regionPolygon edited)) POLYGON_MIN_SIZE) ;;
           editElement (Some (withPolygon edited polygon)) ;;;
           ret (Some polygon))
          (fun e =>
             match e with
             | InvalidPolygonError _ => editElement None ;;; ret None
             | _ => throw e
             end) ;;
      match checked with
      | None => ret tt
      | Some polygon =>
          s <- get ;;
          let newId :=
            match at_index (parsedChildren s) (Z.of_nat (length (parsedChildren s)) - 1) with
            | Some (Some lastElement) =>
                match regionId lastElement with
                | NumberId n => NumberId (n + 1)
                | StringId _ => NumberId 1
                end
            | _ => NumberId 1
            end in
          let newElement := {| regionId := newId; regionPolygon := polygon |} in
          modify (setParsedChildren (parsedChildren s ++ [Some newElement])) ;;;
          editElement None ;;;
          modify (dispatchEvent (CreateElement newElement))
      end
  end.

(** [movePoint(position)]: the updated polygon, or [None] for [undefined]. *)
Definition movePoint (position : Point) : M (option Polygon) :=
  s <- get ;;
  match editedElement s with
  | None => throw (TypeError PropertyOfUndefined)
  | Some edited =>
      let polygon := regionPolygon edited in
      limitedPosition <- elementLimits position ;;
      match movedPointIndex s with
      | None => throw (TypeError NotIterable)   (* polygon[null] is undefined *)
      | Some index =>
          match nth_error polygon index with
          | None => throw (TypeError NotIterable)
          | Some point =>
              if pointsEqual point limitedPosition then ret None
              else
                let polygon := splice (Z.of_nat index) 1 [limitedPosition] polygon in
                let polygon := if (index =? 0)%nat
                               then splice (-1) 1 [limitedPosition] polygon
                               else polygon in
                ret (Some polygon)
          end
      end
  end.

(** [points.every(point => pointsEqual(point, this.elementLimits(point)))] *)
Fixpoint everyWithinLimits (points : Polygon) : M bool :=
  match points with
  | [] => ret true
  | point :: rest =>
      limited <- elementLimits point ;;
      if pointsEqual point limited then everyWithinLimits rest else ret false
  end.

(** [movePolygon(position)] *)
Definition movePolygon (position : Point) : M (option Polygon) :=
  s <- get ;;
  match lastMousePosition s with
  | None => throw (TypeError NotIterable)
  | Some lastPosition =>
      if pointsEqual lastPosition position then ret None
      else
        match editedElement s with
        | None => throw (TypeError PropertyOfUndefined)
        | Some edited =>
            let translationVector :=
              (fst position - fst lastPosition, snd position - snd lastPosition) in
            let newPolygon := shiftPolygon (regionPolygon edited) translationVector in
            inBounds <- everyWithinLimits newPolygon ;;
            if (inBounds : bool) then ret (Some newPolygon) else ret None
        end
  end.

(** The first argument of [edit]: a position, but for the call in the
    [catch] of [saveEdited], which passes an element or [null]. *)
Inductive EditArgument : Type :=
| AtPosition (position : Point)
| AnElement (element : option Region).

Definition asPosition (argument : EditArgument) : M Point :=
  match argument with
  | AtPosition position => ret position
  | AnElement _ => throw (TypeError NotIterable)
  end.

(** [edit(position, action)], open in the [saveEdited] it calls; [None] is
    an [action] left undefined. *)
Definition editWith (saveEdited : M unit) (argument : EditArgument)
    (action : option Action) : M unit :=
  s <- get ;;
  match action with
  | Some Down =>
      match hovered s with
      | Some id =>
          match (if Id_truthy id then at_index (parsedChildren s) (getChildIndex id s)
                 else None) with
          | Some (Some child) => editElement (Some child)
          | _ => editElement None
          end
      | None => editElement None
      end
  | Some Up =>
      match editedElement s with
      | Some _ => saveEdited
      | None =>
          match lastMousePosition s with
          | None => ret tt
          | Some _ => position <- asPosition argument ;; translate position
          end
      end
  | Some Move =>
      if negb (mouseDown s) then ret tt
      else
        match editedElement s with
        | None =>
            match lastMousePosition s with
            | None => ret tt
            | Some _ => position <- asPosition argument ;; translate position
            end
        | Some _ =>
            polygon <-
              match movedPointIndex s, lastMousePosition s with
              | Some _, _ => position <- asPosition argument ;; movePoint position
              | None, Some _ => position <- asPosition argument ;; movePolygon position
              | None, None => ret None
              end ;;
            modify (setUpdatedPolygon true) ;;;
            match polygon with
            | Some polygon =>
                s <- get ;;
                match editedElement s with
                | Some edited => editElement (Some (withPolygon edited polygon))
                | None => throw (TypeError PropertyOfUndefined)
                end
            | None => ret tt
            end
        end
  | _ => ret tt
  end.

(** [saveEdited()] *)
Definition saveEdited : M unit :=
  modify (setMovedPointIndex None) ;;;
  s <- get ;;
  match editedElement s with
  | None => throw (TypeError PropertyOfUndefined)
  | Some edited =>
      (if match lastMousePosition s with Some _ => true | None => false end
       then modify (setHovered (Some (regionId edited))) else ret tt) ;;;
      let indexBaseElt := getChildIndex (regionId edited) s in
      let baseElt :=
        match at_index (parsedChildren s) indexBaseElt with
        | Some (Some element) => Some element
        | _ => None
        end in
      if (match baseElt with Some _ => true | None => false end
          && negb (updatedPolygon s))%bool then ret tt
      else
        modify (setUpdatedPolygon false) ;;;
        tryCatch
          (reorderedPolygon <-
             lift (checkPolygon (rawPolygon (regionPolygon edited)) POLYGON_MIN_SIZE) ;;
           match baseElt with
           | None => throw (TypeError PropertyOfUndefined)
           | Some base =>
               unchanged <- lift (polygonsEqual (rawPolygon reorderedPolygon)
                                                (rawPolygon (regionPolygon base))) ;;
               if (unchanged : bool) then ret tt
               else
                 let updatedElement := withPolygon edited reorderedPolygon in
                 s <- get ;;
                 modify (setParsedChildren
                           (assignAt indexBaseElt (Some updatedElement) (parsedChildren s))) ;;;
                 modify (dispatchEvent (UpdateElement (regionId edited) reorderedPolygon)) ;;;
                 editElement None
           end)
          (fun e =>
             editWith (ret tt) (AnElement baseElt) None ;;;
             throw e)
  end.

Definition edit (argument : EditArgument) (action : option Action) : M unit :=
  editWith saveEdited argument action.

(** [array[index] = value] on the points of a polygon; reading a
    coordinate of a point that is not there is a [TypeError]. *)
Definition setCoordinate (polygon : Polygon) (index : nat) (update : Point -> Point)
    : M Polygon :=
  match nth_error polygon index with
  | None => throw (TypeError PropertyOfUndefined)
  | Some point => ret (splice (Z.of_nat index) 1 [update point] polygon)
  end.

(** [editRectangle(position, action)] *)
Definition editRectangle (position : Point) (action : Action) : M unit :=
  s <- get ;;
  match editedElement s, action with
  | None, Down =>
      editElement (Some {| regionId := StringId "created-polygon";
                           regionPolygon := repeat position 5 |})
  | None, _ => ret tt
  | Some edited, Up => create
  | Some edited, _ =>
      polygon <-
        match action with
        | Move =>
            limitedPosition <- elementLimits position ;;
            let polygon := splice 2 1 [limitedPosition] (regionPolygon edited) in
            (* the second and third points receive x and y of the cursor *)
            polygon <- setCoordinate polygon 1 (fun p => (fst limitedPosition, snd p)) ;;
            setCoordinate polygon 3 (fun p => (fst p, snd limitedPosition))
        | _ => ret (regionPolygon edited)
        end ;;
      editElement (Some (withPolygon edited polygon))
  end.

(** [editPolygon(position, action)].  Closing a polygon that has no point
    would put [undefined] in it, which [create] refuses at once with the
    [TypeError] for point 0. *)
Definition editPolygon (position : Point) (action : Action) : M unit :=
  s <- get ;;
  point <- elementLimits position ;;
  match editedElement s, action with
  | None, Up =>
      editElement (Some {| regionId := StringId "created-polygon";
                           regionPolygon := [point; point] |})
  | None, _ => ret tt
  | Some edited, _ =>
      polygon <-
        match action with
        | Up => ret (regionPolygon edited ++ [point])
        | Move => ret (splice (-1) 1 [point] (regionPolygon edited))
        | DbClick =>
            match regionPolygon edited with
            | first :: _ => ret (splice (-1) 1 [first] (regionPolygon edited))
            | [] => throw (TypeError (NotAFinitePair 0))
            end
        | _ => ret (regionPolygon edited)
        end ;;
      editElement (Some (withPolygon edited polygon)) ;;;
      match action with
      | DbClick => create
      | _ => ret tt
      end
  end.

(** What [mouseAction] reads of a mouse event: the buttons held, the shift
    key, and the position on the image [getPosition] finds for it. *)
Record MouseEvent : Type := mkMouseEvent {
  buttons : Z;
  shiftKey : bool;
  eventPosition : option Point
}.

Definition setMouseDown (down : bool) (s : State) : State :=
  mkState (mode s) (selected s) (highlighted s) (hovered s) (parsedElement s)
    (parsedChildren s) (editedElement s) (movedPointIndex s) down
    (lastMousePosition s) (updatedPolygon s) (cancelled s) (viewPosition s)
    (tool s) (dispatched s).

Definition setCancelled (value : bool) (s : State) : State :=
  mkState (mode s) (selected s) (highlighted s) (hovered s) (parsedElement s)
    (parsedChildren s) (editedElement s) (movedPointIndex s) (mouseDown s)
    (lastMousePosition s) (updatedPolygon s) value (viewPosition s)
    (tool s) (dispatched s).

Definition isCreateMode (m : Mode) : bool :=
  match m with CREATE_MODE => true | _ => false end.

(** The end of [mouseAction]: the position is kept as the last one while
    the button is down and the mouse moves. *)
Definition trackPosition (mouseCoords : Point) (action : Action) : M unit :=
  s <- get ;;
  if (mouseDown s && match action with Move => true | _ => false end)%bool then
    (if viewApplied (viewPosition s)
     then modify (setLastMousePosition (Some mouseCoords)) else ret tt) ;;;
    s <- get ;;
    modify (setViewPosition
              {| viewX := viewX (viewPosition s); viewY := viewY (viewPosition s);
                 viewApplied := true; viewRecenter := viewRecenter (viewPosition s) |})
  else modify (setLastMousePosition None).

(** [mouseAction(e, action)].  [zoom] changes nothing but the scale of the
    view, which is not part of the state here; it is taken to return, as it
    does whenever the bounding box of the element can be computed. *)
Definition mouseAction (e : MouseEvent) (action : Action) : M unit :=
  s <- get ;;
  if (match action with Down => true | _ => false end && negb (buttons e =? 1)%Z)%bool
  then ret tt
  else if (match action with Move => true | _ => false end
           && negb (mouseDown s)
           && match editedElement s with Some _ => false | None => true end)%bool
  then ret tt
  else
    match eventPosition e with
    | None => throw (Error "Mouse position could not be determined on SVG layer.")
    | Some mouseCoords =>
        (* if (['up', 'down'].includes(action)) *)
        proceed <-
          match action with
          | Up | Down =>
              let down := match action with Down => true | _ => false end in
              modify (setMouseDown down) ;;;
              if cancelled s then
                modify (setCancelled false) ;;; ret down
              else ret true
          | _ => ret true
          end ;;
        if negb proceed then ret tt
        else
          s <- get ;;
          let view := viewPosition s in
          if ((negb (Qeq_bool (viewX view) 0) || negb (Qeq_bool (viewY view) 0))
              && negb (viewRecenter view)
              && match action with Up => true | _ => false end)%bool
          then
            modify (setViewPosition
                      {| viewX := viewX view; viewY := viewY view;
                         viewApplied := viewApplied view; viewRecenter := true |}) ;;;
            modify (setLastMousePosition None)
          else
            match action with
            | Zoom => ret tt
            | _ =>
                if (negb (isCreateMode (mode s)) || shiftKey e)%bool then
                  if mouseDown s then translate mouseCoords else ret tt
                else
                  match tool s with
                  | RECTANGLE_TOOL => editRectangle mouseCoords action
                  | POLYGON_TOOL => editPolygon mouseCoords action
                  | EDITION_TOOL => edit (AtPosition mouseCoords) (Some action)
                  end
            end ;;;
            trackPosition mouseCoords action
    end.

(** The state after a sequence of mouse events; an exception ends the
    handling of one event, not the session. *)
Fixpoint mouseActions (events : list (MouseEvent * Action)) (s : State) : State :=
  match events with
  | [] => s
  | (e, action) :: rest => mouseActions rest (snd (mouseAction e action s))
  end.

(** ** [js/helpers.js]: the other helpers *)

(** [a - b] *)
Definition Number_sub (a b : Number) : Number :=
  match a, b with
  | NaN, _ | _, NaN => NaN
  | Finite x, Finite y => Finite (x - y)
  | PosInfinity, PosInfinity | NegInfinity, NegInfinity => NaN
  | PosInfinity, _ => PosInfinity
  | NegInfinity, _ => NegInfinity
  | Finite _, PosInfinity => NegInfinity
  | Finite _, NegInfinity => PosInfinity
  end.

Definition Extremum_toNumber (e : Extremum) : Number :=
  match e with
  | MinusInfinity => NegInfinity
  | Value q => Finite q
  | PlusInfinity => PosInfinity
  end.

(** A bounding box whose numbers may not be finite, as [boundingBox]
    returns it for an empty polygon when the image does not bound it. *)
Record NumberBox : Type := mkNumberBox {
  numberBoxX : Number;
  numberBoxY : Number;
  numberBoxWidth : Number;
  numberBoxHeight : Number
}.

Definition finiteBox (box : Box) : NumberBox :=
  {| numberBoxX := Finite (boxX box); numberBoxY := Finite (boxY box);
     numberBoxWidth := Finite (boxWidth box); numberBoxHeight := Finite (boxHeight box) |}.

(** [boundingBox(element, { imageBounds })] with its option. *)
Definition boundingBoxWith (imageBounds : bool) (element : Element) : Completion NumberBox :=
  let coords :=
    match elementPolygon element, elementImage element with
    | Some polygon, _ => Return (map fst polygon, map snd polygon)
    | None, Some image => Return ([0; imageWidth image], [0; imageHeight image])
    | None, None => Throw (TypeError PropertyOfUndefined)
    end in
  match coords with
  | Throw e => Throw e
  | Return (xCoords, yCoords) =>
      if imageBounds then
        match elementImage element with
        | None => Throw (Error "An image is required.")
        | Some image =>
            if (Qle_bool (imageWidth image) 0 || Qle_bool (imageHeight image) 0)%bool then
              Throw (Error "An image with valid dimensions is required.")
            else
              let minX := restrict (imageWidth image) (Math_min xCoords) in
              let minY := restrict (imageHeight image) (Math_min yCoords) in
              let maxX := restrict (imageWidth image) (Math_max xCoords) in
              let maxY := restrict (imageHeight image) (Math_max yCoords) in
              Return {| numberBoxX := Finite minX; numberBoxY := Finite minY;
                        numberBoxWidth := Finite (maxX - minX);
                        numberBoxHeight := Finite (maxY - minY) |}
        end
      else
        let minX := Extremum_toNumber (Math_min xCoords) in
        let minY := Extremum_toNumber (Math_min yCoords) in
        let maxX := Extremum_toNumber (Math_max xCoords) in
        let maxY := Extremum_toNumber (Math_max yCoords) in
        Return {| numberBoxX := minX; numberBoxY := minY;
                  numberBoxWidth := Number_sub maxX minX;
                  numberBoxHeight := Number_sub maxY minY |}
  end.

(** ** The [element] store module: the other mutations *)

Definition setMode (m : Mode) (s : State) : State :=
  mkState m (selected s) (highlighted s) (hovered s) (parsedElement s)
    (parsedChildren s) (editedElement s) (movedPointIndex s) (mouseDown s)
    (lastMousePosition s) (updatedPolygon s) (cancelled s) (viewPosition s)
    (tool s) (dispatched s).

(** [setSelected(state, { ids, force })] *)
Definition setSelected (ids : list Id) (force : bool) (s : State) : State :=
  if (negb force && negb (isSelectMode (mode s)) && negb (length ids =? 0)%nat)%bool
  then s
  else setSelectedIds ids s.

(** [setHighlighted(state, { ids })] *)
Definition setHighlighted (ids : list Id) (s : State) : State :=
  mkState (mode s) (selected s) ids (hovered s) (parsedElement s)
    (parsedChildren s) (editedElement s) (movedPointIndex s) (mouseDown s)
    (lastMousePosition s) (updatedPolygon s) (cancelled s) (viewPosition s)
    (tool s) (dispatched s).

(** The [addSelected] mutation.  Its [select-element] event is delivered
    at once to the listener the component registered in [created], which
    commits [addSelected] again (with [force]) and then drops the edited
    element unless it is the one selected.  [fuel] bounds the nesting of
    these deliveries. *)
Fixpoint addSelected (fuel : nat) (id : Id) (force : bool) (s : State) : State :=
  if (includes id (selected s) || (negb force && negb (isSelectMode (mode s))))%bool
  then s
  else
    let s := setSelectedIds (selected s ++ [id]) s in
    let s := dispatchEvent (SelectElement id) s in
    match fuel with
    | O => s
    | S fuel' =>
        let s := addSelected fuel' id true s in
        if editedIs id s then s else setEditedElement None s
    end.

(** [addSelectedElement({ id, force })]: the nested commit finds the id
    selected and returns, so one delivery is all there is. *)
Definition addSelectedElement (id : Id) (force : bool) (s : State) : State :=
  addSelected 1 id force s.

(** [ELEMENT_MODES.includes(mode)], and the mode a valid string names. *)
Definition modeOfString (name : string) : option Mode :=
  if String.eqb name "display" then Some DISPLAY_MODE
  else if String.eqb name "select" then Some SELECT_MODE
  else if String.eqb name "create" then Some CREATE_MODE
  else None.

(** The [setMode] action, which the component maps as [setElementMode]. *)
Definition setElementMode (name : string) (s : State) : State :=
  match modeOfString name with
  | None => s
  | Some m =>
      let s := setMode m s in
      let s := setSelected [] false s in
      let s := setHighlighted [] s in
      setHovered (Some (StringId "")) s
  end.

(** ** The [InteractiveImage] component: the other listeners and methods *)

(** [select(id)] *)
Definition select (id : Id) (s : State) : State :=
  if (negb (Qeq_bool (viewX (viewPosition s)) 0)
      || negb (Qeq_bool (viewY (viewPosition s)) 0))%bool then s
  else if (-1 <? indexOf id (selected s))%Z then removeSelectedElement id false s
  else addSelectedElement id false s.

Definition setTool (t : Tool) (s : State) : State :=
  mkState (mode s) (selected s) (highlighted s) (hovered s) (parsedElement s)
    (parsedChildren s) (editedElement s) (movedPointIndex s) (mouseDown s)
    (lastMousePosition s) (updatedPolygon s) (cancelled s) (viewPosition s)
    t (dispatched s).

(** [abort()] *)
Definition abort : M unit :=
  s <- get ;;
  if (match tool s with EDITION_TOOL => true | _ => false end
      && mouseDown s
      && (match movedPointIndex s with Some _ => true | None => false end
          || match lastMousePosition s with Some _ => true | None => false end))%bool
  then
    editElement None ;;;
    modify (setMouseDown false) ;;;
    modify (setMovedPointIndex None) ;;;
    modify (setLastMousePosition None) ;;;
    modify (setUpdatedPolygon false) ;;;
    modify (setCancelled true)
  else editElement None.

(** [pointMouseDown(index)] *)
Definition pointMouseDown (index : nat) : M unit :=
  s <- get ;;
  match tool s with
  | EDITION_TOOL => modify (setMovedPointIndex (Some index))
  | _ => ret tt
  end.

(** [pointMouseUp(event, index)]: the result tells whether
    [event.stopPropagation()] was called, which keeps the event from the
    [mouseup] handler of the image layer.  Closing a polygon that has no
    point would put [undefined] in it, which [create] refuses at once with
    the [TypeError] for point 0. *)
Definition pointMouseUp (index : nat) : M bool :=
  s <- get ;;
  if cancelled s then modify (setCancelled false) ;;; ret false
  else
    match tool s with
    | POLYGON_TOOL =>
        if negb (index =? 0)%nat then ret true
        else
          match editedElement s with
          | None => throw (TypeError PropertyOfUndefined)
          | Some edited =>
              match regionPolygon edited with
              | [] => throw (TypeError (NotAFinitePair 0))
              | first :: _ =>
                  editElement (Some (withPolygon edited
                                       (splice (-1) 1 [first] (regionPolygon edited)))) ;;;
                  create ;;;
                  ret true
              end
          end
    | _ => ret false
    end.

(** [ZOOM_FACTORS] of [config.js], and the scale of the view. *)
Definition ZOOM_FACTORS : list Q := [100; 133; 166; 200; 250; 350; 400; 500].

Record Scale : Type := mkScale {
  scaleX : option Q;
  scaleY : option Q;
  scaleFactor : Z;
  scaleApplied : bool
}.

(** [zoom(position, event, withLimits)], given [event.deltaY] and the scale
    of the view, which it returns as the call leaves it.  Without limits
    the call destructures an object as an array, which is a [TypeError]. *)
Definition zoom (position : Point) (deltaY : Q) (withLimits : bool) (scale : Scale)
    : M Scale :=
  s <- get ;;
  if mouseDown s then ret scale
  else
    let factor := (scaleFactor scale + (if Qlt_bool deltaY 0 then 1 else -1))%Z in
    let factor := if (factor <? 0)%Z then 0%Z else factor in
    let factor := if (Z.of_nat (length ZOOM_FACTORS) <=? factor)%Z
                  then (Z.of_nat (length ZOOM_FACTORS) - 1)%Z else factor in
    if (factor =? scaleFactor scale)%Z then ret scale
    else if withLimits then
      limited <- elementLimits position ;;
      if negb (scaleApplied scale) then
        ret {| scaleX := scaleX scale; scaleY := scaleY scale;
               scaleFactor := factor; scaleApplied := scaleApplied scale |}
      else
        ret {| scaleX := Some (fst limited); scaleY := Some (snd limited);
               scaleFactor := factor; scaleApplied := false |}
    else throw (TypeError NotIterable).

(** ** The [InteractiveImage] component: the watcher of [editedElement] *)

(** [element?.id] *)
Definition optionalId (element : option Region) : option Id :=
  match element with
  | Some region => Some (regionId region)
  | None => None
  end.

(** [a === b] on two ids that may be [undefined]. *)
Definition sameOptionalId (a b : option Id) : bool :=
  match a, b with
  | None, None => true
  | Some x, Some y => Id_eqb x y
  | _, _ => false
  end.

(** The watcher of [editedElement].  It runs once the handler that changed
    the edited element has returned, with the value the element had before:
    it unselects the element that is no longer edited and selects the one
    that is, both with [force]. *)
Definition watchEditedElement (oldValue : option Region) (s : State) : State :=
  let newValue := editedElement s in
  if sameOptionalId (optionalId newValue) (optionalId oldValue) then s
  else
    let s := match oldValue with
             | Some old => removeSelectedElement (regionId old) true s
             | None => s
             end in
    match newValue with
    | Some new => addSelectedElement (regionId new) true s
    | None => s
    end.

(** One mouse event: its handler, then the watcher. *)
Definition handleMouse (e : MouseEvent) (action : Action) (s : State) : State :=
  watchEditedElement (editedElement s) (snd (mouseAction e action s)).

(** The state after a sequence of mouse events, the watcher run after
    each; an exception ends the handling of one event, not the session. *)
Fixpoint mouseEvents (events : list (MouseEvent * Action)) (s : State) : State :=
  match events with
  | [] => s
  | (e, action) :: rest => mouseEvents rest (handleMouse e action s)
  end.

(** * Properties *)

(** ** Numbers *)

Lemma Qlt_bool_iff (a b : Q) : Qlt_bool a b = true <-> a < b.
Proof.
  unfold Qlt_bool. rewrite negb_true_iff.
  destruct (Qle_bool b a) eqn:E.
  - apply Qle_bool_iff in E. split; [discriminate | intro H; exfalso; lra].
  - split; [intros _ | reflexivity].
    apply Qnot_le_lt. intro H. apply Qle_bool_iff in H. congruence.
Qed.

Lemma Qlt_bool_false_iff (a b : Q) : Qlt_bool a b = false <-> b <= a.
Proof.
  unfold Qlt_bool. rewrite negb_false_iff. apply Qle_bool_iff.
Qed.

Lemma Qfloor_half (n : Z) : Qfloor (inject_Z n + (1 # 2)) = n.
Proof.
  pose proof (Qfloor_le (inject_Z n + (1 # 2))) as Hle.
  pose proof (Qlt_floor (inject_Z n + (1 # 2))) as Hlt.
  set (f := Qfloor (inject_Z n + (1 # 2))) in *.
  assert (H1 : (f <= n)%Z).
  { apply Z.lt_succ_r. rewrite Zlt_Qlt. unfold Z.succ. rewrite inject_Z_plus.
    change (inject_Z 1) with 1. lra. }
  assert (H2 : (n < f + 1)%Z).
  { rewrite Zlt_Qlt in *. rewrite inject_Z_plus in *. change (inject_Z 1) with 1 in *. lra. }
  lia.
Qed.

Lemma Math_round_integer (x : Q) (n : Z) : x == inject_Z n -> Math_round x = inject_Z n.
Proof.
  intro H. unfold Math_round. f_equal.
  rewrite <- (Qfloor_half n). apply Qfloor_comp. rewrite H. reflexivity.
Qed.

Lemma Math_round_idempotent (x : Q) : Math_round (Math_round x) = Math_round x.
Proof. apply Math_round_integer. reflexivity. Qed.

Lemma Math_round_monotone (x y : Q) : x <= y -> Math_round x <= Math_round y.
Proof.
  intro H. unfold Math_round. rewrite <- Zle_Qle. apply Qfloor_resp_le. lra.
Qed.

Lemma Math_round_succ (x : Q) : Math_round (x + 1) == Math_round x + 1.
Proof.
  unfold Math_round.
  assert (E : Qfloor (x + 1 + (1 # 2)) = (Qfloor (x + (1 # 2)) + 1)%Z).
  { pose proof (Qfloor_le (x + (1 # 2))) as A.
    pose proof (Qlt_floor (x + (1 # 2))) as B.
    pose proof (Qfloor_le (x + 1 + (1 # 2))) as C.
    pose proof (Qlt_floor (x + 1 + (1 # 2))) as D.
    set (f := Qfloor (x + (1 # 2))) in *.
    set (g := Qfloor (x + 1 + (1 # 2))) in *.
    rewrite inject_Z_plus in B, D. change (inject_Z 1) with 1 in B, D.
    assert (g < f + 2)%Z.
    { rewrite Zlt_Qlt, inject_Z_plus. change (inject_Z 2) with 2. lra. }
    assert (f < g)%Z.
    { rewrite Zlt_Qlt. lra. }
    lia. }
  rewrite E, inject_Z_plus. reflexivity.
Qed.

Lemma Math_round_nonneg (x : Q) : -(1 # 2) <= x <-> 0 <= Math_round x.
Proof.
  unfold Math_round.
  pose proof (Qfloor_le (x + (1 # 2))) as A.
  pose proof (Qlt_floor (x + (1 # 2))) as B.
  set (f := Qfloor (x + (1 # 2))) in *.
  rewrite inject_Z_plus in B. change (inject_Z 1) with 1 in B.
  split; intro H.
  - change 0 with (inject_Z 0). rewrite <- Zle_Qle.
    assert (-1 < f)%Z; [| lia].
    rewrite Zlt_Qlt. change (inject_Z (-1)) with (-1). lra.
  - lra.
Qed.

Lemma Math_round_small_negative (x : Q) : -(1 # 2) <= x -> x < 0 -> Math_round x = 0.
Proof.
  intros H1 H2. unfold Math_round.
  pose proof (Qfloor_le (x + (1 # 2))) as A.
  pose proof (Qlt_floor (x + (1 # 2))) as B.
  set (f := Qfloor (x + (1 # 2))) in *.
  rewrite inject_Z_plus in B. change (inject_Z 1) with 1 in B.
  assert (E : f = 0%Z); [| rewrite E; reflexivity].
  assert (-1 < f)%Z by (rewrite Zlt_Qlt; change (inject_Z (-1)) with (-1); lra).
  assert (f < 1)%Z by (rewrite Zlt_Qlt; change (inject_Z 1) with 1; lra).
  lia.
Qed.

(** ** Arrays *)

Lemma splice_nat {A : Type} (n deleteCount : nat) (items l : list A) :
  (n <= length l)%nat ->
  splice (Z.of_nat n) deleteCount items l
  = firstn n l ++ items ++ skipn (n + deleteCount) l.
Proof.
  intro H. unfold splice.
  destruct (Z.ltb_spec (Z.of_nat n) 0); [lia |].
  rewrite Z.min_l by lia. rewrite Nat2Z.id. reflexivity.
Qed.

(** [splice(-1, 1, ...items)] on an array that is not empty replaces its
    last element. *)
Lemma splice_last {A : Type} (items l : list A) (a : A) :
  splice (-1) 1 items (l ++ [a]) = l ++ items.
Proof.
  unfold splice.
  assert (E : Z.to_nat (if (-1 <? 0)%Z
                        then Z.max (Z.of_nat (length (l ++ [a])) + -1) 0
                        else Z.min (-1) (Z.of_nat (length (l ++ [a])))) = length l).
  { rewrite length_app. simpl. lia. }
  rewrite E. clear E.
  rewrite firstn_app, Nat.sub_diag, firstn_all. simpl firstn. rewrite app_nil_r.
  rewrite skipn_app, skipn_all2 by lia.
  replace (length l + 1 - length l)%nat with 1%nat by lia. simpl. now rewrite app_nil_r.
Qed.

Lemma Forall_firstn_skipn {A : Type} (P : A -> Prop) (n : nat) (l : list A) :
  Forall P l -> Forall P (firstn n l) /\ Forall P (skipn n l).
Proof.
  intro H. rewrite <- (firstn_skipn n l) in H. now apply Forall_app in H.
Qed.

Lemma Forall_splice {A : Type} (P : A -> Prop) (start : Z) (deleteCount : nat)
    (items l : list A) :
  Forall P l -> Forall P items -> Forall P (splice start deleteCount items l).
Proof.
  intros Hl Hi. unfold splice. apply Forall_app. split.
  - now apply Forall_firstn_skipn.
  - apply Forall_app. split; [assumption | now apply Forall_firstn_skipn].
Qed.

(** ** Points and the normal form of a polygon *)

(** Two points with the same coordinates. *)
Definition samePoint (p q : Point) : Prop := fst p == fst q /\ snd p == snd q.

Lemma pointsEqual_iff (p q : Point) : pointsEqual p q = true <-> samePoint p q.
Proof.
  unfold pointsEqual, samePoint. rewrite andb_true_iff, !Qeq_bool_iff. tauto.
Qed.

Lemma pointsEqual_false_iff (p q : Point) : pointsEqual p q = false <-> ~ samePoint p q.
Proof.
  rewrite <- pointsEqual_iff. destruct (pointsEqual p q); split; congruence.
Qed.

Lemma samePoint_refl (p : Point) : samePoint p p.
Proof. split; reflexivity. Qed.

Lemma samePoint_sym (p q : Point) : samePoint p q -> samePoint q p.
Proof. intros [H1 H2]. split; symmetry; assumption. Qed.

Lemma samePoint_trans (p q r : Point) : samePoint p q -> samePoint q r -> samePoint p r.
Proof. intros [H1 H2] [H3 H4]. split; etransitivity; eassumption. Qed.

Lemma pointsEqual_refl (p : Point) : pointsEqual p p = true.
Proof. apply pointsEqual_iff, samePoint_refl. Qed.

(** [pointsEqual] only looks at the values of the coordinates. *)
Lemma pointsEqual_compat (p p' q q' : Point) :
  samePoint p p' -> samePoint q q' -> pointsEqual p q = pointsEqual p' q'.
Proof.
  intros Hp Hq.
  destruct (pointsEqual p q) eqn:E1, (pointsEqual p' q') eqn:E2; try reflexivity.
  - apply pointsEqual_iff in E1. apply pointsEqual_false_iff in E2.
    exfalso. apply E2.
    eapply samePoint_trans; [apply samePoint_sym, Hp |].
    eapply samePoint_trans; eassumption.
  - apply pointsEqual_iff in E2. apply pointsEqual_false_iff in E1.
    exfalso. apply E1.
    eapply samePoint_trans; [apply Hp |].
    eapply samePoint_trans; [apply E2 | apply samePoint_sym, Hq].
Qed.

Definition roundPoint (p : Point) : Point := (Math_round (fst p), Math_round (snd p)).

(** A point whose coordinates are integers, written as [Math.round] writes
    them. *)
Definition integral (p : Point) : Prop :=
  exists a b : Z, p = (inject_Z a, inject_Z b).

Lemma integral_roundPoint (p : Point) : integral (roundPoint p).
Proof. unfold integral, roundPoint, Math_round. eauto. Qed.

Lemma roundPoint_integral (p : Point) : integral p -> roundPoint p = p.
Proof.
  intros (a & b & ->). unfold roundPoint. simpl.
  rewrite !(Math_round_integer _ _ (Qeq_refl _)). reflexivity.
Qed.

Lemma roundPolygon_integral (polygon : Polygon) : Forall integral (roundPolygon polygon).
Proof.
  unfold roundPolygon. apply Forall_forall. intros p Hp.
  apply in_map_iff in Hp as (q & <- & _). apply (integral_roundPoint q).
Qed.

Lemma roundPolygon_fixed (polygon : Polygon) :
  Forall integral polygon -> roundPolygon polygon = polygon.
Proof.
  induction 1 as [| p l Hp _ IH]; [reflexivity |].
  unfold roundPolygon in *. simpl. rewrite IH.
  change (roundPoint p :: l = p :: l). now rewrite (roundPoint_integral p Hp).
Qed.

(** What the deduplication loop leaves of a polygon: after a point that is
    kept, the points equal to it are dropped up to the first that
    differs, which is kept in turn. *)
Fixpoint dedupAfter (previous : Point) (rest : Polygon) : Polygon :=
  match rest with
  | [] => []
  | p :: rest' =>
      if pointsEqual p previous then dedupAfter previous rest'
      else p :: dedupAfter p rest'
  end.

Definition deduplicate (polygon : Polygon) : Polygon :=
  match polygon with
  | [] => []
  | p :: rest => p :: dedupAfter p rest
  end.

Lemma deduplicateLoop_dedupAfter (rest : Polygon) :
  forall (kept : Polygon) (p : Point) (fuel : nat),
    (length rest <= fuel)%nat ->
    deduplicateLoop fuel (length kept + 1) (kept ++ p :: rest)
    = kept ++ p :: dedupAfter p rest.
Proof.
  induction rest as [| q rest IH]; intros kept p fuel Hfuel.
  - destruct fuel as [| fuel]; [reflexivity |].
    cbn [deduplicateLoop dedupAfter]. rewrite length_app. cbn [length].
    destruct (Nat.ltb_spec (length kept + 1) (length kept + 1)); [lia | reflexivity].
  - destruct fuel as [| fuel]; [simpl in Hfuel; lia |].
    cbn [deduplicateLoop dedupAfter]. rewrite length_app. cbn [length].
    destruct (Nat.ltb_spec (length kept + 1) (length kept + S (S (length rest)))); [| lia].
    assert (E1 : nth_error (kept ++ p :: q :: rest) (length kept + 1) = Some q).
    { rewrite nth_error_app2 by lia.
      replace (length kept + 1 - length kept)%nat with 1%nat by lia. reflexivity. }
    assert (E2 : nth_error (kept ++ p :: q :: rest) (length kept + 1 - 1) = Some p).
    { rewrite nth_error_app2 by lia.
      replace (length kept + 1 - 1 - length kept)%nat with 0%nat by lia. reflexivity. }
    rewrite E1, E2. destruct (pointsEqual q p).
    + assert (E : splice (Z.of_nat (length kept + 1)) 1 [] (kept ++ p :: q :: rest)
                  = kept ++ p :: rest).
      { rewrite splice_nat by (rewrite length_app; simpl; lia).
        rewrite firstn_app, skipn_app.
        rewrite firstn_all2, skipn_all2 by lia.
        replace (length kept + 1 - length kept)%nat with 1%nat by lia.
        replace (length kept + 1 + 1 - length kept)%nat with 2%nat by lia.
        simpl. rewrite <- app_assoc. reflexivity. }
      rewrite E. apply IH. simpl in Hfuel. lia.
    + replace (S (length kept + 1)) with (length (kept ++ [p]) + 1)%nat
        by (rewrite length_app; simpl; lia).
      replace (kept ++ p :: q :: rest) with ((kept ++ [p]) ++ q :: rest)
        by (rewrite <- app_assoc; reflexivity).
      rewrite IH by (simpl in Hfuel; lia). rewrite <- app_assoc. reflexivity.
Qed.

(** The loop, given turns enough, leaves the deduplicated polygon. *)
Lemma deduplicateLoop_deduplicate (polygon : Polygon) (fuel : nat) :
  (length polygon <= fuel)%nat -> deduplicateLoop fuel 1 polygon = deduplicate polygon.
Proof.
  intro H. destruct polygon as [| p rest].
  - destruct fuel; reflexivity.
  - apply (deduplicateLoop_dedupAfter rest [] p fuel). simpl in H. lia.
Qed.

Lemma dedupAfter_incl (l : Polygon) : forall p q, In q (dedupAfter p l) -> In q l.
Proof.
  induction l as [| x l IH]; intros p q H; simpl in *; [assumption |].
  destruct (pointsEqual x p).
  - right. eapply IH, H.
  - destruct H as [-> | H]; [now left | right; eapply IH, H].
Qed.

Lemma deduplicate_incl (l : Polygon) : incl (deduplicate l) l.
Proof.
  destruct l as [| p l]; intros q H; simpl in *; [assumption |].
  destruct H as [-> | H]; [now left | right; eapply dedupAfter_incl, H].
Qed.

Lemma deduplicate_Forall (P : Point -> Prop) (l : Polygon) :
  Forall P l -> Forall P (deduplicate l).
Proof.
  rewrite !Forall_forall. intros H q Hq. apply H, deduplicate_incl, Hq.
Qed.

Lemma dedupAfter_length (l : Polygon) : forall p, (length (dedupAfter p l) <= length l)%nat.
Proof.
  induction l as [| x l IH]; intro p; simpl; [lia |].
  destruct (pointsEqual x p); simpl; [specialize (IH p) | specialize (IH x)]; lia.
Qed.

Lemma deduplicate_length (l : Polygon) : (length (deduplicate l) <= length l)%nat.
Proof.
  destruct l as [| p l]; simpl; [lia |]. pose proof (dedupAfter_length l p). lia.
Qed.

Lemma dedupAfter_idempotent (l : Polygon) :
  forall p, dedupAfter p (dedupAfter p l) = dedupAfter p l.
Proof.
  induction l as [| x l IH]; intro p; simpl; [reflexivity |].
  destruct (pointsEqual x p) eqn:E; [apply IH |].
  simpl. rewrite E, IH. reflexivity.
Qed.

Lemma deduplicate_idempotent (l : Polygon) : deduplicate (deduplicate l) = deduplicate l.
Proof.
  destruct l as [| p l]; simpl; [reflexivity |]. now rewrite dedupAfter_idempotent.
Qed.

(** Every point of a polygon has its like in the deduplicated polygon. *)
Definition covers (l l' : Polygon) : Prop :=
  forall p, In p l -> exists q, In q l' /\ samePoint p q.

Lemma dedupAfter_covers (l : Polygon) :
  forall p q, In q l -> samePoint q p \/ exists r, In r (dedupAfter p l) /\ samePoint q r.
Proof.
  induction l as [| x l IH]; intros p q H; simpl in *; [contradiction |].
  destruct (pointsEqual x p) eqn:E.
  - destruct H as [-> | H]; [left; now apply pointsEqual_iff | now apply IH].
  - destruct H as [-> | H].
    + right. exists q. split; [now left | apply samePoint_refl].
    + right. destruct (IH x q H) as [S | (r & Hr & S)].
      * exists x. split; [now left | assumption].
      * exists r. split; [now right | assumption].
Qed.

Lemma deduplicate_covers (l : Polygon) : covers l (deduplicate l).
Proof.
  destruct l as [| p l]; intros q H; simpl in *; [contradiction |].
  destruct H as [-> | H].
  - exists q. split; [now left | apply samePoint_refl].
  - destruct (dedupAfter_covers l p q H) as [S | (r & Hr & S)].
    + exists p. split; [now left | assumption].
    + exists r. split; [now right | assumption].
Qed.

(** The polygon [checkPolygon] goes on with after the loop. *)
Definition normalize (polygon : Polygon) : Polygon := deduplicate (roundPolygon polygon).

Definition closed (polygon : Polygon) : bool :=
  match polygon with
  | [] => false
  | first :: _ => pointsEqual first (last polygon first)
  end.

(** The checks that follow the deduplication. *)
Definition checkNormalized (newPolygon : Polygon) (minSize : Q) : Completion Polygon :=
  match newPolygon with
  | [] => Throw (TypeError NotIterable)
  | first :: _ =>
      if (length newPolygon <? 3 + (if closed newPolygon then 1 else 0))%nat then
        Throw (InvalidPolygonError TooFewPoints)
      else if ((POLYGON_MAX_POINTS + 1 <? length newPolygon)%nat
               || ((length newPolygon =? POLYGON_MAX_POINTS + 1)%nat
                   && negb (pointsEqual first (nth POLYGON_MAX_POINTS newPolygon first))))%bool then
        Throw (InvalidPolygonError TooManyPoints)
      else
        let (width, height) := getSize newPolygon in
        if (Extremum_ltb height minSize || Extremum_ltb width minSize)%bool then
          Throw (InvalidPolygonError TooSmall)
        else Return newPolygon
  end.

Lemma checkFinitePolygon_unfold (polygon : Polygon) (minSize : Q) :
  checkFinitePolygon polygon minSize =
  if hasNegativeCoordinate (roundPolygon polygon)
  then Throw (InvalidPolygonError NegativeCoordinates)
  else checkNormalized (normalize polygon) minSize.
Proof.
  unfold checkFinitePolygon, checkNormalized, normalize, closed.
  destruct (hasNegativeCoordinate (roundPolygon polygon)); [reflexivity |].
  cbv zeta. rewrite deduplicateLoop_deduplicate by lia.
  destruct (deduplicate (roundPolygon polygon)); reflexivity.
Qed.

Lemma checkPoints_rawPolygon (polygon : Polygon) :
  forall index, checkPoints index (rawPolygon polygon) = Return polygon.
Proof.
  induction polygon as [| [x y] l IH]; intro index; simpl; [reflexivity |].
  rewrite IH. reflexivity.
Qed.

Lemma checkPolygon_rawPolygon (polygon : Polygon) (minSize : Q) :
  checkPolygon (rawPolygon polygon) minSize = checkFinitePolygon polygon minSize.
Proof. unfold checkPolygon. rewrite checkPoints_rawPolygon. reflexivity. Qed.

Lemma checkNormalized_result (newPolygon result : Polygon) (minSize : Q) :
  checkNormalized newPolygon minSize = Return result -> result = newPolygon.
Proof.
  unfold checkNormalized. destruct newPolygon as [| first rest]; [discriminate |].
  destruct (_ <? _)%nat; [discriminate |].
  destruct (_ || _)%bool; [discriminate |].
  destruct (getSize (first :: rest)) as [width height].
  destruct (_ || _)%bool; [discriminate |]. congruence.
Qed.

Lemma hasNegativeCoordinate_false (polygon : Polygon) :
  hasNegativeCoordinate polygon = false <->
  Forall (fun p => 0 <= fst p /\ 0 <= snd p) polygon.
Proof.
  unfold hasNegativeCoordinate. induction polygon as [| p l IH]; simpl.
  - split; [constructor | reflexivity].
  - rewrite orb_false_iff, orb_false_iff, !Qlt_bool_false_iff, IH. split.
    + intros [[H1 H2] H3]. constructor; tauto.
    + intro H. inversion H; subst. tauto.
Qed.

(** A polygon [checkPolygon] returned is returned as it is when checked
    again. *)
Lemma checkFinitePolygon_idempotent (polygon result : Polygon) (minSize : Q) :
  checkFinitePolygon polygon minSize = Return result ->
  checkFinitePolygon result minSize = Return result.
Proof.
  intro H. rewrite checkFinitePolygon_unfold in H.
  destruct (hasNegativeCoordinate (roundPolygon polygon)) eqn:Hneg; [discriminate |].
  pose proof (checkNormalized_result _ _ _ H) as E. subst result.
  assert (Hint : Forall integral (normalize polygon)).
  { apply deduplicate_Forall, roundPolygon_integral. }
  rewrite checkFinitePolygon_unfold, (roundPolygon_fixed _ Hint).
  assert (Hneg' : hasNegativeCoordinate (normalize polygon) = false).
  { apply hasNegativeCoordinate_false, deduplicate_Forall.
    apply hasNegativeCoordinate_false, Hneg. }
  rewrite Hneg'. unfold normalize at 1.
  rewrite (roundPolygon_fixed _ Hint). unfold normalize at 1.
  rewrite deduplicate_idempotent. exact H.
Qed.

(** ** Extrema and sizes *)

Definition isMax (xs : list Q) (m : Q) : Prop :=
  (forall x, In x xs -> x <= m) /\ exists x, In x xs /\ x == m.

Definition isMin (xs : list Q) (m : Q) : Prop :=
  (forall x, In x xs -> m <= x) /\ exists x, In x xs /\ x == m.

Lemma fold_Qmax_isMax (rest : list Q) : forall x, isMax (x :: rest) (fold_left Qmax rest x).
Proof.
  induction rest as [| a rest IH]; intro x; simpl.
  - split; [intros y [<- | []]; lra | exists x; split; [now left | reflexivity]].
  - destruct (IH (Qmax x a)) as [Hub (y & Hy & Ey)]. split.
    + intros z [<- | [<- | Hz]].
      * pose proof (Hub _ (or_introl eq_refl)). pose proof (Q.le_max_l x a). lra.
      * pose proof (Hub _ (or_introl eq_refl)). pose proof (Q.le_max_r x a). lra.
      * apply Hub. now right.
    + destruct Hy as [<- | Hy].
      * destruct (Q.max_spec x a) as [[_ E] | [_ E]].
        -- exists a. split; [right; now left | now rewrite <- Ey, E].
        -- exists x. split; [now left | now rewrite <- Ey, E].
      * exists y. split; [right; now right | assumption].
Qed.

Lemma fold_Qmin_isMin (rest : list Q) : forall x, isMin (x :: rest) (fold_left Qmin rest x).
Proof.
  induction rest as [| a rest IH]; intro x; simpl.
  - split; [intros y [<- | []]; lra | exists x; split; [now left | reflexivity]].
  - destruct (IH (Qmin x a)) as [Hlb (y & Hy & Ey)]. split.
    + intros z [<- | [<- | Hz]].
      * pose proof (Hlb _ (or_introl eq_refl)). pose proof (Q.le_min_l x a). lra.
      * pose proof (Hlb _ (or_introl eq_refl)). pose proof (Q.le_min_r x a). lra.
      * apply Hlb. now right.
    + destruct Hy as [<- | Hy].
      * destruct (Q.min_spec x a) as [[_ E] | [_ E]].
        -- exists x. split; [now left | now rewrite <- Ey, E].
        -- exists a. split; [right; now left | now rewrite <- Ey, E].
      * exists y. split; [right; now right | assumption].
Qed.

Lemma Math_max_isMax (xs : list Q) (m : Q) : Math_max xs = Value m -> isMax xs m.
Proof.
  destruct xs as [| x rest]; simpl; [discriminate |].
  intro H. injection H as <-. apply fold_Qmax_isMax.
Qed.

Lemma Math_min_isMin (xs : list Q) (m : Q) : Math_min xs = Value m -> isMin xs m.
Proof.
  destruct xs as [| x rest]; simpl; [discriminate |].
  intro H. injection H as <-. apply fold_Qmin_isMin.
Qed.

(** Two arrays holding the same values, up to [==]. *)
Definition sameValues (xs ys : list Q) : Prop :=
  (forall x, In x xs -> exists y, In y ys /\ x == y) /\
  (forall y, In y ys -> exists x, In x xs /\ y == x).

Lemma isMax_sameValues (xs ys : list Q) (m m' : Q) :
  sameValues xs ys -> isMax xs m -> isMax ys m' -> m == m'.
Proof.
  intros [H1 H2] [Hub (x & Hx & Ex)] [Hub' (y & Hy & Ey)].
  destruct (H1 x Hx) as (y' & Hy' & E1). destruct (H2 y Hy) as (x' & Hx' & E2).
  pose proof (Hub' y' Hy'). pose proof (Hub x' Hx'). lra.
Qed.

Lemma isMin_sameValues (xs ys : list Q) (m m' : Q) :
  sameValues xs ys -> isMin xs m -> isMin ys m' -> m == m'.
Proof.
  intros [H1 H2] [Hlb (x & Hx & Ex)] [Hlb' (y & Hy & Ey)].
  destruct (H1 x Hx) as (y' & Hy' & E1). destruct (H2 y Hy) as (x' & Hx' & E2).
  pose proof (Hlb' y' Hy'). pose proof (Hlb x' Hx'). lra.
Qed.

Lemma covers_fst (l l' : Polygon) :
  covers l l' -> covers l' l -> sameValues (map fst l) (map fst l').
Proof.
  intros H1 H2. split; intros x Hx; apply in_map_iff in Hx as (p & <- & Hp).
  - destruct (H1 p Hp) as (q & Hq & [E _]). exists (fst q). split; [now apply in_map | exact E].
  - destruct (H2 p Hp) as (q & Hq & [E _]). exists (fst q). split; [now apply in_map | exact E].
Qed.

Lemma covers_snd (l l' : Polygon) :
  covers l l' -> covers l' l -> sameValues (map snd l) (map snd l').
Proof.
  intros H1 H2. split; intros x Hx; apply in_map_iff in Hx as (p & <- & Hp).
  - destruct (H1 p Hp) as (q & Hq & [_ E]). exists (snd q). split; [now apply in_map | exact E].
  - destruct (H2 p Hp) as (q & Hq & [_ E]). exists (snd q). split; [now apply in_map | exact E].
Qed.

(** The size of a polygon that has a point. *)
Lemma getSize_cons (p : Point) (l : Polygon) :
  exists minX maxX minY maxY,
    getSize (p :: l) = (Value (maxX - minX), Value (maxY - minY)) /\
    isMin (map fst (p :: l)) minX /\ isMax (map fst (p :: l)) maxX /\
    isMin (map snd (p :: l)) minY /\ isMax (map snd (p :: l)) maxY.
Proof.
  exists (fold_left Qmin (map fst l) (fst p)), (fold_left Qmax (map fst l) (fst p)),
         (fold_left Qmin (map snd l) (snd p)), (fold_left Qmax (map snd l) (snd p)).
  split; [reflexivity |].
  repeat split; first [apply fold_Qmin_isMin | apply fold_Qmax_isMax].
Qed.

(** Polygons with the same points, up to the values of the coordinates,
    have the same size. *)
Lemma getSize_covers (l l' : Polygon) (w h : Q) :
  covers l l' -> covers l' l -> l' <> [] ->
  getSize l = (Value w, Value h) ->
  exists w' h', getSize l' = (Value w', Value h') /\ w' == w /\ h' == h.
Proof.
  intros H1 H2 Hne Hsize.
  destruct l' as [| q l']; [congruence |].
  destruct l as [| p l].
  { destruct (H2 q (or_introl eq_refl)) as (? & [] & _). }
  destruct (getSize_cons p l) as (minX & maxX & minY & maxY & E & A1 & A2 & A3 & A4).
  destruct (getSize_cons q l') as (minX' & maxX' & minY' & maxY' & E' & B1 & B2 & B3 & B4).
  rewrite E in Hsize. injection Hsize as Hw Hh.
  exists (maxX' - minX'), (maxY' - minY'). split; [exact E' |].
  pose proof (covers_fst _ _ H1 H2) as Sx. pose proof (covers_snd _ _ H1 H2) as Sy.
  pose proof (isMin_sameValues _ _ _ _ Sx A1 B1).
  pose proof (isMax_sameValues _ _ _ _ Sx A2 B2).
  pose proof (isMin_sameValues _ _ _ _ Sy A3 B3).
  pose proof (isMax_sameValues _ _ _ _ Sy A4 B4).
  rewrite <- Hw, <- Hh. split; lra.
Qed.

(** A number that is an integer. *)
Definition isIntegerValue (x : Q) : Prop := exists n : Z, x == inject_Z n.

Lemma Math_round_isIntegerValue (x : Q) : isIntegerValue x -> Math_round x == x.
Proof.
  intros [n E]. rewrite (Math_round_integer x n E). symmetry. exact E.
Qed.

Definition integerPoint (p : Point) : Prop :=
  isIntegerValue (fst p) /\ isIntegerValue (snd p).

Lemma roundPoint_samePoint (p : Point) : integerPoint p -> samePoint (roundPoint p) p.
Proof.
  intros [H1 H2]. split; simpl; now apply Math_round_isIntegerValue.
Qed.

Lemma normalize_covers (polygon : Polygon) :
  Forall integerPoint polygon -> covers polygon (normalize polygon).
Proof.
  intros H p Hp.
  destruct (deduplicate_covers (roundPolygon polygon) (roundPoint p)) as (q & Hq & S).
  { unfold roundPolygon. apply (in_map roundPoint), Hp. }
  exists q. split; [exact Hq |].
  eapply samePoint_trans; [| exact S].
  apply samePoint_sym, roundPoint_samePoint.
  rewrite Forall_forall in H. now apply H.
Qed.

Lemma normalize_covered (polygon : Polygon) :
  Forall integerPoint polygon -> covers (normalize polygon) polygon.
Proof.
  intros H q Hq. apply deduplicate_incl in Hq.
  unfold roundPolygon in Hq. apply in_map_iff in Hq as (p & <- & Hp).
  exists p. split; [exact Hp |].
  apply (roundPoint_samePoint p). rewrite Forall_forall in H. now apply H.
Qed.

Lemma normalize_nil (polygon : Polygon) : normalize polygon = [] -> polygon = [].
Proof. destruct polygon; [reflexivity | discriminate]. Qed.

(** The number of distinct points of a polygon as [checkPolygon] and
    [config.js] count them: consecutive points that differ once rounded, a
    last point that closes the polygon not counted. *)
Definition distinctPoints (polygon : Polygon) : nat :=
  let newPolygon := normalize polygon in
  (length newPolygon - (if closed newPolygon then 1 else 0))%nat.

Lemma nth_last {A : Type} (l : list A) (d : A) (n : nat) :
  length l = S n -> nth n l d = last l d.
Proof.
  revert n. induction l as [| a l IH]; intros n H; [discriminate |].
  destruct l as [| b l].
  - simpl in H. injection H as <-. reflexivity.
  - destruct n as [| n]; [discriminate |].
    simpl in H. injection H as H.
    change (nth n (b :: l) d = last (b :: l) d). apply IH. simpl. now f_equal.
Qed.

(** [checkNormalized] in terms of the count of distinct points. *)
Lemma checkNormalized_spec (newPolygon : Polygon) (minSize : Q) :
  newPolygon <> [] ->
  let count := (length newPolygon - (if closed newPolygon then 1 else 0))%nat in
  checkNormalized newPolygon minSize =
  if (count <? 3)%nat then Throw (InvalidPolygonError TooFewPoints)
  else if (POLYGON_MAX_POINTS <? count)%nat then Throw (InvalidPolygonError TooManyPoints)
  else let (width, height) := getSize newPolygon in
       if (Extremum_ltb height minSize || Extremum_ltb width minSize)%bool
       then Throw (InvalidPolygonError TooSmall)
       else Return newPolygon.
Proof.
  intros Hne count. destruct newPolygon as [| first rest]; [congruence |].
  unfold checkNormalized.
  assert (Hlen : (1 <= length (first :: rest))%nat) by (simpl; lia).
  set (n := length (first :: rest)) in *.
  assert (Hc : closed (first :: rest) = pointsEqual first (last (first :: rest) first))
    by reflexivity.
  destruct (closed (first :: rest)) eqn:Ec.
  - assert (E1 : (n <? 3 + 1)%nat = (count <? 3)%nat).
    { subst count. destruct (Nat.ltb_spec n (3 + 1)), (Nat.ltb_spec (n - 1) 3); lia || reflexivity. }
    rewrite E1. destruct (count <? 3)%nat; [reflexivity |].
    assert (E2 : ((POLYGON_MAX_POINTS + 1 <? n)%nat
                  || ((n =? POLYGON_MAX_POINTS + 1)%nat
                      && negb (pointsEqual first (nth POLYGON_MAX_POINTS (first :: rest) first))))%bool
                 = (POLYGON_MAX_POINTS <? count)%nat).
    { subst count.
      destruct (Nat.eqb_spec n (POLYGON_MAX_POINTS + 1)) as [E | E].
      - rewrite (nth_last (first :: rest) first POLYGON_MAX_POINTS) by (fold n; lia).
        rewrite <- Hc. simpl negb. rewrite andb_false_r, orb_false_r.
        destruct (Nat.ltb_spec (POLYGON_MAX_POINTS + 1) n),
                 (Nat.ltb_spec POLYGON_MAX_POINTS (n - 1)); lia || reflexivity.
      - rewrite andb_false_l, orb_false_r.
        destruct (Nat.ltb_spec (POLYGON_MAX_POINTS + 1) n),
                 (Nat.ltb_spec POLYGON_MAX_POINTS (n - 1)); lia || reflexivity. }
    rewrite E2. reflexivity.
  - assert (E1 : (n <? 3 + 0)%nat = (count <? 3)%nat).
    { subst count. destruct (Nat.ltb_spec n (3 + 0)), (Nat.ltb_spec (n - 0) 3); lia || reflexivity. }
    rewrite E1. destruct (count <? 3)%nat; [reflexivity |].
    assert (E2 : ((POLYGON_MAX_POINTS + 1 <? n)%nat
                  || ((n =? POLYGON_MAX_POINTS + 1)%nat
                      && negb (pointsEqual first (nth POLYGON_MAX_POINTS (first :: rest) first))))%bool
                 = (POLYGON_MAX_POINTS <? count)%nat).
    { subst count.
      destruct (Nat.eqb_spec n (POLYGON_MAX_POINTS + 1)) as [E | E].
      - rewrite (nth_last (first :: rest) first POLYGON_MAX_POINTS) by (fold n; lia).
        rewrite <- Hc. simpl negb. rewrite andb_true_r.
        destruct (Nat.ltb_spec (POLYGON_MAX_POINTS + 1) n),
                 (Nat.ltb_spec POLYGON_MAX_POINTS (n - 0)); simpl; lia || reflexivity.
      - rewrite andb_false_l, orb_false_r.
        destruct (Nat.ltb_spec (POLYGON_MAX_POINTS + 1) n),
                 (Nat.ltb_spec POLYGON_MAX_POINTS (n - 0)); lia || reflexivity. }
    rewrite E2. reflexivity.
Qed.

(** ** [checkPolygon] on valid polygons *)

(** Three points of the polygon that differ from one another. *)
Definition threeDistinctPoints (polygon : Polygon) : Prop :=
  exists a b c,
    In a polygon /\ In b polygon /\ In c polygon /\
    pointsEqual a b = false /\ pointsEqual a c = false /\ pointsEqual b c = false.

Lemma three_covered_length (l : Polygon) (a b c : Point) :
  covers [a; b; c] l ->
  pointsEqual a b = false -> pointsEqual a c = false -> pointsEqual b c = false ->
  (3 <= length l)%nat.
Proof.
  intros Hc Hab Hac Hbc.
  destruct (Hc a) as (a' & Ha & Sa); [simpl; tauto |].
  destruct (Hc b) as (b' & Hb & Sb); [simpl; tauto |].
  destruct (Hc c) as (c' & Hc' & Sc); [simpl; tauto |].
  assert (Hab' : a' <> b').
  { intros ->. apply pointsEqual_false_iff in Hab. apply Hab.
    eapply samePoint_trans; [exact Sa | apply samePoint_sym, Sb]. }
  assert (Hac' : a' <> c').
  { intros ->. apply pointsEqual_false_iff in Hac. apply Hac.
    eapply samePoint_trans; [exact Sa | apply samePoint_sym, Sc]. }
  assert (Hbc' : b' <> c').
  { intros ->. apply pointsEqual_false_iff in Hbc. apply Hbc.
    eapply samePoint_trans; [exact Sb | apply samePoint_sym, Sc]. }
  change 3%nat with (length [a'; b'; c']).
  apply NoDup_incl_length.
  - repeat constructor; simpl; intuition congruence.
  - intros x [<- | [<- | [<- | []]]]; assumption.
Qed.

Lemma covers_trans (l1 l2 l3 : Polygon) : covers l1 l2 -> covers l2 l3 -> covers l1 l3.
Proof.
  intros H1 H2 p Hp. destruct (H1 p Hp) as (q & Hq & S1).
  destruct (H2 q Hq) as (r & Hr & S2). exists r. split; [exact Hr |].
  eapply samePoint_trans; eassumption.
Qed.

(** In a closed polygon of two points or more the last point can go: the
    first one stands for it. *)
Lemma closed_covers_removelast (first second : Point) (rest : Polygon) :
  closed (first :: second :: rest) = true ->
  covers (first :: second :: rest) (removelast (first :: second :: rest)).
Proof.
  intros Hc p Hp. set (l := first :: second :: rest) in *.
  assert (Hne : l <> []) by discriminate.
  pose proof (app_removelast_last first Hne) as E.
  rewrite E in Hp. apply in_app_or in Hp as [Hp | [<- | []]].
  - exists p. split; [exact Hp | apply samePoint_refl].
  - exists first. split.
    + subst l. simpl. now left.
    + apply samePoint_sym. apply pointsEqual_iff. exact Hc.
Qed.

Lemma threeDistinctPoints_count (polygon : Polygon) :
  Forall integerPoint polygon -> threeDistinctPoints polygon ->
  (3 <= distinctPoints polygon)%nat.
Proof.
  intros Hint (a & b & c & Ha & Hb & Hc & Hab & Hac & Hbc).
  assert (Hcov : covers [a; b; c] (normalize polygon)).
  { intros p [<- | [<- | [<- | []]]]; now apply normalize_covers. }
  pose proof (three_covered_length _ _ _ _ Hcov Hab Hac Hbc) as Hlen.
  unfold distinctPoints. cbv zeta.
  destruct (closed (normalize polygon)) eqn:Ec; [| lia].
  destruct (normalize polygon) as [| first [| second rest]] eqn:En;
    [simpl in Hlen; lia | simpl in Hlen; lia |].
  pose proof (closed_covers_removelast _ _ _ Ec) as Hcov'.
  pose proof (three_covered_length _ _ _ _ (covers_trans _ _ _ Hcov Hcov') Hab Hac Hbc) as Hlen'.
  assert (E : length (first :: second :: rest)
              = S (length (removelast (first :: second :: rest)))).
  { rewrite (app_removelast_last first (l := first :: second :: rest)) at 1 by discriminate.
    rewrite length_app. simpl. lia. }
  rewrite E. lia.
Qed.

(** [checkPolygon] succeeds on a polygon with non-negative integer
    coordinates, between 3 and 163 distinct points and a size of [minSize]
    at least, and returns its normal form. *)
Lemma checkFinitePolygon_valid (polygon : Polygon) (minSize w h : Q) :
  Forall (fun p => integerPoint p /\ 0 <= fst p /\ 0 <= snd p) polygon ->
  (3 <= distinctPoints polygon)%nat ->
  (distinctPoints polygon <= POLYGON_MAX_POINTS)%nat ->
  getSize polygon = (Value w, Value h) -> minSize <= w -> minSize <= h ->
  checkFinitePolygon polygon minSize = Return (normalize polygon).
Proof.
  intros Hall Hmin Hmax Hsize Hw Hh.
  assert (Hint : Forall integerPoint polygon).
  { eapply Forall_impl; [| exact Hall]. simpl. tauto. }
  rewrite checkFinitePolygon_unfold.
  assert (Hneg : hasNegativeCoordinate (roundPolygon polygon) = false).
  { apply hasNegativeCoordinate_false. unfold roundPolygon.
    apply Forall_forall. intros q Hq. apply in_map_iff in Hq as (p & <- & Hp).
    rewrite Forall_forall in Hall. destruct (Hall p Hp) as (_ & H1 & H2). simpl.
    split; apply Math_round_nonneg; lra. }
  rewrite Hneg.
  assert (Hne : normalize polygon <> []).
  { intro E. unfold distinctPoints in Hmin. rewrite E in Hmin. simpl in Hmin. lia. }
  rewrite (checkNormalized_spec _ minSize Hne). cbv zeta.
  fold (distinctPoints polygon).
  destruct (Nat.ltb_spec (distinctPoints polygon) 3); [lia |].
  destruct (Nat.ltb_spec POLYGON_MAX_POINTS (distinctPoints polygon)); [lia |].
  destruct (getSize_covers polygon (normalize polygon) w h
              (normalize_covers _ Hint) (normalize_covered _ Hint) Hne Hsize)
    as (w' & h' & E & Ew & Eh).
  rewrite E. simpl.
  assert (Fh : Qlt_bool h' minSize = false) by (apply Qlt_bool_false_iff; lra).
  assert (Fw : Qlt_bool w' minSize = false) by (apply Qlt_bool_false_iff; lra).
  rewrite Fh, Fw. reflexivity.
Qed.

(** The 165 points [(0,0), (1,1), ..., (164,164)]. *)
Definition diagonal165 : Polygon :=
  map (fun i => (inject_Z (Z.of_nat i), inject_Z (Z.of_nat i))) (seq 0 165).

(** C4, as stated, fails: a polygon with 165 distinct points, non-negative
    integer coordinates and a bounding box of 164 by 164 is refused for
    having more than 163 distinct points. *)
Lemma checkPolygon_rejects_diagonal165 :
  Forall (fun p => integerPoint p /\ 0 <= fst p /\ 0 <= snd p) diagonal165 /\
  threeDistinctPoints diagonal165 /\
  (exists w h, getSize diagonal165 = (Value w, Value h)
               /\ POLYGON_MIN_SIZE <= w /\ POLYGON_MIN_SIZE <= h) /\
  checkPolygon (rawPolygon diagonal165) POLYGON_MIN_SIZE
  = Throw (InvalidPolygonError TooManyPoints).
Proof.
  split; [| split; [| split]].
  - apply Forall_forall. intros p Hp. unfold diagonal165 in Hp.
    apply in_map_iff in Hp as (i & <- & _). simpl.
    repeat split; try (eexists; reflexivity);
      change 0 with (inject_Z 0); rewrite <- Zle_Qle; lia.
  - exists (0, 0), (1, 1), (2, 2).
    repeat split; try reflexivity; unfold diagonal165; simpl; tauto.
  - exists 164, 164. split; [vm_compute; reflexivity |].
    split; unfold POLYGON_MIN_SIZE; lra.
  - vm_compute. reflexivity.
Qed.

(** C4 (amended with the upper bound on the number of points): for every
    polygon with at least 3 distinct points, at most 163 distinct points as
    [checkPolygon] counts them (164 points when the last equals the first),
    non-negative integer coordinates and a bounding width and height of at
    least [minSize], [checkPolygon] succeeds, and checking its result again
    returns the same result. *)
Theorem checkPolygon_valid_idempotent (polygon : Polygon) (minSize w h : Q) :
  threeDistinctPoints polygon ->
  (distinctPoints polygon <= POLYGON_MAX_POINTS)%nat ->
  Forall (fun p => integerPoint p /\ 0 <= fst p /\ 0 <= snd p) polygon ->
  getSize polygon = (Value w, Value h) -> minSize <= w -> minSize <= h ->
  exists result,
    checkPolygon (rawPolygon polygon) minSize = Return result /\
    checkPolygon (rawPolygon result) minSize = Return result.
Proof.
  intros H3 Hmax Hall Hsize Hw Hh.
  assert (Hint : Forall integerPoint polygon).
  { eapply Forall_impl; [| exact Hall]. simpl. tauto. }
  pose proof (threeDistinctPoints_count _ Hint H3) as Hmin.
  pose proof (checkFinitePolygon_valid _ _ _ _ Hall Hmin Hmax Hsize Hw Hh) as E.
  exists (normalize polygon). rewrite !checkPolygon_rawPolygon.
  split; [exact E | exact (checkFinitePolygon_idempotent _ _ _ E)].
Qed.

Definition square10 : Polygon := [(0, 0); (10, 0); (10, 10); (0, 10)].

Lemma checkPolygon_valid_idempotent_witness :
  exists result,
    checkPolygon (rawPolygon square10) POLYGON_MIN_SIZE = Return result /\
    checkPolygon (rawPolygon result) POLYGON_MIN_SIZE = Return result.
Proof.
  apply (checkPolygon_valid_idempotent square10 POLYGON_MIN_SIZE 10 10).
  - exists (0, 0), (10, 0), (10, 10). unfold square10. simpl.
    repeat split; tauto || reflexivity.
  - vm_compute. lia.
  - unfold square10. repeat constructor; simpl;
      try (eexists; reflexivity); lra.
  - vm_compute. reflexivity.
  - unfold POLYGON_MIN_SIZE. lra.
  - unfold POLYGON_MIN_SIZE. lra.
Defined.

(** ** [checkPolygon]: what fails, and how *)

Lemma checkFinitePolygon_cases (polygon : Polygon) (minSize : Q) :
  match checkFinitePolygon polygon minSize with
  | Return result =>
      result = normalize polygon /\
      hasNegativeCoordinate (roundPolygon polygon) = false /\
      (3 <= distinctPoints polygon <= POLYGON_MAX_POINTS)%nat /\
      (let (width, height) := getSize result in
       (Extremum_ltb height minSize || Extremum_ltb width minSize)%bool = false)
  | Throw (TypeError NotIterable) => polygon = []
  | Throw (InvalidPolygonError NegativeCoordinates) =>
      hasNegativeCoordinate (roundPolygon polygon) = true
  | Throw (InvalidPolygonError TooFewPoints) =>
      hasNegativeCoordinate (roundPolygon polygon) = false /\
      polygon <> [] /\ (distinctPoints polygon < 3)%nat
  | Throw (InvalidPolygonError TooManyPoints) =>
      hasNegativeCoordinate (roundPolygon polygon) = false /\
      (POLYGON_MAX_POINTS < distinctPoints polygon)%nat
  | Throw (InvalidPolygonError TooSmall) =>
      hasNegativeCoordinate (roundPolygon polygon) = false /\
      (3 <= distinctPoints polygon <= POLYGON_MAX_POINTS)%nat /\
      (let (width, height) := getSize (normalize polygon) in
       (Extremum_ltb height minSize || Extremum_ltb width minSize)%bool = true)
  | Throw _ => False
  end.
Proof.
  rewrite checkFinitePolygon_unfold.
  destruct (hasNegativeCoordinate (roundPolygon polygon)) eqn:Hneg; [reflexivity |].
  destruct (normalize polygon) as [| first rest] eqn:En.
  { simpl. now apply normalize_nil. }
  assert (Hne : first :: rest <> []) by discriminate.
  rewrite (checkNormalized_spec _ minSize Hne). cbv zeta.
  assert (Ec : (length (first :: rest) - (if closed (first :: rest) then 1 else 0))%nat
               = distinctPoints polygon).
  { unfold distinctPoints. rewrite En. reflexivity. }
  rewrite Ec.
  destruct (Nat.ltb_spec (distinctPoints polygon) 3).
  { repeat split; [| assumption]. intros ->. discriminate. }
  destruct (Nat.ltb_spec POLYGON_MAX_POINTS (distinctPoints polygon)).
  { split; [reflexivity | assumption]. }
  destruct (getSize (first :: rest)) as [width height] eqn:Es.
  destruct (Extremum_ltb height minSize || Extremum_ltb width minSize)%bool eqn:Esmall.
  - repeat split; assumption.
  - rewrite Es. repeat split; assumption.
Qed.

Definition finitePair (point : list Number) : Prop :=
  exists x y, point = [Finite x; Finite y].

Lemma finitePair_dec (point : list Number) : {finitePair point} + {~ finitePair point}.
Proof.
  destruct point as [| [x | | |] [| [y | | |] [| z rest]]];
    try (right; intros (? & ? & ?); discriminate).
  left. exists x, y. reflexivity.
Defined.

Lemma checkPoints_cons (index : nat) (point : list Number) (rest : RawPolygon) :
  checkPoints index (point :: rest) =
  match point with
  | [Finite x; Finite y] =>
      match checkPoints (S index) rest with
      | Return points => Return ((x, y) :: points)
      | Throw e => Throw e
      end
  | _ => Throw (TypeError (NotAFinitePair index))
  end.
Proof. reflexivity. Qed.

Lemma checkPoints_not_pair (index : nat) (point : list Number) (rest : RawPolygon) :
  ~ finitePair point ->
  checkPoints index (point :: rest) = Throw (TypeError (NotAFinitePair index)).
Proof.
  intro H. rewrite checkPoints_cons.
  destruct point as [| [x | | |] [| [y | | |] [| z tail]]]; try reflexivity.
  exfalso. apply H. exists x, y. reflexivity.
Qed.

(** The first loop fails exactly at the first point that is not a pair of
    finite numbers. *)
Lemma checkPoints_cases (polygon : RawPolygon) :
  forall index,
    match checkPoints index polygon with
    | Return points => polygon = rawPolygon points
    | Throw e =>
        exists k point,
          e = TypeError (NotAFinitePair (index + k)) /\
          nth_error polygon k = Some point /\ ~ finitePair point
    end.
Proof.
  induction polygon as [| point rest IH]; intro index; [reflexivity |].
  destruct (finitePair_dec point) as [(x & y & ->) | Hn].
  - rewrite checkPoints_cons. specialize (IH (S index)).
    destruct (checkPoints (S index) rest) as [points | e].
    + simpl. now rewrite IH.
    + destruct IH as (k & p & -> & Hk & Hp). exists (S k), p.
      repeat split; [f_equal; f_equal; lia | assumption | assumption].
  - rewrite (checkPoints_not_pair _ _ _ Hn). exists 0%nat, point.
    repeat split; [f_equal; f_equal; lia | assumption].
Qed.

(** C6, as stated, fails: a point that is not finite raises a [TypeError],
    which is no [InvalidPolygonError]. *)
Lemma checkPolygon_NaN_is_TypeError :
  checkPolygon [[Finite 0; Finite 0]; [NaN; Finite 0]; [Finite 5; Finite 5]] POLYGON_MIN_SIZE
  = Throw (TypeError (NotAFinitePair 1)) /\
  forall reason, TypeError (NotAFinitePair 1) <> InvalidPolygonError reason.
Proof. split; [reflexivity | discriminate]. Qed.

(** C6 (amended): on a polygon that has a point at least, a failure of
    [checkPolygon] is a [TypeError] when a point is not an array of two
    finite numbers (the error names the first such point); every other
    failure is an [InvalidPolygonError] whose reason tells the rule that
    failed: a negative coordinate once rounded, fewer than 3 distinct
    points, more than 163, or a width or height below [minSize], in this
    order. *)
Theorem checkPolygon_failure_classes (polygon : RawPolygon) (minSize : Q) :
  polygon <> [] ->
  match checkPolygon polygon minSize with
  | Return result =>
      exists points, polygon = rawPolygon points /\ result = normalize points
  | Throw (TypeError (NotAFinitePair index)) =>
      exists point, nth_error polygon index = Some point /\ ~ finitePair point
  | Throw (InvalidPolygonError reason) =>
      exists points,
        polygon = rawPolygon points /\
        match reason with
        | NegativeCoordinates => hasNegativeCoordinate (roundPolygon points) = true
        | TooFewPoints =>
            hasNegativeCoordinate (roundPolygon points) = false /\
            (distinctPoints points < 3)%nat
        | TooManyPoints =>
            hasNegativeCoordinate (roundPolygon points) = false /\
            (POLYGON_MAX_POINTS < distinctPoints points)%nat
        | TooSmall =>
            hasNegativeCoordinate (roundPolygon points) = false /\
            (3 <= distinctPoints points <= POLYGON_MAX_POINTS)%nat /\
            (let (width, height) := getSize (normalize points) in
             (Extremum_ltb height minSize || Extremum_ltb width minSize)%bool = true)
        end
  | Throw _ => False
  end.
Proof.
  intro Hpoints.
  unfold checkPolygon. pose proof (checkPoints_cases polygon 0) as Hp.
  destruct (checkPoints 0 polygon) as [points | e].
  - pose proof (checkFinitePolygon_cases points minSize) as Hc.
    destruct (checkFinitePolygon points minSize) as [result | [[] | [] | |]];
      try contradiction.
    + exists points. tauto.
    + apply Hpoints. subst points. exact Hp.
    + exists points. tauto.
    + exists points. tauto.
    + exists points. tauto.
    + exists points. tauto.
  - destruct Hp as (k & point & -> & Hk & Hn). exists point. tauto.
Qed.

Lemma checkPolygon_failure_classes_witness :
  (exists point,
     nth_error [[Finite 0; Finite 0]; [NaN; Finite 0]; [Finite 5; Finite 5]] 1 = Some point /\
     ~ finitePair point) /\
  (exists points,
     [[Finite 0; Finite 0]; [Finite 5; Finite 5]] = rawPolygon points /\
     hasNegativeCoordinate (roundPolygon points) = false /\
     (distinctPoints points < 3)%nat).
Proof.
  split.
  - apply (checkPolygon_failure_classes
             [[Finite 0; Finite 0]; [NaN; Finite 0]; [Finite 5; Finite 5]] POLYGON_MIN_SIZE).
    discriminate.
  - apply (checkPolygon_failure_classes
             [[Finite 0; Finite 0]; [Finite 5; Finite 5]] POLYGON_MIN_SIZE).
    discriminate.
Defined.

(** Points that differ pairwise. *)
Definition pairwiseDistinct (polygon : Polygon) : Prop :=
  ForallOrdPairs (fun p q => pointsEqual p q = false) polygon.

Fixpoint allDistinct (polygon : Polygon) : bool :=
  match polygon with
  | [] => true
  | p :: rest => forallb (fun q => negb (pointsEqual p q)) rest && allDistinct rest
  end.

Lemma allDistinct_pairwiseDistinct (polygon : Polygon) :
  allDistinct polygon = true -> pairwiseDistinct polygon.
Proof.
  induction polygon as [| p rest IH]; intro H; [constructor |].
  simpl in H. apply andb_true_iff in H as [H1 H2].
  constructor; [| now apply IH].
  rewrite forallb_forall in H1. apply Forall_forall. intros q Hq.
  apply negb_true_iff. now apply H1.
Qed.

Lemma pairwiseDistinct_dedupAfter (rest : Polygon) :
  forall p, pairwiseDistinct (p :: rest) -> dedupAfter p rest = rest.
Proof.
  induction rest as [| q rest IH]; intros p H; [reflexivity |].
  inversion H as [| ? ? Hp Hrest]; subst. simpl.
  assert (E : pointsEqual q p = false).
  { inversion Hp as [| ? ? Hpq _]; subst. apply pointsEqual_false_iff.
    apply pointsEqual_false_iff in Hpq. intro S. apply Hpq, samePoint_sym, S. }
  rewrite E. f_equal. now apply IH.
Qed.

Lemma pairwiseDistinct_deduplicate (polygon : Polygon) :
  pairwiseDistinct polygon -> deduplicate polygon = polygon.
Proof.
  destruct polygon as [| p rest]; intro H; [reflexivity |].
  simpl. f_equal. now apply pairwiseDistinct_dedupAfter.
Qed.

Lemma checkFinitePolygon_too_many (polygon : Polygon) (minSize : Q) :
  (POLYGON_MAX_POINTS < distinctPoints polygon)%nat ->
  exists e, checkFinitePolygon polygon minSize = Throw e.
Proof.
  intro H. pose proof (checkFinitePolygon_cases polygon minSize) as Hc.
  destruct (checkFinitePolygon polygon minSize) as [result | e]; [| eauto].
  destruct Hc as (_ & _ & Hcount & _). lia.
Qed.

Lemma Math_round_comp (x y : Q) : x == y -> Math_round x = Math_round y.
Proof. intro H. unfold Math_round. f_equal. apply Qfloor_comp. now rewrite H. Qed.

(** Rounding the points of a polygon widens none of its dimensions by a
    full pixel or more when the dimension is a whole number: here, a
    polygon of width 1 is of width 1 at most once rounded. *)
Lemma rounded_extent (xs ys : list Q) (lo hi lo' hi' : Q) :
  isMin xs lo -> isMax xs hi -> hi - lo == 1 ->
  (forall y, In y ys -> exists x, In x xs /\ y = Math_round x) ->
  isMin ys lo' -> isMax ys hi' -> hi' - lo' <= 1.
Proof.
  intros [Hlo _] [Hhi _] Hw Hys [_ (a & Ha & Ea)] [_ (b & Hb & Eb)].
  destruct (Hys a Ha) as (x & Hx & ->). destruct (Hys b Hb) as (x' & Hx' & ->).
  pose proof (Math_round_monotone _ _ (Hlo x Hx)) as L.
  pose proof (Math_round_monotone _ _ (Hhi x' Hx')) as U.
  assert (E : hi == lo + 1) by lra.
  rewrite (Math_round_comp _ _ E) in U.
  pose proof (Math_round_succ lo). lra.
Qed.

Lemma checkFinitePolygon_unit_box (polygon : Polygon) (w h : Q) :
  getSize polygon = (Value w, Value h) -> w == 1 ->
  exists e, checkFinitePolygon polygon 2 = Throw e.
Proof.
  intros Hsize Hw. pose proof (checkFinitePolygon_cases polygon 2) as Hc.
  destruct (checkFinitePolygon polygon 2) as [result | e]; [| eauto]. exfalso.
  destruct Hc as (-> & _ & _ & Hs).
  destruct polygon as [| p l]; [discriminate |].
  destruct (normalize (p :: l)) as [| q l'] eqn:En; [discriminate |].
  destruct (getSize_cons p l) as (minX & maxX & minY & maxY & E & A1 & A2 & _).
  destruct (getSize_cons q l') as (minX' & maxX' & minY' & maxY' & E' & B1 & B2 & _).
  rewrite E in Hsize. injection Hsize as Hw' _.
  rewrite E' in Hs. simpl in Hs. apply orb_false_iff in Hs as [_ Hs].
  apply Qlt_bool_false_iff in Hs.
  assert (Hle : maxX' - minX' <= 1).
  { apply (rounded_extent (map fst (p :: l)) (map fst (q :: l')) minX maxX); try assumption.
    - rewrite Hw'. exact Hw.
    - intros y Hy. apply in_map_iff in Hy as (n & <- & Hn).
      rewrite <- En in Hn. apply deduplicate_incl in Hn.
      unfold roundPolygon in Hn. apply in_map_iff in Hn as (r & <- & Hr).
      exists (fst r). split; [now apply in_map | reflexivity]. }
  lra.
Qed.

Lemma checkPoints_NaN (polygon : RawPolygon) (point : list Number) :
  In point polygon -> In NaN point ->
  forall index, exists k, checkPoints index polygon = Throw (TypeError (NotAFinitePair k)).
Proof.
  intros Hin Hnan index. pose proof (checkPoints_cases polygon index) as Hc.
  destruct (checkPoints index polygon) as [points | e].
  - exfalso. subst polygon. unfold rawPolygon in Hin.
    apply in_map_iff in Hin as (p & <- & _).
    destruct Hnan as [H | [H | []]]; discriminate.
  - destruct Hc as (k & ? & -> & _). eauto.
Qed.

(** 162 points less than half a pixel apart, then three corners of a
    square: 165 distinct points. *)
Definition subpixel165 : Polygon :=
  map (fun i => (Z.of_nat i # 1000, 0)) (seq 0 162) ++ [(10, 0); (10, 10); (0, 10)].

(** C5, as stated, fails for "any input with 165 distinct points": the
    points of this input are 165 and differ pairwise, yet rounding merges
    the first 162 and the polygon is accepted. *)
Lemma checkPolygon_accepts_subpixel165 :
  length subpixel165 = 165%nat /\
  pairwiseDistinct subpixel165 /\
  checkPolygon (rawPolygon subpixel165) POLYGON_MIN_SIZE
  = Return [(0, 0); (10, 0); (10, 10); (0, 10)].
Proof.
  split; [reflexivity |]. split.
  - apply allDistinct_pairwiseDistinct. vm_compute. reflexivity.
  - vm_compute. reflexivity.
Qed.

(** C5 (amended in its second case): [checkPolygon] fails on the two
    points [[0,0],[5,5]]; on any 165 points that still differ pairwise once
    rounded, as 165 distinct points with integer coordinates do; on any
    polygon whose bounding box is 1 by 1 when [minSize] is 2; and on any
    polygon with a point that holds [NaN].  A polygon it returns has at most
    164 points, and 164 only when the last one equals the first. *)
Theorem checkPolygon_failures :
  (forall minSize,
     checkPolygon [[Finite 0; Finite 0]; [Finite 5; Finite 5]] minSize
     = Throw (InvalidPolygonError TooFewPoints)) /\
  (forall polygon minSize,
     length polygon = 165%nat -> pairwiseDistinct (roundPolygon polygon) ->
     exists e, checkPolygon (rawPolygon polygon) minSize = Throw e) /\
  (forall polygon w h,
     getSize polygon = (Value w, Value h) -> w == 1 -> h == 1 ->
     exists e, checkPolygon (rawPolygon polygon) 2 = Throw e) /\
  (forall polygon point minSize,
     In point polygon -> In NaN point ->
     exists index, checkPolygon polygon minSize = Throw (TypeError (NotAFinitePair index))) /\
  (forall polygon minSize result,
     checkPolygon polygon minSize = Return result ->
     (length result <= POLYGON_MAX_POINTS + 1)%nat /\
     (length result = (POLYGON_MAX_POINTS + 1)%nat -> closed result = true)).
Proof.
  split; [| split; [| split; [| split]]].
  - intro minSize. reflexivity.
  - intros polygon minSize Hlen Hd. rewrite checkPolygon_rawPolygon.
    apply checkFinitePolygon_too_many.
    unfold distinctPoints, normalize. rewrite (pairwiseDistinct_deduplicate _ Hd).
    assert (E : length (roundPolygon polygon) = 165%nat)
      by (unfold roundPolygon; now rewrite length_map).
    rewrite E. unfold POLYGON_MAX_POINTS. destruct (closed (roundPolygon polygon)); lia.
  - intros polygon w h Hsize Hw _. rewrite checkPolygon_rawPolygon.
    eapply checkFinitePolygon_unit_box; eassumption.
  - intros polygon point minSize Hin Hnan. unfold checkPolygon.
    destruct (checkPoints_NaN polygon point Hin Hnan 0%nat) as (k & E).
    rewrite E. eauto.
  - intros polygon minSize result H. unfold checkPolygon in H.
    destruct (checkPoints 0 polygon) as [points | e]; [| discriminate].
    pose proof (checkFinitePolygon_cases points minSize) as Hc.
    rewrite H in Hc. destruct Hc as (-> & _ & Hcount & _).
    unfold distinctPoints in Hcount. cbv zeta in Hcount.
    destruct (closed (normalize points)); [split; [lia | reflexivity] |].
    split; [lia | intro; lia].
Qed.

Definition unitSquare : Polygon := [(3, 3); (4, 3); (4, 4); (3, 4)].

Lemma checkPolygon_failures_witness :
  (exists e, checkPolygon (rawPolygon diagonal165) POLYGON_MIN_SIZE = Throw e) /\
  (exists e, checkPolygon (rawPolygon unitSquare) 2 = Throw e) /\
  (exists index,
     checkPolygon [[Finite 0; Finite 0]; [Finite 9; NaN]; [Finite 9; Finite 9]] POLYGON_MIN_SIZE
     = Throw (TypeError (NotAFinitePair index))) /\
  ((length square10 <= POLYGON_MAX_POINTS + 1)%nat /\
   (length square10 = (POLYGON_MAX_POINTS + 1)%nat -> closed square10 = true)).
Proof.
  destruct checkPolygon_failures as (_ & H2 & H3 & H4 & H5).
  split; [| split; [| split]].
  - apply H2; [reflexivity |].
    apply allDistinct_pairwiseDistinct. vm_compute. reflexivity.
  - apply (H3 unitSquare 1 1); [vm_compute; reflexivity | reflexivity | reflexivity].
  - apply (H4 _ [Finite 9; NaN]); simpl; tauto.
  - apply (H5 (rawPolygon square10) POLYGON_MIN_SIZE). vm_compute. reflexivity.
Defined.

(** ** [checkPolygon] and coordinates just below zero *)

(** A coordinate in [[-0.5, 0)] written as the [0] it is rounded to. *)
Definition liftSmallNegative (x : Q) : Q :=
  if (Qle_bool (-(1 # 2)) x && Qlt_bool x 0)%bool then 0 else x.

Lemma Math_round_liftSmallNegative (x : Q) :
  Math_round (liftSmallNegative x) = Math_round x.
Proof.
  unfold liftSmallNegative.
  destruct (Qle_bool (- (1 # 2)) x && Qlt_bool x 0)%bool eqn:E; [| reflexivity].
  apply andb_true_iff in E as [E1 E2].
  apply Qle_bool_iff in E1. apply Qlt_bool_iff in E2.
  rewrite (Math_round_small_negative x E1 E2). reflexivity.
Qed.

Lemma hasNegativeCoordinate_true (polygon : Polygon) :
  hasNegativeCoordinate polygon = true <->
  Exists (fun p => fst p < 0 \/ snd p < 0) polygon.
Proof.
  unfold hasNegativeCoordinate. rewrite existsb_exists, Exists_exists.
  split; intros (p & Hp & H); exists p; (split; [exact Hp |]).
  - apply orb_true_iff in H. rewrite !Qlt_bool_iff in H. exact H.
  - apply orb_true_iff. rewrite !Qlt_bool_iff. exact H.
Qed.

Lemma Math_round_negative (x : Q) : x < -(1 # 2) <-> Math_round x < 0.
Proof.
  pose proof (Math_round_nonneg x) as H. split; intro A.
  - apply Qnot_le_lt. intro B. apply H in B. lra.
  - apply Qnot_le_lt. intro B. apply H in B. lra.
Qed.

(** C10: rounding comes before the check for negative coordinates, so a
    coordinate in [[-0.5, 0)] is rounded to 0 and the polygon is checked as
    if the coordinate were 0: it is never refused for a negative
    coordinate when every coordinate is at least -0.5.  A coordinate below
    -0.5 raises the negative-coordinate error. *)
Theorem checkPolygon_small_negative_coordinates (polygon : Polygon) (minSize : Q) :
  (forall x, -(1 # 2) <= x -> x < 0 -> Math_round x = 0) /\
  checkPolygon (rawPolygon polygon) minSize
  = checkPolygon
      (rawPolygon (map (fun p => (liftSmallNegative (fst p), liftSmallNegative (snd p))) polygon))
      minSize /\
  (Forall (fun p => -(1 # 2) <= fst p /\ -(1 # 2) <= snd p) polygon ->
   checkPolygon (rawPolygon polygon) minSize <> Throw (InvalidPolygonError NegativeCoordinates)) /\
  (Exists (fun p => fst p < -(1 # 2) \/ snd p < -(1 # 2)) polygon ->
   checkPolygon (rawPolygon polygon) minSize = Throw (InvalidPolygonError NegativeCoordinates)).
Proof.
  split; [exact Math_round_small_negative |]. split; [| split].
  - rewrite !checkPolygon_rawPolygon, !checkFinitePolygon_unfold.
    assert (E : roundPolygon
                  (map (fun p => (liftSmallNegative (fst p), liftSmallNegative (snd p))) polygon)
                = roundPolygon polygon).
    { unfold roundPolygon. rewrite map_map. apply map_ext. intro p. simpl.
      now rewrite !Math_round_liftSmallNegative. }
    unfold normalize. rewrite E. reflexivity.
  - intros Hall E. rewrite checkPolygon_rawPolygon in E.
    pose proof (checkFinitePolygon_cases polygon minSize) as Hc.
    rewrite E in Hc. apply hasNegativeCoordinate_true in Hc.
    apply Exists_exists in Hc as (q & Hq & Hneg).
    unfold roundPolygon in Hq. apply in_map_iff in Hq as (p & <- & Hp).
    rewrite Forall_forall in Hall. destruct (Hall p Hp) as [H1 H2].
    apply Math_round_nonneg in H1, H2. simpl in Hneg. lra.
  - intro Hex. rewrite checkPolygon_rawPolygon, checkFinitePolygon_unfold.
    assert (E : hasNegativeCoordinate (roundPolygon polygon) = true).
    { apply hasNegativeCoordinate_true. apply Exists_exists in Hex as (p & Hp & H).
      apply Exists_exists. exists (roundPoint p).
      split; [unfold roundPolygon; now apply (in_map roundPoint) |].
      simpl. rewrite <- !Math_round_negative. exact H. }
    rewrite E. reflexivity.
Qed.

Lemma checkPolygon_small_negative_coordinates_witness :
  Math_round (-(1 # 2)) = 0 /\
  checkPolygon (rawPolygon [(-(1 # 2), 0); (10, -(1 # 4)); (10, 10); (0, 10)]) POLYGON_MIN_SIZE
  = Return square10 /\
  checkPolygon (rawPolygon [(-(6 # 10), 0); (10, 0); (10, 10); (0, 10)]) POLYGON_MIN_SIZE
  = Throw (InvalidPolygonError NegativeCoordinates).
Proof.
  split; [| split].
  - apply (checkPolygon_small_negative_coordinates [] 0); lra.
  - rewrite (proj1 (proj2 (checkPolygon_small_negative_coordinates _ _))).
    vm_compute. reflexivity.
  - apply (checkPolygon_small_negative_coordinates _ _).
    apply Exists_cons_hd. left. simpl. lra.
Defined.

(** ** [checkImageSize] *)

Lemma Number_div_finite (x y : Q) :
  ~ y == 0 -> Number_div (Finite x) (Finite y) = Finite (x / y).
Proof.
  intro H. simpl. destruct (Qeq_bool y 0) eqn:E; [| reflexivity].
  apply Qeq_bool_iff in E. contradiction.
Qed.

(** A ratio within the tolerance band. *)
Definition withinTolerance (ratio : Q) : Prop := (8 # 10) <= ratio /\ ratio <= (12 # 10).

Lemma outsideTolerance_false (ratio : Q) :
  (Number_ltb (Finite ratio) (Finite IMAGE_WARNING_RATIO)
   || Number_ltb (Finite (- IMAGE_WARNING_RATIO + 2)) (Finite ratio))%bool = false
  <-> withinTolerance ratio.
Proof.
  unfold withinTolerance, IMAGE_WARNING_RATIO. simpl.
  rewrite orb_false_iff, !Qlt_bool_false_iff. split; intros [H1 H2]; split; lra.
Qed.

(** The three ratios [checkImageSize] computes. *)
Definition imageRatios (imgWidth imgHeight expectedWidth expectedHeight : Q) : list Number :=
  [ Number_div (Finite imgWidth) (Finite expectedWidth);
    Number_div (Finite imgHeight) (Finite expectedHeight);
    Number_div (Finite (imgWidth * imgHeight)) (Finite (expectedWidth * expectedHeight)) ].

(** A ratio that is a number of the tolerance band. *)
Definition ratioWithin (ratio : Number) : Prop :=
  match ratio with
  | Finite q => withinTolerance q
  | _ => False
  end.

(** A ratio that is a number out of the tolerance band: below 0.8 or above
    1.2, the infinite ratios among them. *)
Definition ratioOutside (ratio : Number) : Prop :=
  match ratio with
  | Finite q => q < 8 # 10 \/ 12 # 10 < q
  | PosInfinity | NegInfinity => True
  | NaN => False
  end.

(** The test of [checkImageSize] on one ratio. *)
Definition outOfBand (ratio : Number) : bool :=
  (Number_ltb ratio (Finite IMAGE_WARNING_RATIO)
   || Number_ltb (Finite (- IMAGE_WARNING_RATIO + 2)) ratio)%bool.

Lemma outOfBand_true (ratio : Number) : outOfBand ratio = true <-> ratioOutside ratio.
Proof.
  unfold outOfBand, ratioOutside, IMAGE_WARNING_RATIO.
  destruct ratio as [q | | |]; simpl.
  - rewrite orb_true_iff, !Qlt_bool_iff. split; intros [H | H]; [left | right | left | right]; lra.
  - split; [discriminate | contradiction].
  - split; reflexivity.
  - split; reflexivity.
Qed.

Lemma outOfBand_false (ratio : Number) :
  outOfBand ratio = false <-> ratio = NaN \/ ratioWithin ratio.
Proof.
  destruct ratio as [q | | |].
  - unfold outOfBand. rewrite (outsideTolerance_false q). simpl.
    split; [now right | intros [H | H]; [discriminate H | exact H]].
  - split; [now left | reflexivity].
  - simpl. split; [discriminate | intros [H | H]; [discriminate H | contradiction]].
  - simpl. split; [discriminate | intros [H | H]; [discriminate H | contradiction]].
Qed.

Lemma checkImageSize_test (fractionToString : Q -> string) (LANGUAGE : Language)
    (imgWidth imgHeight expectedWidth expectedHeight : Q) (imageURL : string) :
  let size (w h : Q) :=
    (Number_toString fractionToString (Finite w) ++ "×"
     ++ Number_toString fractionToString (Finite h))%string in
  checkImageSize fractionToString LANGUAGE imgWidth imgHeight
    expectedWidth expectedHeight imageURL
  = if existsb outOfBand (imageRatios imgWidth imgHeight expectedWidth expectedHeight)
    then Throw (InvalidImageSizeError
                  (imageSizeError LANGUAGE (size imgWidth imgHeight)
                     (size expectedWidth expectedHeight) imageURL))
    else Return tt.
Proof. reflexivity. Qed.

(** A ratio is no number exactly when it is 0 divided by 0. *)
Lemma Number_div_NaN (x y : Q) :
  Number_div (Finite x) (Finite y) = NaN <-> x == 0 /\ y == 0.
Proof.
  simpl. destruct (Qeq_bool y 0) eqn:Ey.
  - apply Qeq_bool_iff in Ey. destruct (Qeq_bool x 0) eqn:Ex.
    + apply Qeq_bool_iff in Ex. tauto.
    + apply Qeq_bool_neq in Ex.
      destruct (Qlt_bool 0 x); split; try discriminate; tauto.
  - apply Qeq_bool_neq in Ey. split; [discriminate | tauto].
Qed.

(** C8, as stated, fails: an image 0 wide, checked against an expected
    width of 0, is accepted, though its width ratio and its area ratio, 0
    divided by 0, are no numbers of the band. *)
Lemma checkImageSize_accepts_undefined_ratio :
  checkImageSize (fun _ => "?"%string) En 0 100 0 100 "http://x/img" = Return tt /\
  nth_error (imageRatios 0 100 0 100) 0 = Some NaN /\
  ~ Forall ratioWithin (imageRatios 0 100 0 100).
Proof.
  split; [reflexivity | split; [reflexivity |]].
  intro H. inversion H as [| ratio rest Hratio _]. exact Hratio.
Qed.

(** C8 (amended): [checkImageSize] throws when one of the three ratios is
    a number out of [[0.8, 1.2]], an infinite ratio (an expected dimension
    of 0) among them, and returns when the three are numbers of the band;
    so, when no ratio is 0 divided by 0, it returns exactly when the width
    ratio, the height ratio and the area ratio all lie in the band.  What
    it throws is always an [InvalidImageSizeError] whose message is
    [TRANSLATIONS.imageSizeError] of the actual size, the expected size and
    the URL. *)
Theorem checkImageSize_tolerance (fractionToString : Q -> string) (LANGUAGE : Language)
    (imgWidth imgHeight expectedWidth expectedHeight : Q) (imageURL : string) :
  let result := checkImageSize fractionToString LANGUAGE imgWidth imgHeight
                  expectedWidth expectedHeight imageURL in
  let ratios := imageRatios imgWidth imgHeight expectedWidth expectedHeight in
  let size (w h : Q) :=
    (Number_toString fractionToString (Finite w) ++ "×"
     ++ Number_toString fractionToString (Finite h))%string in
  let mismatch :=
    Throw (InvalidImageSizeError
             (imageSizeError LANGUAGE (size imgWidth imgHeight)
                (size expectedWidth expectedHeight) imageURL)) in
  (Exists ratioOutside ratios -> result = mismatch) /\
  (Forall ratioWithin ratios -> result = Return tt) /\
  (~ In NaN ratios -> (result = Return tt <-> Forall ratioWithin ratios)) /\
  (In NaN ratios <->
   (imgWidth == 0 /\ expectedWidth == 0) \/ (imgHeight == 0 /\ expectedHeight == 0) \/
   (imgWidth * imgHeight == 0 /\ expectedWidth * expectedHeight == 0)) /\
  (result = Return tt \/ result = mismatch).
Proof.
  intros result ratios size mismatch.
  assert (Eresult : result = if existsb outOfBand ratios then mismatch else Return tt)
    by apply checkImageSize_test.
  assert (Hout : existsb outOfBand ratios = true <-> Exists ratioOutside ratios).
  { rewrite existsb_exists, Exists_exists.
    split; intros (ratio & Hin & H); exists ratio; (split; [exact Hin |]);
      now apply outOfBand_true. }
  assert (Hin : Forall ratioWithin ratios -> existsb outOfBand ratios = false).
  { intro Hall. destruct (existsb outOfBand ratios) eqn:E; [| reflexivity].
    apply existsb_exists in E as (ratio & Hratio & Htest).
    rewrite Forall_forall in Hall. specialize (Hall ratio Hratio).
    assert (Hfalse : outOfBand ratio = false) by (apply outOfBand_false; now right).
    congruence. }
  split; [| split; [| split; [| split]]].
  - intro H. apply Hout in H. now rewrite Eresult, H.
  - intro H. now rewrite Eresult, (Hin H).
  - intro Hnumbers. split.
    + intro Hreturn. rewrite Eresult in Hreturn.
      destruct (existsb outOfBand ratios) eqn:E; [discriminate Hreturn |].
      apply Forall_forall. intros ratio Hratio.
      assert (Hfalse : outOfBand ratio = false).
      { destruct (outOfBand ratio) eqn:Et; [| reflexivity].
        assert (existsb outOfBand ratios = true)
          by (apply existsb_exists; exists ratio; tauto).
        congruence. }
      apply outOfBand_false in Hfalse as [-> | Hwithin]; [contradiction | exact Hwithin].
    + intro H. now rewrite Eresult, (Hin H).
  - subst ratios. unfold imageRatios. cbn [In].
    rewrite <- !Number_div_NaN. intuition congruence.
  - rewrite Eresult. destruct (existsb outOfBand ratios); [now right | now left].
Qed.

Lemma checkImageSize_tolerance_witness :
  checkImageSize (fun _ => "?"%string) En 100 100 100 100 "http://x/img" = Return tt /\
  checkImageSize (fun _ => "?"%string) En 50 100 100 100 "http://x/img"
  = Throw (InvalidImageSizeError
             "The size of the provided image is 50×100, but 100×100 was expected. There may be an issue with the IIIF server at http://x/img.") /\
  checkImageSize (fun _ => "?"%string) En 100 20 100 0 "http://x/img"
  = Throw (InvalidImageSizeError
             "The size of the provided image is 100×20, but 100×0 was expected. There may be an issue with the IIIF server at http://x/img.").
Proof.
  split; [| split].
  - apply (proj1 (proj2 (checkImageSize_tolerance (fun _ => "?"%string) En
                             100 100 100 100 "http://x/img"))).
    repeat constructor; vm_compute; discriminate.
  - apply (proj1 (checkImageSize_tolerance (fun _ => "?"%string) En
                    50 100 100 100 "http://x/img")).
    apply Exists_cons_hd. left. vm_compute. reflexivity.
  - apply (proj1 (checkImageSize_tolerance (fun _ => "?"%string) En
                    100 20 100 0 "http://x/img")).
    apply Exists_cons_tl, Exists_cons_hd. exact I.
Defined.

(** ** [iiifUri] *)

Lemma append_assoc (a b c : string) : ((a ++ b) ++ c = a ++ (b ++ c))%string.
Proof. induction a as [| ch a IH]; simpl; [reflexivity | now rewrite IH]. Qed.

(** An image [iiifUri] accepts. *)
Definition validImage (image : Image) : Prop :=
  0 < imageWidth image /\ 0 < imageHeight image /\ imageUrl image <> ""%string.

Definition wholeImage (image : Image) : Box :=
  {| boxX := 0; boxY := 0; boxWidth := imageWidth image; boxHeight := imageHeight image |}.

(** The box the request is sized against: the whole image, or the bounding
    box of the polygon within the image. *)
Definition sourceBox (element : Element) (image : Image) : Box :=
  match elementPolygon element with
  | None => wholeImage image
  | Some polygon =>
      let minX := restrict (imageWidth image) (Math_min (map fst polygon)) in
      let minY := restrict (imageHeight image) (Math_min (map snd polygon)) in
      let maxX := restrict (imageWidth image) (Math_max (map fst polygon)) in
      let maxY := restrict (imageHeight image) (Math_max (map snd polygon)) in
      {| boxX := minX; boxY := minY; boxWidth := maxX - minX; boxHeight := maxY - minY |}
  end.

(** The bounding box covers the whole image. *)
Definition coversImage (image : Image) (box : Box) : Prop :=
  boxX box <= 0 /\ boxY box <= 0 /\
  imageWidth image <= boxWidth box /\ imageHeight image <= boxHeight box.

Definition baseUrl (image : Image) : string :=
  if endsWith (imageUrl image) "/" then imageUrl image else (imageUrl image ++ "/")%string.

(** A requested bound that is absent ([undefined], [null] or 0) or greater
    than the dimension of the box, and one that is absent or equal to it. *)
Definition absentOrAbove (bound : option Q) (dimension : Q) : Prop :=
  match bound with
  | None => True
  | Some b => b == 0 \/ dimension < b
  end.

Definition absentOrEqual (bound : option Q) (dimension : Q) : Prop :=
  match bound with
  | None => True
  | Some b => b == 0 \/ b == dimension
  end.

Section IiifUri.

Variable fractionToString : Q -> string.

(** The size clause [iiifResize] appends, for bounds that are [None] or
    not zero. *)
Definition sizeClause (box : Box) (width height : option Q) : string :=
  let scaled :=
    if xorb (Qlt_bool (boxWidth box) (toNumber width))
            (Qlt_bool (boxHeight box) (toNumber height)) then
      let ratio :=
        Number_max (Number_div (Finite (toNumber width)) (Finite (boxWidth box)))
                   (Number_div (Finite (toNumber height)) (Finite (boxHeight box))) in
      let rescale (bound : option Q) :=
        match bound with
        | Some q => Some (Number_round (Number_div (Finite q) ratio))
        | None => None
        end in
      (rescale width, rescale height)
    else (option_map Finite width, option_map Finite height) in
  let orInfinity (bound : option Number) :=
    match bound with Some n => n | None => PosInfinity end in
  if (Number_geb (orInfinity (fst scaled)) (Finite (boxWidth box))
      && Number_geb (orInfinity (snd scaled)) (Finite (boxHeight box)))%bool then "full"
  else
    let truthy (bound : option Number) :=
      match bound with Some n => Number_truthy n | None => false end in
    ((if (truthy (fst scaled) && truthy (snd scaled))%bool then "!" else "")
     ++ orEmpty fractionToString (fst scaled) ++ ","
     ++ orEmpty fractionToString (snd scaled))%string.

Lemma iiifResize_sizeClause (url : string) (box : Box) (width height : option Q) :
  iiifResize fractionToString url box width height
  = (url ++ "/" ++ sizeClause box width height ++ "/0/default.jpg")%string.
Proof.
  unfold iiifResize, sizeClause. cbv zeta.
  destruct (_ && _)%bool; [reflexivity |].
  rewrite !append_assoc. reflexivity.
Qed.

Lemma boundingBox_sourceBox (element : Element) (image : Image) (polygon : Polygon) :
  elementImage element = Some image -> validImage image ->
  elementPolygon element = Some polygon ->
  boundingBox element = Return (sourceBox element image).
Proof.
  intros Hi (Hw & Hh & _) Hp. unfold boundingBox, sourceBox. rewrite Hi, Hp.
  assert (E1 : Qle_bool (imageWidth image) 0 = false).
  { destruct (Qle_bool (imageWidth image) 0) eqn:E; [| reflexivity].
    apply Qle_bool_iff in E. lra. }
  assert (E2 : Qle_bool (imageHeight image) 0 = false).
  { destruct (Qle_bool (imageHeight image) 0) eqn:E; [| reflexivity].
    apply Qle_bool_iff in E. lra. }
  rewrite E1, E2. reflexivity.
Qed.

(** The region clause: [full], or the four numbers of the box. *)
Definition regionClause (element : Element) (image : Image) : string :=
  let box := sourceBox element image in
  match elementPolygon element with
  | None => "full"
  | Some _ =>
      if (Qle_bool (boxX box) 0 && Qle_bool (boxY box) 0
          && Qle_bool (imageWidth image) (boxWidth box)
          && Qle_bool (imageHeight image) (boxHeight box))%bool then "full"
      else String.concat ","
             (map (fun q => Number_toString fractionToString (Finite q))
                [boxX box; boxY box; boxWidth box; boxHeight box])
  end.

(** [iiifUri] puts together the URL of the image, a region clause and a
    size clause. *)
Lemma iiifUri_unfold (element : Element) (image : Image) (width height : option Q) :
  elementImage element = Some image -> validImage image ->
  iiifUri fractionToString element width height
  = Return (baseUrl image ++ regionClause element image ++ "/"
            ++ sizeClause (sourceBox element image) (orNull width) (orNull height)
            ++ "/0/default.jpg")%string.
Proof.
  intros Hi Hv. pose proof Hv as (Hw & Hh & Hu).
  unfold iiifUri. rewrite Hi.
  assert (E1 : Qle_bool (imageWidth image) 0 = false).
  { destruct (Qle_bool (imageWidth image) 0) eqn:E; [| reflexivity].
    apply Qle_bool_iff in E. lra. }
  assert (E2 : Qle_bool (imageHeight image) 0 = false).
  { destruct (Qle_bool (imageHeight image) 0) eqn:E; [| reflexivity].
    apply Qle_bool_iff in E. lra. }
  rewrite E1, E2. cbn [orb].
  apply String.eqb_neq in Hu. rewrite Hu.
  cbv zeta. fold (baseUrl image). unfold regionClause.
  destruct (elementPolygon element) as [polygon |] eqn:Hp.
  - rewrite (boundingBox_sourceBox element image polygon Hi Hv Hp).
    rewrite iiifResize_sizeClause.
    destruct (_ && _)%bool; now rewrite !append_assoc.
  - rewrite iiifResize_sizeClause. unfold sourceBox. rewrite Hp.
    now rewrite !append_assoc.
Qed.

End IiifUri.

Lemma orNull_cases (bound : option Q) :
  (orNull bound = None /\ (bound = None \/ exists q, bound = Some q /\ q == 0)) \/
  (exists q, orNull bound = Some q /\ bound = Some q /\ ~ q == 0).
Proof.
  destruct bound as [q |]; simpl; [| left; tauto].
  destruct (Qeq_bool q 0) eqn:E.
  - apply Qeq_bool_iff in E. left. split; [reflexivity | right; eauto].
  - right. exists q. repeat split. intro H. apply Qeq_bool_iff in H. congruence.
Qed.

Lemma Qlt_bool_true (a b : Q) : a < b -> Qlt_bool a b = true.
Proof. apply Qlt_bool_iff. Qed.

Lemma Qlt_bool_false (a b : Q) : b <= a -> Qlt_bool a b = false.
Proof. apply Qlt_bool_false_iff. Qed.

Lemma Qle_bool_true (a b : Q) : a <= b -> Qle_bool a b = true.
Proof. apply Qle_bool_iff. Qed.

Lemma Qeq_bool_false (a b : Q) : ~ a == b -> Qeq_bool a b = false.
Proof.
  intro H. destruct (Qeq_bool a b) eqn:E; [| reflexivity].
  apply Qeq_bool_iff in E. contradiction.
Qed.

(** A bound above the dimension of the box, alone or with nothing on the
    other side to compare with, is scaled down to the dimension itself. *)
Lemma rescale_to_dimension (w dimension other : Q) :
  0 < dimension -> dimension < w -> isIntegerValue dimension -> 0 < other ->
  exists n : Z,
    dimension == inject_Z n /\
    Number_round
      (Number_div (Finite w)
         (Number_max (Number_div (Finite w) (Finite dimension))
                     (Number_div (Finite 0) (Finite other))))
    = Finite (inject_Z n) /\
    Number_round
      (Number_div (Finite w)
         (Number_max (Number_div (Finite 0) (Finite other))
                     (Number_div (Finite w) (Finite dimension))))
    = Finite (inject_Z n).
Proof.
  intros Hd Hw [n Hn] Ho. exists n. split; [exact Hn |].
  assert (Hd0 : ~ dimension == 0) by lra.
  assert (Ho0 : ~ other == 0) by lra.
  rewrite !Number_div_finite by assumption. simpl Number_max.
  assert (Hr : 1 < w / dimension).
  { apply Qlt_shift_div_l; lra. }
  assert (Hz : 0 / other == 0) by (field; assumption).
  assert (E1 : Qmax (w / dimension) (0 / other) == w / dimension).
  { apply Q.max_l. lra. }
  assert (E2 : Qmax (0 / other) (w / dimension) == w / dimension).
  { apply Q.max_r. lra. }
  assert (N1 : ~ Qmax (w / dimension) (0 / other) == 0) by lra.
  assert (N2 : ~ Qmax (0 / other) (w / dimension) == 0) by lra.
  rewrite !Number_div_finite by assumption. simpl Number_round.
  assert (Hq : w / (w / dimension) == inject_Z n).
  { rewrite <- Hn. field. split; lra. }
  split; f_equal; apply Math_round_integer.
  - rewrite E1. exact Hq.
  - rewrite E2. exact Hq.
Qed.

Section IiifUriClauses.

Variable fractionToString : Q -> string.

Lemma sizeClause_full (box : Box) (width height : option Q) :
  0 < boxWidth box -> 0 < boxHeight box ->
  isIntegerValue (boxWidth box) -> isIntegerValue (boxHeight box) ->
  (absentOrAbove width (boxWidth box) /\ absentOrAbove height (boxHeight box)) \/
  (absentOrEqual width (boxWidth box) /\ absentOrEqual height (boxHeight box)) ->
  sizeClause fractionToString box (orNull width) (orNull height) = "full"%string.
Proof.
  intros Hbw Hbh Iw Ih Hcase. unfold sizeClause.
  destruct (orNull_cases width) as [[Ew Cw] | (w & Ew & -> & Nw)];
  destruct (orNull_cases height) as [[Eh Ch] | (h & Eh & -> & Nh)];
  rewrite Ew, Eh; simpl toNumber.
  - rewrite !Qlt_bool_false by lra. reflexivity.
  - destruct Hcase as [[_ [A | A]] | [_ [A | A]]]; try contradiction.
    + rewrite (Qlt_bool_false (boxWidth box) 0) by lra.
      rewrite (Qlt_bool_true (boxHeight box) h A). cbn [xorb fst snd].
      destruct (rescale_to_dimension h _ (boxWidth box) Hbh A Ih Hbw) as (n & En & _ & R).
      rewrite R. simpl Number_geb. rewrite Qle_bool_true by lra. reflexivity.
    + rewrite !Qlt_bool_false by lra. cbn [xorb fst snd option_map].
      simpl Number_geb. rewrite Qle_bool_true by lra. reflexivity.
  - destruct Hcase as [[[A | A] _] | [[A | A] _]]; try contradiction.
    + rewrite (Qlt_bool_false (boxHeight box) 0) by lra.
      rewrite (Qlt_bool_true (boxWidth box) w A). cbn [xorb fst snd].
      destruct (rescale_to_dimension w _ (boxHeight box) Hbw A Iw Hbh) as (n & En & R & _).
      rewrite R. simpl Number_geb. rewrite Qle_bool_true by lra. reflexivity.
    + rewrite !Qlt_bool_false by lra. cbn [xorb fst snd option_map].
      simpl Number_geb. rewrite Qle_bool_true by lra. reflexivity.
  - destruct Hcase as [[[A | A] [B | B]] | [[A | A] [B | B]]]; try contradiction.
    + rewrite !Qlt_bool_true by assumption. cbn [xorb fst snd option_map].
      simpl Number_geb. rewrite !Qle_bool_true by lra. reflexivity.
    + rewrite !Qlt_bool_false by lra. cbn [xorb fst snd option_map].
      simpl Number_geb. rewrite !Qle_bool_true by lra. reflexivity.
Qed.

Lemma sizeClause_within (box : Box) (w h : Q) :
  ~ w == 0 -> ~ h == 0 -> w <= boxWidth box -> h <= boxHeight box ->
  ~ (w == boxWidth box /\ h == boxHeight box) ->
  sizeClause fractionToString box (orNull (Some w)) (orNull (Some h))
  = ("!" ++ Number_toString fractionToString (Finite w) ++ ","
     ++ Number_toString fractionToString (Finite h))%string.
Proof.
  intros Nw Nh Hw Hh Hne. unfold sizeClause, orNull.
  rewrite !Qeq_bool_false by assumption. simpl toNumber.
  rewrite !Qlt_bool_false by assumption. cbn [xorb fst snd option_map].
  simpl Number_geb.
  assert (E : (Qle_bool (boxWidth box) w && Qle_bool (boxHeight box) h)%bool = false).
  { destruct (Qle_bool (boxWidth box) w) eqn:E1, (Qle_bool (boxHeight box) h) eqn:E2;
      try reflexivity.
    apply Qle_bool_iff in E1, E2. exfalso. apply Hne. split; lra. }
  rewrite E. simpl Number_truthy. rewrite !Qeq_bool_false by assumption. reflexivity.
Qed.

Lemma coversImage_iff (image : Image) (box : Box) :
  (Qle_bool (boxX box) 0 && Qle_bool (boxY box) 0
   && Qle_bool (imageWidth image) (boxWidth box)
   && Qle_bool (imageHeight image) (boxHeight box))%bool = true
  <-> coversImage image box.
Proof.
  unfold coversImage. rewrite !andb_true_iff, !Qle_bool_iff. tauto.
Qed.

(** C9, as stated, fails for the size clause: on a 100 by 100 image the
    bounds 100 and 200 both meet or exceed the source box, yet exactly one
    is greater than it, both are scaled down by 2 and the size clause is
    [!50,100], not [full]. *)
Lemma iiifUri_not_full_when_one_bound_equal :
  iiifUri (fun _ => "?"%string)
    {| elementImage := Some {| imageWidth := 100; imageHeight := 100;
                               imageUrl := "http://x/img" |};
       elementPolygon := None |}
    (Some 100) (Some 200)
  = Return "http://x/img/full/!50,100/0/default.jpg"%string.
Proof. vm_compute. reflexivity. Qed.

(** C9 (amended in its size clause): for an element with a valid image,
    [iiifUri] returns the URL of the image followed by a region clause, a
    size clause and [/0/default.jpg].  The region clause is [full] when the
    element has no polygon or when the bounding box of its polygon covers
    the whole image, and the four numbers [x,y,w,h] of the box otherwise.
    On a box with positive integer dimensions the size clause is [full]
    when every bound that is given is greater than the box, or when every
    bound that is given equals it; it is [!w,h], which asks for the aspect
    ratio to be kept, when both bounds are given, neither is greater than
    the box and they do not both equal it.  For a 100 by 100 image without
    polygon and a width of 50 the URI ends in [/full/50,/0/default.jpg]. *)
Theorem iiifUri_clauses :
  (forall element image width height,
     elementImage element = Some image -> validImage image ->
     let box := sourceBox element image in
     exists region size,
       iiifUri fractionToString element width height
       = Return (baseUrl image ++ region ++ "/" ++ size ++ "/0/default.jpg")%string /\
       (elementPolygon element = None \/ coversImage image box -> region = "full"%string) /\
       (elementPolygon element <> None -> ~ coversImage image box ->
        region = String.concat ","
                   (map (fun q => Number_toString fractionToString (Finite q))
                      [boxX box; boxY box; boxWidth box; boxHeight box])) /\
       (0 < boxWidth box -> 0 < boxHeight box ->
        isIntegerValue (boxWidth box) -> isIntegerValue (boxHeight box) ->
        (absentOrAbove width (boxWidth box) /\ absentOrAbove height (boxHeight box)) \/
        (absentOrEqual width (boxWidth box) /\ absentOrEqual height (boxHeight box)) ->
        size = "full"%string) /\
       (forall w h,
          width = Some w -> height = Some h -> ~ w == 0 -> ~ h == 0 ->
          w <= boxWidth box -> h <= boxHeight box ->
          ~ (w == boxWidth box /\ h == boxHeight box) ->
          size = ("!" ++ Number_toString fractionToString (Finite w) ++ ","
                  ++ Number_toString fractionToString (Finite h))%string)) /\
  (exists prefix,
     iiifUri fractionToString
       {| elementImage := Some {| imageWidth := 100; imageHeight := 100;
                                  imageUrl := "http://x/img" |};
          elementPolygon := None |}
       (Some 50) None
     = Return (prefix ++ "/full/50,/0/default.jpg")%string).
Proof.
  split.
  - intros element image width height Hi Hv box.
    exists (regionClause fractionToString element image),
           (sizeClause fractionToString box (orNull width) (orNull height)).
    split; [apply (iiifUri_unfold fractionToString element image width height Hi Hv) |].
    split; [| split; [| split]].
    + intros [Hp | Hc]; unfold regionClause; [now rewrite Hp |].
      destruct (elementPolygon element); [| reflexivity].
      apply coversImage_iff in Hc. fold box. now rewrite Hc.
    + intros Hp Hc. unfold regionClause.
      destruct (elementPolygon element); [| congruence]. fold box.
      destruct (Qle_bool (boxX box) 0 && Qle_bool (boxY box) 0
                && Qle_bool (imageWidth image) (boxWidth box)
                && Qle_bool (imageHeight image) (boxHeight box))%bool eqn:E;
        [| reflexivity].
      apply coversImage_iff in E. contradiction.
    + apply sizeClause_full.
    + intros w h -> -> Nw Nh Hw Hh Hne. now apply sizeClause_within.
  - exists "http://x/img"%string. reflexivity.
Qed.

End IiifUriClauses.

Definition page100 : Image :=
  {| imageWidth := 100; imageHeight := 100; imageUrl := "http://x/img" |}.

Lemma iiifUri_clauses_witness :
  iiifUri (fun _ => "?"%string)
    {| elementImage := Some page100;
       elementPolygon := Some [(10, 10); (50, 10); (50, 50); (10, 50)] |}
    (Some 20) (Some 30)
  = Return "http://x/img/10,10,40,40/!20,30/0/default.jpg"%string /\
  iiifUri (fun _ => "?"%string)
    {| elementImage := Some page100;
       elementPolygon := Some [(0, 0); (100, 0); (100, 100); (0, 100)] |}
    (Some 200) None
  = Return "http://x/img/full/full/0/default.jpg"%string.
Proof.
  assert (Hv : validImage page100).
  { unfold validImage, page100. simpl. repeat split; try lra. discriminate. }
  split.
  - destruct (proj1 (iiifUri_clauses (fun _ => "?"%string))
                {| elementImage := Some page100;
                   elementPolygon := Some [(10, 10); (50, 10); (50, 50); (10, 50)] |}
                page100 (Some 20) (Some 30) eq_refl Hv)
      as (region & size & E & _ & R & _ & S).
    assert (Er : region = "10,10,40,40"%string).
    { rewrite R; [vm_compute; reflexivity | discriminate |].
      intros (A & _). vm_compute in A. apply A. reflexivity. }
    assert (Es : size = "!20,30"%string).
    { rewrite (S 20 30); try reflexivity.
      - intro A. vm_compute in A. discriminate.
      - intro A. vm_compute in A. discriminate.
      - vm_compute. discriminate.
      - vm_compute. discriminate.
      - intros (A & _). vm_compute in A. discriminate. }
    rewrite E, Er, Es. reflexivity.
  - destruct (proj1 (iiifUri_clauses (fun _ => "?"%string))
                {| elementImage := Some page100;
                   elementPolygon := Some [(0, 0); (100, 0); (100, 100); (0, 100)] |}
                page100 (Some 200) None eq_refl Hv)
      as (region & size & E & R & _ & S & _).
    assert (Er : region = "full"%string).
    { apply R. right. vm_compute. repeat split; discriminate. }
    assert (Es : size = "full"%string).
    { apply S.
      - vm_compute. reflexivity.
      - vm_compute. reflexivity.
      - exists 100%Z. vm_compute. reflexivity.
      - exists 100%Z. vm_compute. reflexivity.
      - left. split; [right; vm_compute; reflexivity | exact I]. }
    rewrite E, Er, Es. reflexivity.
Defined.

(** ** The selection *)

Lemma Id_eqb_eq (a b : Id) : Id_eqb a b = true <-> a = b.
Proof.
  destruct a as [n | s], b as [m | t]; simpl.
  - rewrite Z.eqb_eq. split; congruence.
  - split; discriminate.
  - split; discriminate.
  - rewrite String.eqb_eq. split; congruence.
Qed.

Lemma Id_eqb_refl (a : Id) : Id_eqb a a = true.
Proof. now apply Id_eqb_eq. Qed.

Lemma Id_eqb_sym (a b : Id) : Id_eqb a b = Id_eqb b a.
Proof.
  destruct (Id_eqb a b) eqn:E1, (Id_eqb b a) eqn:E2; try reflexivity.
  - apply Id_eqb_eq in E1. subst. now rewrite Id_eqb_refl in E2.
  - apply Id_eqb_eq in E2. subst. now rewrite Id_eqb_refl in E1.
Qed.

(** An array of ids without the first occurrence of [id], the number of
    occurrences of [id], and the array without any. *)
Fixpoint removeFirst (id : Id) (ids : list Id) : list Id :=
  match ids with
  | [] => []
  | x :: rest => if Id_eqb x id then rest else x :: removeFirst id rest
  end.

Definition countId (id : Id) (ids : list Id) : nat := length (filter (Id_eqb id) ids).

Definition without (id : Id) (ids : list Id) : list Id :=
  filter (fun x => negb (Id_eqb id x)) ids.

Lemma indexOf_includes (id : Id) (ids : list Id) :
  includes id ids = true ->
  exists n, indexOf id ids = Z.of_nat n /\ (n < length ids)%nat /\
            firstn n ids ++ skipn (n + 1) ids = removeFirst id ids.
Proof.
  unfold includes. induction ids as [| x rest IH]; simpl; [discriminate |].
  rewrite (Id_eqb_sym id x). destruct (Id_eqb x id) eqn:E.
  - intros _. exists 0%nat. repeat split. lia.
  - simpl. intro H. destruct (IH H) as (n & En & Hn & Hr).
    exists (S n). rewrite En.
    destruct (Z.ltb_spec (Z.of_nat n) 0); [lia |].
    repeat split; [lia | lia |]. simpl. now rewrite Hr.
Qed.

Lemma splice_indexOf (id : Id) (ids : list Id) :
  includes id ids = true -> splice (indexOf id ids) 1 [] ids = removeFirst id ids.
Proof.
  intro H. destruct (indexOf_includes id ids H) as (n & -> & Hn & Hr).
  rewrite splice_nat by lia. simpl. exact Hr.
Qed.

Lemma includes_countId (id : Id) (ids : list Id) :
  includes id ids = true <-> (0 < countId id ids)%nat.
Proof.
  unfold includes, countId. induction ids as [| x rest IH]; simpl.
  - split; [discriminate | lia].
  - destruct (Id_eqb id x); simpl; [split; [lia | reflexivity] | exact IH].
Qed.

Lemma countId_removeFirst (id : Id) (ids : list Id) :
  includes id ids = true -> S (countId id (removeFirst id ids)) = countId id ids.
Proof.
  unfold includes, countId. induction ids as [| x rest IH]; simpl; [discriminate |].
  rewrite (Id_eqb_sym x id). destruct (Id_eqb id x) eqn:E; simpl.
  - reflexivity.
  - intro H. rewrite E. now apply IH.
Qed.

Lemma without_removeFirst (id : Id) (ids : list Id) :
  without id (removeFirst id ids) = without id ids.
Proof.
  unfold without. induction ids as [| x rest IH]; simpl; [reflexivity |].
  rewrite (Id_eqb_sym x id). destruct (Id_eqb id x) eqn:E; simpl.
  - reflexivity.
  - rewrite E. simpl. now rewrite IH.
Qed.

Lemma without_not_included (id : Id) (ids : list Id) :
  includes id ids = false -> without id ids = ids.
Proof.
  unfold includes, without. induction ids as [| x rest IH]; simpl; [reflexivity |].
  destruct (Id_eqb id x); simpl; [discriminate |].
  intro H. now rewrite IH.
Qed.

Lemma includes_without (id : Id) (ids : list Id) : includes id (without id ids) = false.
Proof.
  unfold includes, without. induction ids as [| x rest IH]; simpl; [reflexivity |].
  destruct (Id_eqb id x) eqn:E; simpl; [exact IH | now rewrite E].
Qed.

(** The state once every occurrence of [id] has left the selection: one
    [unselect-element] event was dispatched for each, and the edited
    element was dropped if it was the one unselected. *)
Definition unselected (id : Id) (s : State) : State :=
  if includes id (selected s) then
    mkState (mode s) (without id (selected s)) (highlighted s) (hovered s)
      (parsedElement s) (parsedChildren s)
      (if editedIs id s then None else editedElement s)
      (movedPointIndex s) (mouseDown s) (lastMousePosition s) (updatedPolygon s)
      (cancelled s) (viewPosition s) (tool s)
      (dispatched s ++ repeat (UnselectElement id) (countId id (selected s)))
  else s.

Lemma removeSelected_unselected (id : Id) (fuel : nat) :
  forall s, (countId id (selected s) <= fuel)%nat ->
            removeSelected fuel id true s = unselected id s.
Proof.
  induction fuel as [| fuel IH]; intros s Hfuel.
  - unfold unselected. destruct (includes id (selected s)) eqn:Hinc.
    + apply includes_countId in Hinc. lia.
    + simpl. rewrite Hinc. reflexivity.
  - unfold unselected. simpl removeSelected.
    destruct (includes id (selected s)) eqn:Hinc; [| reflexivity].
    cbn [negb orb andb].
    rewrite (splice_indexOf _ _ Hinc).
    pose proof (countId_removeFirst _ _ Hinc) as Hcount.
    rewrite IH by (simpl; lia).
    unfold unselected. destruct s. cbn [selected dispatchEvent setSelectedIds
      mode highlighted hovered parsedElement parsedChildren editedElement
      movedPointIndex mouseDown lastMousePosition updatedPolygon cancelled
      viewPosition tool dispatched] in *.
    destruct (includes id (removeFirst id selected0)) eqn:Hinc2.
    + unfold editedIs. cbn [editedElement setEditedElement].
      rewrite without_removeFirst, <- Hcount.
      destruct editedElement0 as [edited |]; cbn.
      * destruct (Id_eqb (regionId edited) id) eqn:Ee; cbn.
        -- rewrite <- app_assoc. reflexivity.
        -- rewrite Ee. rewrite <- app_assoc. reflexivity.
      * rewrite <- app_assoc. reflexivity.
    + unfold editedIs. cbn [editedElement setEditedElement].
      rewrite <- (without_removeFirst id selected0).
      rewrite (without_not_included _ _ Hinc2).
      assert (Hc : countId id selected0 = 1%nat).
      { destruct (countId id (removeFirst id selected0)) eqn:Ec; [lia |].
        assert (includes id (removeFirst id selected0) = true)
          by (apply includes_countId; lia). congruence. }
      rewrite Hc. cbn [repeat].
      destruct editedElement0 as [edited |]; cbn; [| reflexivity].
      destruct (Id_eqb (regionId edited) id); reflexivity.
Qed.

Lemma removeSelectedElement_unselected (id : Id) (s : State) :
  removeSelectedElement id true s = unselected id s.
Proof.
  unfold removeSelectedElement. apply removeSelected_unselected.
  unfold countId. apply filter_length_le.
Qed.

(** More fuel changes nothing: the deliveries stop by themselves. *)
Lemma removeSelected_enough_fuel (id : Id) (fuel : nat) (s : State) :
  (length (selected s) <= fuel)%nat ->
  removeSelected fuel id true s = removeSelectedElement id true s.
Proof.
  intro H. rewrite removeSelectedElement_unselected.
  apply removeSelected_unselected.
  pose proof (filter_length_le (Id_eqb id) (selected s)). unfold countId. lia.
Qed.

(** ** Deleting a region *)

(** The first region of the list with a given id. *)
Fixpoint findChild (id : Id) (children : list (option Region)) : option Region :=
  match children with
  | [] => None
  | Some element :: rest =>
      if Id_eqb (regionId element) id then Some element else findChild id rest
  | None :: rest => findChild id rest
  end.

Lemma findChildIndex_found (id : Id) (children : list (option Region)) :
  (0 <= findChildIndex id children)%Z ->
  exists index region,
    findChildIndex id children = Z.of_nat index /\
    (index < length children)%nat /\
    nth_error children index = Some (Some region) /\ regionId region = id.
Proof.
  induction children as [| child rest IH]; simpl; [lia |].
  destruct child as [element |].
  - destruct (Id_eqb (regionId element) id) eqn:E.
    + intros _. exists 0%nat, element. apply Id_eqb_eq in E. repeat split; [lia | assumption].
    + destruct (Z.ltb_spec (findChildIndex id rest) 0); [lia |]. intros _.
      destruct IH as (index & region & Ei & Hi & Hn & Hr); [lia |].
      exists (S index), region. rewrite Ei. repeat split; [lia | lia | assumption | assumption].
  - destruct (Z.ltb_spec (findChildIndex id rest) 0); [lia |]. intros _.
    destruct IH as (index & region & Ei & Hi & Hn & Hr); [lia |].
    exists (S index), region. rewrite Ei. repeat split; [lia | lia | assumption | assumption].
Qed.

Lemma findChild_without_slot (other : Id) (children : list (option Region)) :
  forall index region,
    nth_error children index = Some (Some region) -> regionId region <> other ->
    findChild other (firstn index children ++ skipn (S index) children)
    = findChild other children.
Proof.
  induction children as [| child rest IH]; intros index region Hn Hr.
  - destruct index; discriminate.
  - destruct index as [| index].
    + simpl in Hn. injection Hn as ->. simpl.
      destruct (Id_eqb (regionId region) other) eqn:E; [| reflexivity].
      apply Id_eqb_eq in E. contradiction.
    + simpl in Hn. cbn [firstn skipn app].
      destruct child as [element |]; cbn [findChild].
      * destruct (Id_eqb (regionId element) other); [reflexivity | eauto].
      * eauto.
Qed.

Lemma length_without_slot {A : Type} (l : list A) (index : nat) :
  (index < length l)%nat -> S (length (firstn index l ++ skipn (S index) l)) = length l.
Proof.
  intro H. rewrite length_app, length_firstn, length_skipn. lia.
Qed.

Definition regionN (n : Z) : Region :=
  {| regionId := NumberId n; regionPolygon := square10 |}.

(** The data of the component when it is created around a list of
    children, before any event. *)
Definition createdWith (children : list (option Region)) : State :=
  {| mode := DISPLAY_MODE; selected := []; highlighted := []; hovered := None;
     parsedElement := None; parsedChildren := children; editedElement := None;
     movedPointIndex := None; mouseDown := false; lastMousePosition := None;
     updatedPolygon := false; cancelled := false;
     viewPosition := {| viewX := 0; viewY := 0; viewApplied := false; viewRecenter := true |};
     tool := RECTANGLE_TOOL; dispatched := [] |}.

Definition fiveRegions : list (option Region) :=
  map (fun n => Some (regionN n)) [1; 2; 3; 4; 5]%Z.

(** Region 3 of five is selected and highlighted. *)
Definition region3Selected : State :=
  {| mode := SELECT_MODE; selected := [NumberId 3]; highlighted := [NumberId 3];
     hovered := None; parsedElement := None; parsedChildren := fiveRegions;
     editedElement := None; movedPointIndex := None; mouseDown := false;
     lastMousePosition := None; updatedPolygon := false; cancelled := false;
     viewPosition := {| viewX := 0; viewY := 0; viewApplied := false; viewRecenter := true |};
     tool := RECTANGLE_TOOL; dispatched := [] |}.

(** C1, as stated, fails: deleting region 3 of five splices its slot out.
    The list is one shorter, no slot is null, regions 4 and 5 move one
    index down, and the id stays in the highlighted ids. *)
Lemma delete_element_splices_region3 :
  let s' := onDeleteElement (NumberId 3) region3Selected in
  parsedChildren s' = map (fun n => Some (regionN n)) [1; 2; 4; 5]%Z /\
  length (parsedChildren s') = 4%nat /\
  nth_error (parsedChildren s') 2 = Some (Some (regionN 4)) /\
  highlighted s' = [NumberId 3].
Proof. repeat split. Qed.

Lemma unselected_fields (id : Id) (s : State) :
  parsedChildren (unselected id s) = parsedChildren s /\
  selected (unselected id s) = without id (selected s) /\
  highlighted (unselected id s) = highlighted s /\
  hovered (unselected id s) = hovered s /\
  editedElement (unselected id s)
  = (if (includes id (selected s) && editedIs id s)%bool then None else editedElement s).
Proof.
  unfold unselected. destruct (includes id (selected s)) eqn:E; cbn.
  - repeat split.
  - repeat split. symmetry. now apply without_not_included.
Qed.

Lemma dropEdited_fields (id : Id) (children : list (option Region)) (u : State) :
  let d := setParsedChildren children u in
  let t := if editedIs id d then setEditedElement None d else d in
  parsedChildren t = children /\ selected t = selected u /\
  highlighted t = highlighted u /\ hovered t = hovered u /\
  editedElement t = (if editedIs id u then None else editedElement u).
Proof.
  destruct u. unfold editedIs. cbn.
  destruct editedElement0 as [edited |]; cbn; [| repeat split].
  destruct (Id_eqb (regionId edited) id); cbn; repeat split.
Qed.

(** C1 (amended): deleting the id of a region of the list removes its slot
    from the list, which is one shorter; the other regions stay in their
    order and are still found by their ids.  Every occurrence of the id
    leaves the selection and the edited element is dropped if it has this
    id; the highlighted and hovered ids are left as they are. *)
Theorem delete_element_removes_slot (id : Id) (s : State) :
  (0 <= getChildIndex id s)%Z ->
  let s' := onDeleteElement id s in
  exists index region,
    getChildIndex id s = Z.of_nat index /\
    nth_error (parsedChildren s) index = Some (Some region) /\ regionId region = id /\
    parsedChildren s'
    = firstn index (parsedChildren s) ++ skipn (S index) (parsedChildren s) /\
    S (length (parsedChildren s')) = length (parsedChildren s) /\
    (forall other, other <> id ->
       findChild other (parsedChildren s') = findChild other (parsedChildren s)) /\
    selected s' = without id (selected s) /\ includes id (selected s') = false /\
    editedElement s' = (if editedIs id s then None else editedElement s) /\
    editedIs id s' = false /\
    highlighted s' = highlighted s /\ hovered s' = hovered s.
Proof.
  intros Hfound s'. unfold getChildIndex in *.
  destruct (findChildIndex_found id (parsedChildren s) Hfound)
    as (index & region & Ei & Hi & Hn & Hr).
  exists index, region.
  destruct (unselected_fields id s) as (U1 & U2 & U3 & U4 & U5).
  pose proof (dropEdited_fields id
                (firstn index (parsedChildren s) ++ skipn (S index) (parsedChildren s))
                (unselected id s)) as Hd.
  cbv zeta in Hd.
  assert (Hs : s' = if editedIs id
                         (setParsedChildren
                            (firstn index (parsedChildren s)
                             ++ skipn (S index) (parsedChildren s)) (unselected id s))
                    then setEditedElement None
                           (setParsedChildren
                              (firstn index (parsedChildren s)
                               ++ skipn (S index) (parsedChildren s)) (unselected id s))
                    else setParsedChildren
                           (firstn index (parsedChildren s)
                            ++ skipn (S index) (parsedChildren s)) (unselected id s)).
  { subst s'. unfold onDeleteElement. rewrite removeSelectedElement_unselected.
    cbv zeta. unfold getChildIndex.
    rewrite U1, Ei, splice_nat by lia. simpl app.
    replace (index + 1)%nat with (S index) by lia. reflexivity. }
  rewrite <- Hs in Hd. destruct Hd as (F1 & F2 & F3 & F4 & F5).
  rewrite U2 in F2. rewrite U3 in F3. rewrite U4 in F4.
  assert (F6 : editedElement s' = (if editedIs id s then None else editedElement s)).
  { rewrite F5. unfold editedIs at 1. rewrite U5.
    destruct (includes id (selected s)); cbn [andb].
    - destruct (editedIs id s) eqn:E; [reflexivity |]. unfold editedIs in E.
      now rewrite E.
    - unfold editedIs.
      destruct (editedElement s) as [edited |]; [| reflexivity].
      destruct (Id_eqb (regionId edited) id); reflexivity. }
  split; [exact Ei |]. split; [exact Hn |]. split; [exact Hr |].
  split; [exact F1 |].
  split; [rewrite F1; now apply length_without_slot |].
  split.
  { intros other Ho. rewrite F1. apply (findChild_without_slot other _ index region Hn).
    congruence. }
  split; [exact F2 |].
  split; [rewrite F2; apply includes_without |].
  split; [exact F6 |].
  split; [| split; assumption].
  unfold editedIs at 1. rewrite F6. unfold editedIs.
  destruct (editedElement s) as [edited |]; [| reflexivity].
  destruct (Id_eqb (regionId edited) id) eqn:E; [reflexivity | exact E].
Qed.

Lemma delete_element_removes_slot_witness :
  exists index region,
    getChildIndex (NumberId 3) region3Selected = Z.of_nat index /\
    nth_error (parsedChildren region3Selected) index = Some (Some region) /\
    regionId region = NumberId 3 /\
    parsedChildren (onDeleteElement (NumberId 3) region3Selected)
    = firstn index (parsedChildren region3Selected)
      ++ skipn (S index) (parsedChildren region3Selected) /\
    selected (onDeleteElement (NumberId 3) region3Selected) = [].
Proof.
  destruct (delete_element_removes_slot (NumberId 3) region3Selected)
    as (index & region & H1 & H2 & H3 & H4 & _ & _ & H7 & _).
  - vm_compute. discriminate.
  - exists index, region. repeat split; assumption.
Defined.

(** ** Creating a region *)

Ltac run_monad :=
  unfold bind, get, ret, throw, modify, lift, tryCatch, editElement; cbn beta iota.

(** The id [create] gives the new region: one more than the id of the last
    entry of the list when this is a region with a number for id, 1
    otherwise. *)
Definition nextId (children : list (option Region)) : Id :=
  match at_index children (Z.of_nat (length children) - 1) with
  | Some (Some lastElement) =>
      match regionId lastElement with
      | NumberId n => NumberId (n + 1)
      | StringId _ => NumberId 1
      end
  | _ => NumberId 1
  end.

Lemma create_success (s : State) (edited : Region) (polygon : Polygon) :
  editedElement s = Some edited ->
  checkPolygon (rawPolygon (regionPolygon edited)) POLYGON_MIN_SIZE = Return polygon ->
  let newElement := {| regionId := nextId (parsedChildren s); regionPolygon := polygon |} in
  create s
  = (Return tt,
     dispatchEvent (CreateElement newElement)
       (setEditedElement None
          (setParsedChildren (parsedChildren s ++ [Some newElement])
             (setEditedElement (Some (withPolygon edited polygon)) s)))).
Proof.
  intros He Hc newElement. unfold create. run_monad. rewrite He, Hc. reflexivity.
Qed.

Lemma create_rejected (s : State) (edited : Region) (e : Exception) :
  editedElement s = Some edited ->
  checkPolygon (rawPolygon (regionPolygon edited)) POLYGON_MIN_SIZE = Throw e ->
  create s
  = match e with
    | InvalidPolygonError _ => (Return tt, setEditedElement None s)
    | _ => (Throw e, s)
    end.
Proof.
  intros He Hc. unfold create. run_monad. rewrite He, Hc.
  destruct e; reflexivity.
Qed.

Lemma at_index_last {A : Type} (l : list A) (a : A) :
  at_index (l ++ [a]) (Z.of_nat (length (l ++ [a])) - 1) = Some a.
Proof.
  unfold at_index. rewrite length_app. simpl length.
  destruct (Z.ltb_spec (Z.of_nat (length l + 1) - 1) 0); [lia |].
  replace (Z.to_nat (Z.of_nat (length l + 1) - 1)) with (length l) by lia.
  rewrite nth_error_app2 by lia. rewrite Nat.sub_diag. reflexivity.
Qed.

Lemma nextId_last (children : list (option Region)) (lastRegion : Region) (n : Z) :
  regionId lastRegion = NumberId n ->
  nextId (children ++ [Some lastRegion]) = NumberId (n + 1).
Proof. intro H. unfold nextId. rewrite at_index_last, H. reflexivity. Qed.

(** The ids that are numbers grow along the list. *)
Definition increasingIds (children : list (option Region)) : Prop :=
  forall i j ri rj mi mj,
    (i < j)%nat ->
    nth_error children i = Some (Some ri) -> nth_error children j = Some (Some rj) ->
    regionId ri = NumberId mi -> regionId rj = NumberId mj -> (mi < mj)%Z.

Lemma nextId_above (children : list (option Region)) (lastRegion : Region) (n : Z) :
  regionId lastRegion = NumberId n ->
  increasingIds (children ++ [Some lastRegion]) ->
  forall region m,
    In (Some region) (children ++ [Some lastRegion]) -> regionId region = NumberId m ->
    (m <= n)%Z.
Proof.
  intros Hlast Hinc region m Hin Hm.
  apply In_nth_error in Hin as (i & Hi).
  assert (Hlen : (i < length (children ++ [Some lastRegion]))%nat).
  { apply nth_error_Some. congruence. }
  rewrite length_app in Hlen. simpl in Hlen.
  destruct (Nat.eq_dec i (length children)) as [-> | Hne].
  - rewrite nth_error_app2, Nat.sub_diag in Hi by lia. simpl in Hi.
    injection Hi as <-. rewrite Hlast in Hm. injection Hm as <-. lia.
  - assert (Hj : nth_error (children ++ [Some lastRegion]) (length children)
                 = Some (Some lastRegion)).
    { rewrite nth_error_app2, Nat.sub_diag by lia. reflexivity. }
    pose proof (Hinc i (length children) region lastRegion m n ltac:(lia) Hi Hj Hm Hlast).
    lia.
Qed.

(** Taking a slot other than the last out of the list leaves the next id
    as it was. *)
Lemma nextId_without_slot (children : list (option Region)) (index : nat) :
  (S index < length children)%nat ->
  nextId (firstn index children ++ skipn (S index) children) = nextId children.
Proof.
  intro H.
  destruct (exists_last (l := children)) as (front & lastChild & ->).
  { intros ->. simpl in H. lia. }
  rewrite length_app in H. simpl in H.
  assert (E : firstn index (front ++ [lastChild]) ++ skipn (S index) (front ++ [lastChild])
              = (firstn index front ++ skipn (S index) front) ++ [lastChild]).
  { rewrite firstn_app, skipn_app.
    replace (index - length front)%nat with 0%nat by lia.
    replace (S index - length front)%nat with 0%nat by lia.
    simpl. rewrite app_nil_r, app_assoc. reflexivity. }
  rewrite E. unfold nextId. rewrite !at_index_last. reflexivity.
Qed.

(** A rectangle just drawn, from (0,0) to (10,10). *)
Definition drawnRectangle : Region :=
  {| regionId := StringId "created-polygon";
     regionPolygon := [(0, 0); (10, 0); (10, 10); (0, 10); (0, 0)] |}.

(** The component in create mode, with a rectangle drawn over its
    children and the mouse button still down. *)
Definition drawingOver (children : list (option Region)) : State :=
  {| mode := CREATE_MODE; selected := [StringId "created-polygon"]; highlighted := [];
     hovered := None; parsedElement := None; parsedChildren := children;
     editedElement := Some drawnRectangle; movedPointIndex := None; mouseDown := true;
     lastMousePosition := None; updatedPolygon := false; cancelled := false;
     viewPosition := {| viewX := 0; viewY := 0; viewApplied := false; viewRecenter := true |};
     tool := RECTANGLE_TOOL; dispatched := [] |}.

(** C2, as stated, fails: once region 5, the last of five, is deleted, the
    next region created is given the id 5 again. *)
Lemma create_reuses_last_deleted_id :
  let s := onDeleteElement (NumberId 5) (drawingOver fiveRegions) in
  parsedChildren s = map (fun n => Some (regionN n)) [1; 2; 3; 4]%Z /\
  exists s',
    create s = (Return tt, s') /\
    parsedChildren s'
    = map (fun n => Some (regionN n)) [1; 2; 3; 4]%Z
      ++ [Some {| regionId := NumberId 5;
                  regionPolygon := [(0, 0); (10, 0); (10, 10); (0, 10); (0, 0)] |}].
Proof.
  split; [reflexivity |]. eexists. split; vm_compute; reflexivity.
Qed.

(** C2 (amended): a successful commit appends the new region to the list,
    emits a [create-element] notification with it and leaves no element in
    edition.  Its id is 1 on an empty list and the id of the last region of
    the list plus 1 otherwise; when the ids grow along the list this is the
    greatest id plus 1, an id no region of the list has.  Deleting a region
    other than the last does not change the next id: after region 3 of five
    is deleted, the next id is 6. *)
Theorem create_appends_next_id :
  (forall s edited polygon,
     editedElement s = Some edited ->
     checkPolygon (rawPolygon (regionPolygon edited)) POLYGON_MIN_SIZE = Return polygon ->
     exists s',
       create s = (Return tt, s') /\
       parsedChildren s'
       = parsedChildren s
         ++ [Some {| regionId := nextId (parsedChildren s); regionPolygon := polygon |}] /\
       dispatched s'
       = dispatched s
         ++ [CreateElement {| regionId := nextId (parsedChildren s);
                              regionPolygon := polygon |}] /\
       editedElement s' = None) /\
  nextId [] = NumberId 1 /\
  (forall children lastRegion n,
     regionId lastRegion = NumberId n ->
     nextId (children ++ [Some lastRegion]) = NumberId (n + 1) /\
     (increasingIds (children ++ [Some lastRegion]) ->
      forall region m,
        In (Some region) (children ++ [Some lastRegion]) ->
        regionId region = NumberId m -> (m < n + 1)%Z)) /\
  (forall children index,
     (S index < length children)%nat ->
     nextId (firstn index children ++ skipn (S index) children) = nextId children) /\
  nextId (parsedChildren (onDeleteElement (NumberId 3) (drawingOver fiveRegions)))
  = NumberId 6.
Proof.
  split; [| split; [| split; [| split]]].
  - intros s edited polygon He Hc. eexists. split; [apply (create_success s edited polygon He Hc) |].
    repeat split.
  - reflexivity.
  - intros children lastRegion n Hn. split; [now apply nextId_last |].
    intros Hinc region m Hin Hm.
    pose proof (nextId_above children lastRegion n Hn Hinc region m Hin Hm). lia.
  - exact nextId_without_slot.
  - reflexivity.
Qed.

Lemma create_appends_next_id_witness :
  exists s',
    create (onDeleteElement (NumberId 3) (drawingOver fiveRegions)) = (Return tt, s') /\
    parsedChildren s'
    = map (fun n => Some (regionN n)) [1; 2; 4; 5]%Z
      ++ [Some {| regionId := NumberId 6;
                  regionPolygon := [(0, 0); (10, 0); (10, 10); (0, 10); (0, 0)] |}].
Proof.
  destruct (proj1 create_appends_next_id
              (onDeleteElement (NumberId 3) (drawingOver fiveRegions))
              drawnRectangle [(0, 0); (10, 0); (10, 10); (0, 10); (0, 0)])
    as (s' & E & Hc & _).
  - reflexivity.
  - vm_compute. reflexivity.
  - exists s'. split; [exact E |]. rewrite Hc. reflexivity.
Defined.

(** ** Committing a rejected geometry *)

(** With no [action], [edit] returns at once, whatever it is handed. *)
Lemma editWith_no_action (saved : M unit) (argument : EditArgument) (s : State) :
  editWith saved argument None s = (Return tt, s).
Proof. reflexivity. Qed.

(** The region of the list the edited element stands for, if any. *)
Definition baseElement (edited : Region) (s : State) : option Region :=
  match at_index (parsedChildren s) (getChildIndex (regionId edited) s) with
  | Some (Some element) => Some element
  | _ => None
  end.

(** [saveEdited] when [checkPolygon] refuses the edited polygon. *)
Lemma saveEdited_rejected (s : State) (edited : Region) (e : Exception) :
  editedElement s = Some edited ->
  checkPolygon (rawPolygon (regionPolygon edited)) POLYGON_MIN_SIZE = Throw e ->
  let hover := fun t => match lastMousePosition s with
                        | Some _ => setHovered (Some (regionId edited)) t
                        | None => t
                        end in
  saveEdited s
  = if (match baseElement edited s with Some _ => true | None => false end
        && negb (updatedPolygon s))%bool
    then (Return tt, hover (setMovedPointIndex None s))
    else (Throw e, setUpdatedPolygon false (hover (setMovedPointIndex None s))).
Proof.
  intros He Hc hover. unfold saveEdited. run_monad.
  cbn [editedElement setMovedPointIndex lastMousePosition]. rewrite He.
  unfold baseElement, getChildIndex. subst hover.
  destruct (lastMousePosition s) as [position |];
    cbn [parsedChildren setHovered setMovedPointIndex updatedPolygon];
    destruct (at_index (parsedChildren s) (findChildIndex (regionId edited) (parsedChildren s)))
      as [[element |] |];
    destruct (updatedPolygon s); cbn [andb negb]; rewrite ?Hc; reflexivity.
Qed.

(** Region 1 is being edited with the mouse; its polygon has been dragged
    down to a square of 1 by 1. *)
Definition shrunkRegion : State :=
  {| mode := CREATE_MODE; selected := [NumberId 1]; highlighted := [];
     hovered := Some (NumberId 1); parsedElement := None;
     parsedChildren := [Some (regionN 1)];
     editedElement := Some {| regionId := NumberId 1;
                              regionPolygon := [(0, 0); (1, 0); (1, 1); (0, 1); (0, 0)] |};
     movedPointIndex := Some 2%nat; mouseDown := false; lastMousePosition := None;
     updatedPolygon := true; cancelled := false;
     viewPosition := {| viewX := 0; viewY := 0; viewApplied := false; viewRecenter := true |};
     tool := EDITION_TOOL; dispatched := [] |}.

(** C3, as stated, fails for an edited region: [saveEdited] throws the
    [InvalidPolygonError] on to its caller and the element stays in
    edition with the refused polygon. *)
Lemma saveEdited_rethrows_invalid_polygon :
  exists s',
    saveEdited shrunkRegion = (Throw (InvalidPolygonError TooSmall), s') /\
    editedElement s' = editedElement shrunkRegion /\
    parsedChildren s' = [Some (regionN 1)].
Proof. eexists. split; [vm_compute; reflexivity | split; reflexivity]. Qed.

(** C3 (amended): when [checkPolygon] refuses the polygon of the edited
    element, neither [create] nor [saveEdited] changes the list of regions
    or emits a notification.  [create] swallows an [InvalidPolygonError],
    returns and leaves no element in edition; any other exception it throws
    on.  [saveEdited] throws the exception on to its caller whenever it
    gets to check the polygon, that is unless the region is in the list and
    was not moved. *)
Theorem rejected_geometry_not_persisted (s : State) (edited : Region) (e : Exception) :
  editedElement s = Some edited ->
  checkPolygon (rawPolygon (regionPolygon edited)) POLYGON_MIN_SIZE = Throw e ->
  (exists s',
     create s = (match e with InvalidPolygonError _ => Return tt | _ => Throw e end, s') /\
     parsedChildren s' = parsedChildren s /\ dispatched s' = dispatched s /\
     (forall reason, e = InvalidPolygonError reason -> editedElement s' = None)) /\
  (exists result s',
     saveEdited s = (result, s') /\
     parsedChildren s' = parsedChildren s /\ dispatched s' = dispatched s /\
     (result = Throw e \/
      result = Return tt /\ updatedPolygon s = false /\ baseElement edited s <> None) /\
     (updatedPolygon s = true -> result = Throw e)).
Proof.
  intros He Hc. split.
  - rewrite (create_rejected s edited e He Hc).
    destruct e; eexists; (split; [reflexivity |]); repeat split; discriminate.
  - rewrite (saveEdited_rejected s edited e He Hc).
    destruct (baseElement edited s) as [base |]; cbn [andb].
    + destruct (updatedPolygon s) eqn:Eu; cbn [negb]; do 2 eexists;
        (split; [reflexivity |]);
        (split; [destruct (lastMousePosition s); reflexivity |]);
        (split; [destruct (lastMousePosition s); reflexivity |]).
      * split; [now left | reflexivity].
      * split; [right; repeat split; discriminate | discriminate].
    + do 2 eexists. split; [reflexivity |].
      split; [destruct (lastMousePosition s); reflexivity |].
      split; [destruct (lastMousePosition s); reflexivity |].
      split; [now left | reflexivity].
Qed.

(** A rectangle drawn from (0,0) is released at (1,1). *)
Definition tinyRectangle : State :=
  {| mode := CREATE_MODE; selected := [StringId "created-polygon"]; highlighted := [];
     hovered := None; parsedElement := None; parsedChildren := fiveRegions;
     editedElement := Some {| regionId := StringId "created-polygon";
                              regionPolygon := [(0, 0); (1, 0); (1, 1); (0, 1); (0, 0)] |};
     movedPointIndex := None; mouseDown := false; lastMousePosition := None;
     updatedPolygon := false; cancelled := false;
     viewPosition := {| viewX := 0; viewY := 0; viewApplied := false; viewRecenter := true |};
     tool := RECTANGLE_TOOL; dispatched := [] |}.

Lemma rejected_geometry_not_persisted_witness :
  exists s',
    create tinyRectangle = (Return tt, s') /\
    parsedChildren s' = fiveRegions /\ dispatched s' = [] /\ editedElement s' = None.
Proof.
  destruct (rejected_geometry_not_persisted tinyRectangle
              {| regionId := StringId "created-polygon";
                 regionPolygon := [(0, 0); (1, 0); (1, 1); (0, 1); (0, 0)] |}
              (InvalidPolygonError TooSmall))
    as [(s' & E & H1 & H2 & H3) _].
  - reflexivity.
  - vm_compute. reflexivity.
  - exists s'. repeat split; try assumption. apply (H3 TooSmall). reflexivity.
Defined.

(** ** Dragging a vertex or a polygon *)

(** A point within a box. *)
Definition withinBox (box : Box) (p : Point) : Prop :=
  boxX box <= fst p /\ fst p <= boxX box + boxWidth box /\
  boxY box <= snd p /\ snd p <= boxY box + boxHeight box.

Lemma limitTo_within (box : Box) (p : Point) :
  0 <= boxWidth box -> 0 <= boxHeight box -> withinBox box (limitTo box p).
Proof.
  intros Hw Hh. destruct p as [x y]. unfold limitTo, withinBox.
  destruct (Qlt_bool x (boxX box)) eqn:E1;
    [| destruct (Qlt_bool (boxX box + boxWidth box) x) eqn:E2];
  (destruct (Qlt_bool y (boxY box)) eqn:E3;
    [| destruct (Qlt_bool (boxY box + boxHeight box) y) eqn:E4]);
  cbn [fst snd];
  repeat match goal with
         | H : Qlt_bool _ _ = true |- _ => apply Qlt_bool_iff in H
         | H : Qlt_bool _ _ = false |- _ => apply Qlt_bool_false_iff in H
         end;
  repeat split; lra.
Qed.

(** A point that [elementLimits] leaves where it is lies within the box. *)
Lemma limitTo_equal_within (box : Box) (p : Point) :
  pointsEqual p (limitTo box p) = true -> withinBox box p.
Proof.
  intro H. apply pointsEqual_iff in H. destruct H as [Hx Hy].
  destruct p as [x y]. unfold limitTo, withinBox in *. cbn [fst snd] in *.
  destruct (Qlt_bool x (boxX box)) eqn:E1;
    [| destruct (Qlt_bool (boxX box + boxWidth box) x) eqn:E2];
  (destruct (Qlt_bool y (boxY box)) eqn:E3;
    [| destruct (Qlt_bool (boxY box + boxHeight box) y) eqn:E4]);
  cbn [fst snd] in *;
  repeat match goal with
         | H : Qlt_bool _ _ = true |- _ => apply Qlt_bool_iff in H
         | H : Qlt_bool _ _ = false |- _ => apply Qlt_bool_false_iff in H
         end;
  repeat split; lra.
Qed.

Section Dragging.

Variables (s : State) (element : Element) (box : Box).
Hypothesis Helement : parsedElement s = Some element.
Hypothesis Hbox : boundingBox element = Return box.

Lemma elementLimits_box (position : Point) :
  elementLimits position s = (Return (limitTo box position), s).
Proof.
  unfold elementLimits, originalBoundingBox. run_monad.
  rewrite Helement, Hbox. reflexivity.
Qed.

Lemma everyWithinLimits_box (points : Polygon) :
  everyWithinLimits points s
  = (Return (forallb (fun p => pointsEqual p (limitTo box p)) points), s).
Proof.
  induction points as [| p rest IH]; [reflexivity |].
  cbn [everyWithinLimits forallb]. unfold bind. rewrite elementLimits_box.
  destruct (pointsEqual p (limitTo box p)); [exact IH | reflexivity].
Qed.

Lemma movePoint_box (edited : Region) (position : Point) :
  editedElement s = Some edited ->
  movePoint position s
  = (match movedPointIndex s with
     | None => Throw (TypeError NotIterable)
     | Some index =>
         match nth_error (regionPolygon edited) index with
         | None => Throw (TypeError NotIterable)
         | Some point =>
             if pointsEqual point (limitTo box position) then Return None
             else
               let polygon :=
                 splice (Z.of_nat index) 1 [limitTo box position] (regionPolygon edited) in
               Return (Some (if (index =? 0)%nat
                             then splice (-1) 1 [limitTo box position] polygon
                             else polygon))
         end
     end, s).
Proof.
  intro He. unfold movePoint. unfold bind at 1. unfold get. rewrite He.
  unfold bind. rewrite elementLimits_box.
  destruct (movedPointIndex s) as [index |]; [| reflexivity].
  destruct (nth_error (regionPolygon edited) index) as [point |]; [| reflexivity].
  destruct (pointsEqual point (limitTo box position)); reflexivity.
Qed.

Lemma movePolygon_box (edited : Region) (position lastPosition : Point) :
  editedElement s = Some edited -> lastMousePosition s = Some lastPosition ->
  movePolygon position s
  = (let newPolygon :=
       shiftPolygon (regionPolygon edited)
         (fst position - fst lastPosition, snd position - snd lastPosition) in
     if pointsEqual lastPosition position then Return None
     else if forallb (fun p => pointsEqual p (limitTo box p)) newPolygon
          then Return (Some newPolygon) else Return None, s).
Proof.
  intros He Hl. unfold movePolygon. unfold bind at 1. unfold get. rewrite Hl.
  destruct (pointsEqual lastPosition position); [reflexivity |].
  rewrite He. unfold bind. rewrite everyWithinLimits_box. cbv zeta.
  destruct (forallb _ _); reflexivity.
Qed.

End Dragging.

Lemma length_splice_replace {A : Type} (i : nat) (x : A) (l : list A) :
  (i < length l)%nat -> length (splice (Z.of_nat i) 1 [x] l) = length l.
Proof.
  intro H. rewrite splice_nat by lia.
  rewrite !length_app, length_firstn, length_skipn. simpl. lia.
Qed.

Lemma nth_error_splice_replace {A : Type} (i : nat) (x : A) (l : list A) (j : nat) :
  (i < length l)%nat ->
  nth_error (splice (Z.of_nat i) 1 [x] l) j
  = if (j =? i)%nat then Some x else nth_error l j.
Proof.
  intro H. rewrite splice_nat by lia.
  assert (Hf : length (firstn i l) = i) by (rewrite length_firstn; lia).
  destruct (Nat.eqb_spec j i) as [-> | Hne].
  - rewrite nth_error_app2 by lia. rewrite Hf, Nat.sub_diag. reflexivity.
  - destruct (Nat.lt_ge_cases j i) as [Hlt | Hge].
    + rewrite nth_error_app1 by lia. rewrite nth_error_firstn.
      destruct (Nat.ltb_spec j i); [reflexivity | lia].
    + rewrite nth_error_app2 by lia. rewrite Hf.
      destruct (j - i)%nat as [| k] eqn:Ek; [lia |].
      simpl. rewrite nth_error_skipn. f_equal. lia.
Qed.

Lemma splice_from_the_end {A : Type} (x : A) (l : list A) :
  l <> [] -> splice (-1) 1 [x] l = splice (Z.of_nat (length l - 1)) 1 [x] l.
Proof.
  intro H. assert (0 < length l)%nat by (destruct l; [congruence | simpl; lia]).
  rewrite (splice_nat (length l - 1)) by lia. unfold splice.
  assert (E : Z.to_nat (if (-1 <? 0)%Z then Z.max (Z.of_nat (length l) + -1) 0
                        else Z.min (-1) (Z.of_nat (length l))) = (length l - 1)%nat).
  { destruct (Z.ltb_spec (-1) 0); lia. }
  rewrite E. reflexivity.
Qed.

(** One move of the mouse handled by [edit]: what the state and the
    polygon of the edited element become. *)
Lemma edit_move_within_box (s : State) (element : Element) (box : Box)
    (edited : Region) (position : Point) :
  parsedElement s = Some element -> boundingBox element = Return box ->
  editedElement s = Some edited ->
  Forall (withinBox box) (regionPolygon edited) ->
  exists result s' edited',
    edit (AtPosition position) (Some Move) s = (result, s') /\
    editedElement s' = Some edited' /\ regionId edited' = regionId edited /\
    parsedChildren s' = parsedChildren s /\
    Forall (withinBox box) (regionPolygon edited') /\
    (forall index,
       mouseDown s = true -> movedPointIndex s = Some index ->
       regionPolygon edited' = regionPolygon edited \/
       (withinBox box (limitTo box position) /\
        length (regionPolygon edited') = length (regionPolygon edited) /\
        forall j,
          nth_error (regionPolygon edited') j
          = if ((j =? index)%nat
                || ((index =? 0)%nat && (j =? length (regionPolygon edited) - 1)%nat))%bool
            then Some (limitTo box position)
            else nth_error (regionPolygon edited) j)) /\
    (forall lastPosition,
       mouseDown s = true -> movedPointIndex s = None ->
       lastMousePosition s = Some lastPosition ->
       regionPolygon edited' = regionPolygon edited \/
       regionPolygon edited'
       = shiftPolygon (regionPolygon edited)
           (fst position - fst lastPosition, snd position - snd lastPosition)) /\
    (s' = s \/ s' = setUpdatedPolygon true s \/
     s' = setEditedElement (Some edited') (setUpdatedPolygon true s)).
Proof.
  intros Helement Hbox He Hin.
  unfold edit, editWith. unfold bind at 1. unfold get. cbn beta iota.
  destruct (mouseDown s) eqn:Hdown; cbn [negb].
  2: { exists (Return tt), s, edited.
       repeat split; try assumption; try discriminate; try (now left). }
  rewrite He.
  destruct (movedPointIndex s) as [index |] eqn:Hindex.
  - (* a vertex is dragged *)
    unfold bind at 1. unfold asPosition, bind at 1, ret at 1.
    rewrite (movePoint_box s element box Helement Hbox edited position He), Hindex.
    destruct (nth_error (regionPolygon edited) index) as [point |] eqn:Hpoint.
    2: { exists (Throw (TypeError NotIterable)), s, edited.
         repeat split; try assumption; try discriminate; try (intros; now left). }
    destruct (pointsEqual point (limitTo box position)) eqn:Hsame.
    { run_monad. exists (Return tt), (setUpdatedPolygon true s), edited.
      repeat split; try assumption; try discriminate; try (intros; now left);
        try (right; now left). }
    run_monad. cbn [editedElement setUpdatedPolygon]. rewrite He.
    assert (Hlt : (index < length (regionPolygon edited))%nat).
    { apply nth_error_Some. congruence. }
    assert (Hpt : withinBox box point).
    { rewrite Forall_forall in Hin. apply Hin. eapply nth_error_In, Hpoint. }
    assert (Hlim : withinBox box (limitTo box position)).
    { destruct Hpt as (A & B & C & D). apply limitTo_within; lra. }
    set (moved := splice (Z.of_nat index) 1 [limitTo box position] (regionPolygon edited)).
    set (polygon' := if (index =? 0)%nat
                     then splice (-1) 1 [limitTo box position] moved else moved).
    exists (Return tt),
           (setEditedElement (Some (withPolygon edited polygon')) (setUpdatedPolygon true s)),
           (withPolygon edited polygon').
    split; [reflexivity |]. split; [reflexivity |]. split; [reflexivity |].
    split; [reflexivity |].
    assert (Hmoved : Forall (withinBox box) moved).
    { apply Forall_splice; [assumption | now constructor]. }
    split.
    { cbn [regionPolygon withPolygon]. subst polygon'.
      destruct (index =? 0)%nat; [| assumption].
      apply Forall_splice; [assumption | now constructor]. }
    split; [| split; [intros lastPosition _ Hnone; discriminate | right; now right]].
    intros index' _ Hidx. injection Hidx as <-. right.
    split; [exact Hlim |].
    cbn [regionPolygon withPolygon].
    assert (Lm : length moved = length (regionPolygon edited))
      by (apply length_splice_replace; assumption).
    assert (Nm : forall j, nth_error moved j
                           = if (j =? index)%nat then Some (limitTo box position)
                             else nth_error (regionPolygon edited) j)
      by (intro j; apply nth_error_splice_replace; assumption).
    subst polygon'. destruct (Nat.eqb_spec index 0) as [-> | Hnz].
    + assert (Hne : moved <> []) by (intros E; rewrite E in Lm; simpl in Lm; lia).
      rewrite (splice_from_the_end _ _ Hne). split.
      * rewrite length_splice_replace by lia. exact Lm.
      * intro j. rewrite nth_error_splice_replace by lia. rewrite Lm, Nm.
        cbn [andb]. destruct (j =? length (regionPolygon edited) - 1)%nat;
          destruct (j =? 0)%nat; reflexivity.
    + split; [exact Lm |]. intro j. rewrite Nm. cbn [andb]. now rewrite orb_false_r.
  - (* the polygon is dragged, if the mouse has a last position *)
    destruct (lastMousePosition s) as [lastPosition |] eqn:Hlast.
    2: { run_monad. exists (Return tt), (setUpdatedPolygon true s), edited.
         repeat split; try assumption; try discriminate; try (right; now left). }
    unfold bind at 1. unfold asPosition, bind at 1, ret at 1.
    rewrite (movePolygon_box s element box Helement Hbox edited position lastPosition He Hlast).
    cbv zeta.
    destruct (pointsEqual lastPosition position).
    { run_monad. exists (Return tt), (setUpdatedPolygon true s), edited.
      repeat split; try assumption; try discriminate; try (intros; now left);
        try (right; now left). }
    destruct (forallb _ _) eqn:Hall.
    + run_monad. cbn [editedElement setUpdatedPolygon]. rewrite He.
      set (newPolygon := shiftPolygon (regionPolygon edited)
             (fst position - fst lastPosition, snd position - snd lastPosition)) in *.
      exists (Return tt),
             (setEditedElement (Some (withPolygon edited newPolygon))
                (setUpdatedPolygon true s)),
             (withPolygon edited newPolygon).
      split; [reflexivity |]. split; [reflexivity |]. split; [reflexivity |].
      split; [reflexivity |]. split.
      { cbn [regionPolygon withPolygon]. apply Forall_forall. intros p Hp.
        rewrite forallb_forall in Hall. apply limitTo_equal_within. now apply Hall. }
      split; [intros index _ Hidx; discriminate |].
      split; [| right; now right].
      intros lastPosition' _ _ Hl. injection Hl as <-. now right.
    + run_monad. exists (Return tt), (setUpdatedPolygon true s), edited.
      repeat split; try assumption; try discriminate; try (intros; now left);
        try (right; now left).
Qed.

(** What holds throughout a drag with the edition tool: the element and
    its box, the tool, and an edited element, the same all along, whose
    vertices are within the box. *)
Definition dragInvariant (element : Element) (box : Box) (id : Id) (s : State) : Prop :=
  parsedElement s = Some element /\ mode s = CREATE_MODE /\ tool s = EDITION_TOOL /\
  exists edited,
    editedElement s = Some edited /\ regionId edited = id /\
    Forall (withinBox box) (regionPolygon edited).

Lemma trackPosition_invariant (element : Element) (box : Box) (id : Id)
    (mouseCoords : Point) (action : Action) (s : State) :
  dragInvariant element box id s ->
  dragInvariant element box id (snd (trackPosition mouseCoords action s)).
Proof.
  intro H. unfold trackPosition. run_monad.
  destruct (mouseDown s && match action with Move => true | _ => false end)%bool;
    [destruct (viewApplied (viewPosition s)) |]; exact H.
Qed.

(** A move of the mouse keeps the invariant of the drag. *)
Lemma mouseAction_move_invariant (element : Element) (box : Box) (id : Id)
    (e : MouseEvent) (s : State) :
  boundingBox element = Return box ->
  dragInvariant element box id s ->
  dragInvariant element box id (snd (mouseAction e Move s)).
Proof.
  intros Hbox Hinv. pose proof Hinv as (Hel & Hmode & Htool & edited & He & Hid & Hin).
  unfold mouseAction. unfold bind at 1. unfold get at 1. cbn beta iota.
  cbn [andb]. rewrite He. rewrite andb_false_r.
  destruct (eventPosition e) as [mouseCoords |]; [| exact Hinv].
  unfold bind at 1. unfold ret at 1. cbn [negb].
  unfold bind at 1. unfold get at 1. cbn [andb].
  rewrite andb_false_r. rewrite Hmode, Htool. cbn [isCreateMode negb orb].
  destruct (shiftKey e).
  - (* the image is translated *)
    unfold bind at 1.
    assert (Ht : exists s', (if mouseDown s then translate mouseCoords else ret tt) s
                            = (Return tt, s') /\ dragInvariant element box id s').
    { destruct (mouseDown s); [| exists s; split; [reflexivity | exact Hinv]].
      unfold translate. run_monad.
      destruct (lastMousePosition s); eexists; (split; [reflexivity | exact Hinv]). }
    destruct Ht as (s' & -> & Hinv'). now apply trackPosition_invariant.
  - destruct (edit_move_within_box s element box edited mouseCoords Hel Hbox He Hin)
      as (result & s' & edited' & E & He' & Hid' & _ & Hin' & _ & _ & Hframe).
    assert (Hinv' : dragInvariant element box id s').
    { unfold dragInvariant.
      destruct Hframe as [-> | [-> | ->]]; cbn [parsedElement mode tool editedElement
        setEditedElement setUpdatedPolygon]; repeat split; try assumption.
      - exists edited. tauto.
      - exists edited. tauto.
      - exists edited'. repeat split; [congruence | assumption]. }
    unfold bind at 1. rewrite E.
    destruct result as [[] | err]; [| exact Hinv'].
    now apply trackPosition_invariant.
Qed.

(** A position within the box is where [elementLimits] leaves it. *)
Lemma limitTo_fixed (box : Box) (p : Point) : withinBox box p -> limitTo box p = p.
Proof.
  destruct p as [x y]. unfold withinBox, limitTo. cbn [fst snd]. intros (A & B & C & D).
  assert (E1 : Qlt_bool x (boxX box) = false) by (apply Qlt_bool_false_iff; lra).
  assert (E2 : Qlt_bool (boxX box + boxWidth box) x = false)
    by (apply Qlt_bool_false_iff; lra).
  assert (E3 : Qlt_bool y (boxY box) = false) by (apply Qlt_bool_false_iff; lra).
  assert (E4 : Qlt_bool (boxY box + boxHeight box) y = false)
    by (apply Qlt_bool_false_iff; lra).
  now rewrite E1, E2, E3, E4.
Qed.

(** [elementLimits] clamps each coordinate between the sides of the box. *)
Lemma limitTo_clamp (box : Box) (p : Point) :
  0 <= boxWidth box -> 0 <= boxHeight box ->
  fst (limitTo box p) == Qmax (boxX box) (Qmin (fst p) (boxX box + boxWidth box)) /\
  snd (limitTo box p) == Qmax (boxY box) (Qmin (snd p) (boxY box + boxHeight box)).
Proof.
  intros Hw Hh. destruct p as [x y]. unfold limitTo. cbn [fst snd].
  destruct (Q.min_spec x (boxX box + boxWidth box)) as [[Hx Ex] | [Hx Ex]];
  destruct (Q.min_spec y (boxY box + boxHeight box)) as [[Hy Ey] | [Hy Ey]];
  rewrite Ex, Ey;
  destruct (Q.max_spec (boxX box) x) as [[Ax Fx] | [Ax Fx]];
  destruct (Q.max_spec (boxX box) (boxX box + boxWidth box)) as [[Bx Gx] | [Bx Gx]];
  destruct (Q.max_spec (boxY box) y) as [[Ay Fy] | [Ay Fy]];
  destruct (Q.max_spec (boxY box) (boxY box + boxHeight box)) as [[By Gy] | [By Gy]];
  rewrite ?Fx, ?Gx, ?Fy, ?Gy;
  destruct (Qlt_bool x (boxX box)) eqn:E1;
  destruct (Qlt_bool (boxX box + boxWidth box) x) eqn:E2;
  destruct (Qlt_bool y (boxY box)) eqn:E3;
  destruct (Qlt_bool (boxY box + boxHeight box) y) eqn:E4;
  repeat match goal with
         | H : Qlt_bool _ _ = true |- _ => apply Qlt_bool_iff in H
         | H : Qlt_bool _ _ = false |- _ => apply Qlt_bool_false_iff in H
         end;
  split; lra.
Qed.

Lemma withinBox_forallb (box : Box) (points : Polygon) :
  forallb (fun p => pointsEqual p (limitTo box p)) points = true
  <-> Forall (withinBox box) points.
Proof.
  rewrite forallb_forall, Forall_forall. split; intros H p Hp.
  - apply limitTo_equal_within. now apply H.
  - rewrite (limitTo_fixed box p) by now apply H. apply pointsEqual_refl.
Qed.

(** The polygon [movePoint] returns when the vertex moves: the vertex at
    [index] is replaced, and the last point too when [index] is 0. *)
Definition movedPolygon (index : nat) (target : Point) (polygon : Polygon) : Polygon :=
  let moved := splice (Z.of_nat index) 1 [target] polygon in
  if (index =? 0)%nat then splice (-1) 1 [target] moved else moved.

Lemma movedPolygon_points (index : nat) (target : Point) (polygon : Polygon) :
  (index < length polygon)%nat ->
  length (movedPolygon index target polygon) = length polygon /\
  forall j,
    nth_error (movedPolygon index target polygon) j
    = if ((j =? index)%nat || ((index =? 0)%nat && (j =? length polygon - 1)%nat))%bool
      then Some target else nth_error polygon j.
Proof.
  intro Hlt. unfold movedPolygon.
  set (moved := splice (Z.of_nat index) 1 [target] polygon).
  assert (Lm : length moved = length polygon) by (apply length_splice_replace; assumption).
  assert (Nm : forall j, nth_error moved j
                         = if (j =? index)%nat then Some target else nth_error polygon j)
    by (intro j; apply nth_error_splice_replace; assumption).
  destruct (Nat.eqb_spec index 0) as [-> | Hnz].
  - assert (Hne : moved <> []) by (intros E; rewrite E in Lm; simpl in Lm; lia).
    rewrite (splice_from_the_end _ _ Hne). split.
    + rewrite length_splice_replace by lia. exact Lm.
    + intro j. rewrite nth_error_splice_replace by lia. rewrite Lm, Nm.
      cbn [andb]. destruct (j =? length polygon - 1)%nat; destruct (j =? 0)%nat; reflexivity.
  - split; [exact Lm |]. intro j. rewrite Nm. cbn [andb]. now rewrite orb_false_r.
Qed.

Lemma nth_error_last {A : Type} (l : list A) (d : A) :
  l <> [] -> nth_error l (length l - 1) = Some (last l d).
Proof.
  intro H. destruct (exists_last H) as (front & a & ->).
  rewrite last_last, length_app. cbn [length].
  rewrite nth_error_app2 by lia.
  replace (length front + 1 - 1 - length front)%nat with 0%nat by lia. reflexivity.
Qed.

(** The vertex at [index] of [polygon] has been dragged to [target]: in
    [polygon'] it is at [target]; so is the last point when the vertex is
    the first of a closed polygon, the point the two ends share; the other
    vertices are where they were. *)
Definition vertexDragged (index : nat) (target : Point) (polygon polygon' : Polygon)
    : Prop :=
  length polygon' = length polygon /\
  (exists p, nth_error polygon' index = Some p /\ samePoint p target) /\
  (index = 0%nat -> closed polygon = true ->
   exists p, nth_error polygon' (length polygon - 1) = Some p /\ samePoint p target) /\
  (forall j, j <> index -> (index = 0%nat -> j <> (length polygon - 1)%nat) ->
     nth_error polygon' j = nth_error polygon j).

Lemma vertexDragged_moved (index : nat) (target : Point) (polygon : Polygon) :
  (index < length polygon)%nat ->
  vertexDragged index target polygon (movedPolygon index target polygon).
Proof.
  intro Hlt. destruct (movedPolygon_points index target polygon Hlt) as [Hlen Hnth].
  split; [exact Hlen |]. split; [| split].
  - exists target. rewrite Hnth, Nat.eqb_refl. split; [reflexivity | apply samePoint_refl].
  - intros -> _. exists target. rewrite Hnth, (Nat.eqb_refl (length polygon - 1)).
    cbn [Nat.eqb andb]. rewrite orb_true_r. split; [reflexivity | apply samePoint_refl].
  - intros j Hj Hlast. rewrite Hnth.
    destruct (Nat.eqb_spec j index); [contradiction |].
    destruct (Nat.eqb_spec index 0) as [E | _]; [| reflexivity].
    destruct (Nat.eqb_spec j (length polygon - 1)); [now apply Hlast in E | reflexivity].
Qed.

Lemma vertexDragged_in_place (index : nat) (target point : Point) (polygon : Polygon) :
  nth_error polygon index = Some point -> samePoint point target ->
  vertexDragged index target polygon polygon.
Proof.
  intros Hpoint Hsame. split; [reflexivity |]. split; [| split].
  - exists point. tauto.
  - intros -> Hclosed. destruct polygon as [| first rest]; [discriminate Hclosed |].
    cbn [nth_error] in Hpoint. injection Hpoint as ->.
    exists (last (point :: rest) point). split.
    + apply nth_error_last. discriminate.
    + unfold closed in Hclosed. apply pointsEqual_iff in Hclosed.
      eapply samePoint_trans; [apply samePoint_sym, Hclosed | exact Hsame].
  - reflexivity.
Qed.

(** One move of the mouse while a vertex is held. *)
Lemma edit_drag_vertex (s : State) (element : Element) (box : Box) (edited : Region)
    (position : Point) (index : nat) (point : Point) :
  parsedElement s = Some element -> boundingBox element = Return box ->
  editedElement s = Some edited -> mouseDown s = true ->
  movedPointIndex s = Some index -> nth_error (regionPolygon edited) index = Some point ->
  edit (AtPosition position) (Some Move) s
  = (Return tt,
     if pointsEqual point (limitTo box position) then setUpdatedPolygon true s
     else setEditedElement
            (Some (withPolygon edited
                     (movedPolygon index (limitTo box position) (regionPolygon edited))))
            (setUpdatedPolygon true s)).
Proof.
  intros Helement Hbox He Hdown Hindex Hpoint.
  unfold edit, editWith. unfold bind at 1. unfold get. cbn beta iota.
  rewrite Hdown, He, Hindex. cbn [negb].
  unfold bind at 1. unfold asPosition, bind at 1, ret at 1.
  rewrite (movePoint_box s element box Helement Hbox edited position He), Hindex, Hpoint.
  destruct (pointsEqual point (limitTo box position)).
  - reflexivity.
  - run_monad. cbn [editedElement setUpdatedPolygon]. rewrite He. reflexivity.
Qed.

(** One move of the mouse while the polygon is held. *)
Lemma edit_drag_polygon (s : State) (element : Element) (box : Box) (edited : Region)
    (position lastPosition : Point) :
  parsedElement s = Some element -> boundingBox element = Return box ->
  editedElement s = Some edited -> mouseDown s = true ->
  movedPointIndex s = None -> lastMousePosition s = Some lastPosition ->
  let shifted :=
    shiftPolygon (regionPolygon edited)
      (fst position - fst lastPosition, snd position - snd lastPosition) in
  edit (AtPosition position) (Some Move) s
  = (Return tt,
     if (negb (pointsEqual lastPosition position)
         && forallb (fun p => pointsEqual p (limitTo box p)) shifted)%bool
     then setEditedElement (Some (withPolygon edited shifted)) (setUpdatedPolygon true s)
     else setUpdatedPolygon true s).
Proof.
  intros Helement Hbox He Hdown Hindex Hlast shifted.
  unfold edit, editWith. unfold bind at 1. unfold get. cbn beta iota.
  rewrite Hdown, He, Hindex, Hlast. cbn [negb].
  unfold bind at 1. unfold asPosition, bind at 1, ret at 1.
  rewrite (movePolygon_box s element box Helement Hbox edited position lastPosition He Hlast).
  cbv zeta. fold shifted.
  destruct (pointsEqual lastPosition position); [reflexivity |].
  cbn [negb andb]. destruct (forallb _ shifted).
  - run_monad. cbn [editedElement setUpdatedPolygon]. rewrite He. reflexivity.
  - reflexivity.
Qed.

(** A move of the mouse over the image, in create mode with the edition
    tool and a region in edition, is handled by [edit]. *)
Lemma mouseAction_move_edit (s : State) (edited : Region) (e : MouseEvent)
    (position : Point) :
  mode s = CREATE_MODE -> tool s = EDITION_TOOL -> editedElement s = Some edited ->
  eventPosition e = Some position -> shiftKey e = false ->
  mouseAction e Move s
  = (let (result, s') := edit (AtPosition position) (Some Move) s in
     match result with
     | Return _ => trackPosition position Move s'
     | Throw err => (Throw err, s')
     end).
Proof.
  intros Hmode Htool He Hposition Hshift.
  unfold mouseAction. unfold bind at 1. unfold get at 1. cbn beta iota.
  cbn [andb]. rewrite He, andb_false_r, Hposition.
  unfold bind at 1. unfold ret at 1. cbn [negb].
  unfold bind at 1. unfold get at 1. cbn [andb].
  rewrite andb_false_r, Hmode, Htool, Hshift. cbn [isCreateMode negb orb].
  unfold bind at 1. reflexivity.
Qed.

Lemma trackPosition_edited (mouseCoords : Point) (action : Action) (s : State) :
  editedElement (snd (trackPosition mouseCoords action s)) = editedElement s /\
  parsedChildren (snd (trackPosition mouseCoords action s)) = parsedChildren s.
Proof.
  unfold trackPosition. run_monad.
  destruct (mouseDown s && match action with Move => true | _ => false end)%bool;
    [destruct (viewApplied (viewPosition s)) |]; split; reflexivity.
Qed.

(** C7: throughout a drag of a vertex or of the polygon of the edited
    element, that is along any sequence of mouse moves handled with the
    edition tool, the vertices stay within the bounding box of the element.
    One move with the button held puts the dragged vertex at the position
    of the mouse limited to the box, each coordinate clamped between the
    sides of the box, which is that position when it lies in the box; the
    last point goes with it when the vertex is the first of a closed
    polygon, and the other vertices stay in place.  When the polygon
    is dragged, every vertex is translated by the move of the mouse if they
    all land in the box; if one would not, the polygon is left as it was. *)
Theorem drag_stays_within_box (s : State) (element : Element) (box : Box)
    (edited : Region) :
  parsedElement s = Some element -> boundingBox element = Return box ->
  mode s = CREATE_MODE -> tool s = EDITION_TOOL ->
  editedElement s = Some edited ->
  Forall (withinBox box) (regionPolygon edited) ->
  (forall moves : list MouseEvent,
     exists edited',
       editedElement (mouseActions (map (fun e => (e, Move)) moves) s) = Some edited' /\
       regionId edited' = regionId edited /\
       Forall (withinBox box) (regionPolygon edited')) /\
  (forall (e : MouseEvent) (position : Point),
     eventPosition e = Some position -> shiftKey e = false -> mouseDown s = true ->
     exists edited',
       editedElement (snd (mouseAction e Move s)) = Some edited' /\
       regionId edited' = regionId edited /\
       Forall (withinBox box) (regionPolygon edited') /\
       (forall index,
          movedPointIndex s = Some index -> (index < length (regionPolygon edited))%nat ->
          withinBox box (limitTo box position) /\
          (withinBox box position -> limitTo box position = position) /\
          fst (limitTo box position)
          == Qmax (boxX box) (Qmin (fst position) (boxX box + boxWidth box)) /\
          snd (limitTo box position)
          == Qmax (boxY box) (Qmin (snd position) (boxY box + boxHeight box)) /\
          vertexDragged index (limitTo box position)
            (regionPolygon edited) (regionPolygon edited')) /\
       (forall lastPosition,
          movedPointIndex s = None -> lastMousePosition s = Some lastPosition ->
          let shifted :=
            shiftPolygon (regionPolygon edited)
              (fst position - fst lastPosition, snd position - snd lastPosition) in
          (pointsEqual lastPosition position = false -> Forall (withinBox box) shifted ->
           regionPolygon edited' = shifted) /\
          (~ Forall (withinBox box) shifted ->
           regionPolygon edited' = regionPolygon edited) /\
          (pointsEqual lastPosition position = true ->
           regionPolygon edited' = regionPolygon edited))).
Proof.
  intros Helement Hbox Hmode Htool He Hin. split.
  - intro moves.
    assert (Hinv : dragInvariant element box (regionId edited) s).
    { repeat split; try assumption. exists edited. tauto. }
    clear He Hin Hmode Htool Helement. revert s Hinv.
    induction moves as [| e moves IH]; intros s Hinv.
    + destruct Hinv as (_ & _ & _ & edited' & H1 & H2 & H3). exists edited'. tauto.
    + cbn [map mouseActions]. apply IH.
      now apply mouseAction_move_invariant.
  - intros e position Hposition Hshift Hdown.
    assert (Hinv : dragInvariant element box (regionId edited) s).
    { repeat split; try assumption. exists edited. tauto. }
    destruct (mouseAction_move_invariant element box (regionId edited) e s Hbox Hinv)
      as (_ & _ & _ & edited' & He' & Hid' & Hin').
    exists edited'. split; [exact He' |]. split; [exact Hid' |]. split; [exact Hin' |].
    rewrite (mouseAction_move_edit s edited e position Hmode Htool He Hposition Hshift)
      in He'.
    split.
    + intros index Hindex Hlt.
      destruct (nth_error (regionPolygon edited) index) as [point |] eqn:Hpoint.
      2: { apply nth_error_None in Hpoint. lia. }
      assert (Hpt : withinBox box point).
      { rewrite Forall_forall in Hin. apply Hin. eapply nth_error_In, Hpoint. }
      assert (Hwidth : 0 <= boxWidth box) by (destruct Hpt as (A & B & C & D); lra).
      assert (Hheight : 0 <= boxHeight box) by (destruct Hpt as (A & B & C & D); lra).
      split; [now apply limitTo_within |].
      split; [apply limitTo_fixed |].
      split; [now apply limitTo_clamp |]. split; [now apply limitTo_clamp |].
      rewrite (edit_drag_vertex s element box edited position index point
                 Helement Hbox He Hdown Hindex Hpoint) in He'.
      rewrite (proj1 (trackPosition_edited position Move _)) in He'.
      destruct (pointsEqual point (limitTo box position)) eqn:Hsame.
      * cbn [editedElement setUpdatedPolygon] in He'.
        assert (E : edited' = edited) by congruence. subst edited'.
        apply (vertexDragged_in_place index _ point); [exact Hpoint |].
        now apply pointsEqual_iff.
      * cbn [editedElement setEditedElement] in He'. injection He' as <-.
        cbn [regionPolygon withPolygon]. now apply vertexDragged_moved.
    + intros lastPosition Hindex Hlast shifted.
      rewrite (edit_drag_polygon s element box edited position lastPosition
                 Helement Hbox He Hdown Hindex Hlast) in He'.
      fold shifted in He'.
      rewrite (proj1 (trackPosition_edited position Move _)) in He'.
      pose proof (withinBox_forallb box shifted) as Hall.
      destruct (pointsEqual lastPosition position);
        destruct (forallb (fun p => pointsEqual p (limitTo box p)) shifted);
        cbn [negb andb editedElement setEditedElement setUpdatedPolygon] in He';
        try (assert (E : edited' = edited) by congruence; subst edited');
        try (injection He' as <-; cbn [regionPolygon withPolygon]);
        repeat split; try reflexivity; try discriminate; intros.
      all: try (exfalso; match goal with H : ~ Forall _ _ |- _ => apply H end;
                now apply Hall).
      all: try (assert (false = true) by (now apply Hall); discriminate).
Qed.

Definition page : Element :=
  {| elementImage := Some page100; elementPolygon := None |}.

Definition pageBox : Box :=
  {| boxX := 0; boxY := 0; boxWidth := 100; boxHeight := 100 |}.

(** The first vertex of region 1 is held with the edition tool. *)
Definition draggingVertex : State :=
  {| mode := CREATE_MODE; selected := [NumberId 1]; highlighted := [];
     hovered := Some (NumberId 1); parsedElement := Some page;
     parsedChildren := [Some {| regionId := NumberId 1;
                                regionPolygon := [(0, 0); (10, 0); (10, 10); (0, 10); (0, 0)] |}];
     editedElement := Some {| regionId := NumberId 1;
                              regionPolygon := [(0, 0); (10, 0); (10, 10); (0, 10); (0, 0)] |};
     movedPointIndex := Some 0%nat; mouseDown := true; lastMousePosition := Some (1, 1);
     updatedPolygon := false; cancelled := false;
     viewPosition := {| viewX := 0; viewY := 0; viewApplied := true; viewRecenter := true |};
     tool := EDITION_TOOL; dispatched := [] |}.

Lemma drag_stays_within_box_witness :
  (exists edited',
     editedElement
       (mouseActions
          (map (fun e => (e, Move))
             [ {| buttons := 1; shiftKey := false; eventPosition := Some (150, -(5)) |};
               {| buttons := 1; shiftKey := false; eventPosition := Some (50, 120) |} ])
          draggingVertex)
     = Some edited' /\
     Forall (withinBox pageBox) (regionPolygon edited')) /\
  (exists edited',
     editedElement
       (snd (mouseAction
               {| buttons := 1; shiftKey := false; eventPosition := Some (150, -(5)) |}
               Move draggingVertex))
     = Some edited' /\
     (exists p, nth_error (regionPolygon edited') 0 = Some p /\ samePoint p (100, 0)) /\
     (exists p, nth_error (regionPolygon edited') 4 = Some p /\ samePoint p (100, 0)) /\
     nth_error (regionPolygon edited') 1 = Some (10, 0)) /\
  (exists edited',
     editedElement
       (snd (mouseAction
               {| buttons := 1; shiftKey := false; eventPosition := Some (3, 4) |}
               Move (setMovedPointIndex None draggingVertex)))
     = Some edited' /\
     regionPolygon edited'
     = shiftPolygon [(0, 0); (10, 0); (10, 10); (0, 10); (0, 0)] (3 - 1, 4 - 1)) /\
  (exists edited',
     editedElement
       (snd (mouseAction
               {| buttons := 1; shiftKey := false; eventPosition := Some (-(20), 1) |}
               Move (setMovedPointIndex None draggingVertex)))
     = Some edited' /\
     regionPolygon edited' = [(0, 0); (10, 0); (10, 10); (0, 10); (0, 0)]).
Proof.
  assert (Hsquare : Forall (withinBox pageBox) [(0, 0); (10, 0); (10, 10); (0, 10); (0, 0)])
    by (repeat constructor; vm_compute; discriminate).
  split; [| split; [| split]].
  - destruct (proj1 (drag_stays_within_box draggingVertex page pageBox
                       {| regionId := NumberId 1;
                          regionPolygon := [(0, 0); (10, 0); (10, 10); (0, 10); (0, 0)] |}
                       eq_refl eq_refl eq_refl eq_refl eq_refl Hsquare)
                [ {| buttons := 1; shiftKey := false; eventPosition := Some (150, -(5)) |};
                  {| buttons := 1; shiftKey := false; eventPosition := Some (50, 120) |} ])
      as (edited' & H1 & _ & H2).
    exists edited'. split; assumption.
  - destruct (proj2 (drag_stays_within_box draggingVertex page pageBox
                       {| regionId := NumberId 1;
                          regionPolygon := [(0, 0); (10, 0); (10, 10); (0, 10); (0, 0)] |}
                       eq_refl eq_refl eq_refl eq_refl eq_refl Hsquare)
                {| buttons := 1; shiftKey := false; eventPosition := Some (150, -(5)) |}
                (150, -(5)) eq_refl eq_refl eq_refl)
      as (edited' & He & _ & _ & Hvertex & _).
    destruct (Hvertex 0%nat eq_refl)
      as (_ & _ & _ & _ & _ & Hdragged & Hmirrored & Hothers).
    { simpl. lia. }
    exists edited'. split; [exact He |]. split; [exact Hdragged |].
    split; [exact (Hmirrored eq_refl eq_refl) |].
    apply (Hothers 1%nat); [discriminate | intros _; discriminate].
  - destruct (proj2 (drag_stays_within_box (setMovedPointIndex None draggingVertex)
                       page pageBox
                       {| regionId := NumberId 1;
                          regionPolygon := [(0, 0); (10, 0); (10, 10); (0, 10); (0, 0)] |}
                       eq_refl eq_refl eq_refl eq_refl eq_refl Hsquare)
                {| buttons := 1; shiftKey := false; eventPosition := Some (3, 4) |}
                (3, 4) eq_refl eq_refl eq_refl)
      as (edited' & He & _ & _ & _ & Hpolygon).
    destruct (Hpolygon (1, 1) eq_refl eq_refl) as (Hshifted & _ & _).
    exists edited'. split; [exact He |]. apply Hshifted; [reflexivity |].
    repeat constructor; vm_compute; discriminate.
  - destruct (proj2 (drag_stays_within_box (setMovedPointIndex None draggingVertex)
                       page pageBox
                       {| regionId := NumberId 1;
                          regionPolygon := [(0, 0); (10, 0); (10, 10); (0, 10); (0, 0)] |}
                       eq_refl eq_refl eq_refl eq_refl eq_refl Hsquare)
                {| buttons := 1; shiftKey := false; eventPosition := Some (-(20), 1) |}
                (-(20), 1) eq_refl eq_refl eq_refl)
      as (edited' & He & _ & _ & _ & Hpolygon).
    destruct (Hpolygon (1, 1) eq_refl eq_refl) as (_ & Hrejected & _).
    exists edited'. split; [exact He |]. apply Hrejected.
    intro H. inversion H as [| p rest Hp _]. destruct Hp as (Hx & _).
    vm_compute in Hx. apply Hx. reflexivity.
Defined.

(** * Further properties *)

(** ** [getSize] *)

(** X1: on a polygon that has a point, [getSize] gives the exact extent of
    the polygon: a width and a height that are not negative, that no two
    points exceed in their difference of abscissa and of ordinate, and that
    two points of the polygon attain. *)
Theorem getSize_extent (polygon : Polygon) :
  polygon <> [] ->
  exists w h,
    getSize polygon = (Value w, Value h) /\ 0 <= w /\ 0 <= h /\
    (forall p q, In p polygon -> In q polygon ->
                 fst p - fst q <= w /\ snd p - snd q <= h) /\
    (exists p q, In p polygon /\ In q polygon /\ fst p - fst q == w) /\
    (exists p q, In p polygon /\ In q polygon /\ snd p - snd q == h).
Proof.
  intro Hne. destruct polygon as [| first rest]; [congruence |].
  destruct (getSize_cons first rest)
    as (minX & maxX & minY & maxY & E & [L1 (a1 & A1 & E1)] & [U1 (b1 & B1 & F1)]
        & [L2 (a2 & A2 & E2)] & [U2 (b2 & B2 & F2)]).
  set (l := first :: rest) in *.
  exists (maxX - minX), (maxY - minY). split; [exact E |].
  assert (Hx : forall p, In p l -> minX <= fst p /\ fst p <= maxX).
  { intros p Hp. split; [apply L1 | apply U1]; now apply in_map. }
  assert (Hy : forall p, In p l -> minY <= snd p /\ snd p <= maxY).
  { intros p Hp. split; [apply L2 | apply U2]; now apply in_map. }
  apply in_map_iff in A1 as (pa1 & <- & Pa1). apply in_map_iff in B1 as (pb1 & <- & Pb1).
  apply in_map_iff in A2 as (pa2 & <- & Pa2). apply in_map_iff in B2 as (pb2 & <- & Pb2).
  split; [destruct (Hx pa1 Pa1); lra |].
  split; [destruct (Hy pa2 Pa2); lra |].
  split; [| split].
  - intros p q Hp Hq.
    destruct (Hx p Hp), (Hx q Hq), (Hy p Hp), (Hy q Hq). split; lra.
  - exists pb1, pa1. repeat split; try assumption. lra.
  - exists pb2, pa2. repeat split; try assumption. lra.
Qed.

Lemma getSize_extent_witness :
  exists w h,
    getSize [(3, 7); (10, 2); (6, 12)] = (Value w, Value h) /\ w == 7 /\ h == 10.
Proof.
  destruct (getSize_extent [(3, 7); (10, 2); (6, 12)])
    as (w & h & E & _ & _ & Hall & (p & q & Hp & Hq & Ew) & (p' & q' & Hp' & Hq' & Eh)).
  - discriminate.
  - exists w, h. split; [exact E |].
    assert (Hw : 10 - 3 <= w) by (apply (Hall (10, 2) (3, 7)); simpl; tauto).
    assert (Hh : 12 - 2 <= h) by (apply (Hall (6, 12) (10, 2)); simpl; tauto).
    split.
    + simpl in Hp, Hq.
      destruct Hp as [<- | [<- | [<- | []]]], Hq as [<- | [<- | [<- | []]]];
        simpl in Ew; lra.
    + simpl in Hp', Hq'.
      destruct Hp' as [<- | [<- | [<- | []]]], Hq' as [<- | [<- | [<- | []]]];
        simpl in Eh; lra.
Defined.

(** ** [polygonsEqual] *)

Lemma isEqual_refl (polygon : Polygon) : isEqual polygon polygon = true.
Proof.
  induction polygon as [| p l IH]; [reflexivity |].
  simpl. now rewrite pointsEqual_refl, IH.
Qed.

Lemma isEqual_iff (polygon1 polygon2 : Polygon) :
  isEqual polygon1 polygon2 = true <-> Forall2 samePoint polygon1 polygon2.
Proof.
  revert polygon2. induction polygon1 as [| p l IH]; intros [| q l']; simpl.
  - split; [constructor | reflexivity].
  - split; [discriminate | intro H; inversion H].
  - split; [discriminate | intro H; inversion H].
  - rewrite andb_true_iff, pointsEqual_iff, IH. split.
    + intros [H1 H2]. now constructor.
    + intro H. inversion H; subst. tauto.
Qed.

Lemma checkPolygon_result_checked (polygon : RawPolygon) (checked : Polygon) (minSize : Q) :
  checkPolygon polygon minSize = Return checked ->
  checkPolygon (rawPolygon checked) minSize = Return checked.
Proof.
  unfold checkPolygon at 1.
  destruct (checkPoints 0 polygon) as [points | e]; [| discriminate].
  intro H. rewrite checkPolygon_rawPolygon.
  exact (checkFinitePolygon_idempotent _ _ _ H).
Qed.

(** X2: a polygon that [checkPolygon] accepts is equal, for
    [polygonsEqual], to the sanitized polygon [checkPolygon] returns for
    it, on either side, and to itself. *)
Theorem polygonsEqual_sanitized (polygon : RawPolygon) (checked : Polygon) :
  checkPolygon polygon POLYGON_MIN_SIZE = Return checked ->
  polygonsEqual polygon (rawPolygon checked) = Return true /\
  polygonsEqual (rawPolygon checked) polygon = Return true /\
  polygonsEqual polygon polygon = Return true.
Proof.
  intro H. pose proof (checkPolygon_result_checked _ _ _ H) as H'.
  unfold polygonsEqual. rewrite H, H', isEqual_refl. repeat split.
Qed.

Lemma polygonsEqual_sanitized_witness :
  polygonsEqual
    (rawPolygon [(0, 0); (0, 0); (10 + (4 # 10), 0); (10, 10); (0, 10)])
    (rawPolygon [(0, 0); (10, 0); (10, 10); (0, 10)])
  = Return true.
Proof.
  apply (polygonsEqual_sanitized
           (rawPolygon [(0, 0); (0, 0); (10 + (4 # 10), 0); (10, 10); (0, 10)])
           [(0, 0); (10, 0); (10, 10); (0, 10)]).
  vm_compute. reflexivity.
Defined.

(** X3: [polygonsEqual] returns a boolean exactly when [checkPolygon]
    accepts both polygons, and throws what the first refused polygon makes
    [checkPolygon] throw otherwise.  Where it returns, it is symmetric and
    transitive, and two polygons are equal when their sanitized forms have
    the same points in the same order. *)
Theorem polygonsEqual_equivalence (polygon1 polygon2 polygon3 : RawPolygon) :
  (forall e, checkPolygon polygon1 POLYGON_MIN_SIZE = Throw e ->
             polygonsEqual polygon1 polygon2 = Throw e) /\
  (forall checked1 e,
     checkPolygon polygon1 POLYGON_MIN_SIZE = Return checked1 ->
     checkPolygon polygon2 POLYGON_MIN_SIZE = Throw e ->
     polygonsEqual polygon1 polygon2 = Throw e) /\
  (forall checked1 checked2,
     checkPolygon polygon1 POLYGON_MIN_SIZE = Return checked1 ->
     checkPolygon polygon2 POLYGON_MIN_SIZE = Return checked2 ->
     exists equal,
       polygonsEqual polygon1 polygon2 = Return equal /\
       polygonsEqual polygon2 polygon1 = Return equal /\
       (equal = true <-> Forall2 samePoint checked1 checked2)) /\
  (polygonsEqual polygon1 polygon2 = Return true ->
   polygonsEqual polygon2 polygon3 = Return true ->
   polygonsEqual polygon1 polygon3 = Return true).
Proof.
  unfold polygonsEqual. split; [| split; [| split]].
  - intros e ->. reflexivity.
  - intros checked1 e -> ->. reflexivity.
  - intros checked1 checked2 -> ->. exists (isEqual checked1 checked2).
    split; [reflexivity |]. split; [| apply isEqual_iff].
    f_equal.
    destruct (isEqual checked1 checked2) eqn:E1, (isEqual checked2 checked1) eqn:E2;
      try reflexivity.
    + apply isEqual_iff in E1.
      assert (isEqual checked2 checked1 = true); [| congruence].
      apply isEqual_iff. clear E2. induction E1; constructor; auto using samePoint_sym.
    + apply isEqual_iff in E2.
      assert (isEqual checked1 checked2 = true); [| congruence].
      apply isEqual_iff. clear E1. induction E2; constructor; auto using samePoint_sym.
  - destruct (checkPolygon polygon1 POLYGON_MIN_SIZE) as [c1 | e1]; [| discriminate].
    destruct (checkPolygon polygon2 POLYGON_MIN_SIZE) as [c2 | e2]; [| discriminate].
    destruct (checkPolygon polygon3 POLYGON_MIN_SIZE) as [c3 | e3]; [| discriminate].
    intros H12 H23. injection H12 as H12. injection H23 as H23. f_equal.
    apply isEqual_iff in H12, H23. apply isEqual_iff.
    clear - H12 H23. revert c3 H23.
    induction H12 as [| p q l l' Hpq _ IH]; intros c3 H23; inversion H23; subst;
      constructor; eauto using samePoint_trans.
Qed.

(** ** [boundingBox] *)

Lemma restrict_value (limit q : Q) :
  0 <= limit ->
  0 <= restrict limit (Value q) /\ restrict limit (Value q) <= limit /\
  (0 <= q -> q <= limit -> restrict limit (Value q) == q) /\
  (q <= 0 -> restrict limit (Value q) == 0) /\
  (limit <= q -> restrict limit (Value q) == limit).
Proof.
  intro H. unfold restrict.
  destruct (Q.max_spec q 0) as [[A B] | [A B]];
    destruct (Q.min_spec limit (Qmax q 0)) as [[C D] | [C D]];
    rewrite D; rewrite ?B in *; repeat split; intros; lra.
Qed.

Lemma restrict_monotone (limit a b : Q) :
  a <= b -> restrict limit (Value a) <= restrict limit (Value b).
Proof.
  intro H. unfold restrict.
  apply Q.min_le_compat_l. apply Q.max_le_compat_r. exact H.
Qed.

Lemma invalidDimensions_false (image : Image) :
  0 < imageWidth image -> 0 < imageHeight image ->
  (Qle_bool (imageWidth image) 0 || Qle_bool (imageHeight image) 0)%bool = false.
Proof.
  intros Hw Hh. apply orb_false_iff. split.
  - destruct (Qle_bool (imageWidth image) 0) eqn:E; [| reflexivity].
    apply Qle_bool_iff in E. lra.
  - destruct (Qle_bool (imageHeight image) 0) eqn:E; [| reflexivity].
    apply Qle_bool_iff in E. lra.
Qed.

(** A box within an image. *)
Definition withinImage (image : Image) (box : Box) : Prop :=
  0 <= boxX box /\ 0 <= boxY box /\ 0 <= boxWidth box /\ 0 <= boxHeight box /\
  boxX box + boxWidth box <= imageWidth image /\
  boxY box + boxHeight box <= imageHeight image.

(** X4: for an element whose image has positive dimensions, [boundingBox]
    returns; unless the polygon is the empty array the box lies within
    the image, with a width and a height that are not negative, and holds
    every point of the polygon that is itself within the image.  On the
    empty array the box sits at the far corner of the image with the
    opposite of its width and height. *)
Theorem boundingBox_within_image (element : Element) (image : Image) :
  elementImage element = Some image ->
  0 < imageWidth image -> 0 < imageHeight image ->
  exists box,
    boundingBox element = Return box /\
    (elementPolygon element <> Some [] ->
     withinImage image box /\
     forall polygon p,
       elementPolygon element = Some polygon -> In p polygon ->
       0 <= fst p -> fst p <= imageWidth image ->
       0 <= snd p -> snd p <= imageHeight image ->
       withinBox box p) /\
    (elementPolygon element = Some [] ->
     box = {| boxX := imageWidth image; boxY := imageHeight image;
              boxWidth := 0 - imageWidth image; boxHeight := 0 - imageHeight image |}).
Proof.
  intros Hi Hw Hh. unfold boundingBox. rewrite Hi.
  rewrite (invalidDimensions_false image Hw Hh).
  destruct (elementPolygon element) as [[| first rest] |] eqn:Hp.
  - (* the empty array *)
    eexists. split; [reflexivity |].
    split; [intro H; exfalso; apply H; reflexivity |]. intros _.
    unfold restrict. simpl Math_min. simpl Math_max. cbv iota.
    assert (E1 : Qmin (imageWidth image) 0 = 0).
    { unfold Qmin, GenericMinMax.gmin. destruct (imageWidth image ?= 0) eqn:E;
        try reflexivity; [apply Qeq_alt in E | apply Qlt_alt in E]; lra. }
    assert (E2 : Qmin (imageHeight image) 0 = 0).
    { unfold Qmin, GenericMinMax.gmin. destruct (imageHeight image ?= 0) eqn:E;
        try reflexivity; [apply Qeq_alt in E | apply Qlt_alt in E]; lra. }
    rewrite E1, E2. reflexivity.
  - (* a polygon with a point *)
    eexists. split; [reflexivity |]. split; [| discriminate]. intros _.
    set (l := first :: rest) in *.
    assert (Ex : exists minX maxX, Math_min (map fst l) = Value minX /\
                                   Math_max (map fst l) = Value maxX /\
                                   isMin (map fst l) minX /\ isMax (map fst l) maxX).
    { do 2 eexists. split; [reflexivity |]. split; [reflexivity |].
      split; [apply fold_Qmin_isMin | apply fold_Qmax_isMax]. }
    assert (Ey : exists minY maxY, Math_min (map snd l) = Value minY /\
                                   Math_max (map snd l) = Value maxY /\
                                   isMin (map snd l) minY /\ isMax (map snd l) maxY).
    { do 2 eexists. split; [reflexivity |]. split; [reflexivity |].
      split; [apply fold_Qmin_isMin | apply fold_Qmax_isMax]. }
    destruct Ex as (minX & maxX & -> & -> & [Lx (ax & Ax & Eax)] & [Ux _]).
    destruct Ey as (minY & maxY & -> & -> & [Ly (ay & Ay & Eay)] & [Uy _]).
    assert (Hxs : minX <= maxX) by (pose proof (Lx ax Ax); pose proof (Ux ax Ax); lra).
    assert (Hys : minY <= maxY) by (pose proof (Ly ay Ay); pose proof (Uy ay Ay); lra).
    pose proof (restrict_value (imageWidth image) minX ltac:(lra)) as (A1 & A2 & A3 & _).
    pose proof (restrict_value (imageWidth image) maxX ltac:(lra)) as (B1 & B2 & B3 & _).
    pose proof (restrict_value (imageHeight image) minY ltac:(lra)) as (C1 & C2 & C3 & _).
    pose proof (restrict_value (imageHeight image) maxY ltac:(lra)) as (D1 & D2 & D3 & _).
    pose proof (restrict_monotone (imageWidth image) _ _ Hxs) as Mx.
    pose proof (restrict_monotone (imageHeight image) _ _ Hys) as My.
    split.
    + unfold withinImage. cbn [boxX boxY boxWidth boxHeight]. repeat split; lra.
    + intros polygon p Hpoly Hin H1 H2 H3 H4. injection Hpoly as <-.
      unfold withinBox. cbn [boxX boxY boxWidth boxHeight].
      pose proof (Lx (fst p) (in_map fst _ _ Hin)) as P1.
      pose proof (Ux (fst p) (in_map fst _ _ Hin)) as P2.
      pose proof (Ly (snd p) (in_map snd _ _ Hin)) as P3.
      pose proof (Uy (snd p) (in_map snd _ _ Hin)) as P4.
      pose proof (restrict_monotone (imageWidth image) _ _ P1) as Q1.
      pose proof (restrict_monotone (imageWidth image) _ _ P2) as Q2.
      pose proof (restrict_monotone (imageHeight image) _ _ P3) as Q3.
      pose proof (restrict_monotone (imageHeight image) _ _ P4) as Q4.
      pose proof (restrict_value (imageWidth image) (fst p) ltac:(lra)) as (_ & _ & R1 & _).
      pose proof (restrict_value (imageHeight image) (snd p) ltac:(lra)) as (_ & _ & R2 & _).
      specialize (R1 H1 H2). specialize (R2 H3 H4).
      repeat split; lra.
  - (* no polygon: the whole image *)
    eexists. split; [reflexivity |]. split; [| discriminate]. intros _.
    cbn [Math_min Math_max fold_left].
    assert (E1 : Qmin 0 (imageWidth image) == 0) by (apply Q.min_l; lra).
    assert (E2 : Qmax 0 (imageWidth image) == imageWidth image) by (apply Q.max_r; lra).
    assert (E3 : Qmin 0 (imageHeight image) == 0) by (apply Q.min_l; lra).
    assert (E4 : Qmax 0 (imageHeight image) == imageHeight image) by (apply Q.max_r; lra).
    pose proof (restrict_value (imageWidth image) (Qmin 0 (imageWidth image)) ltac:(lra))
      as (A1 & A2 & A3 & _).
    pose proof (restrict_value (imageWidth image) (Qmax 0 (imageWidth image)) ltac:(lra))
      as (B1 & B2 & B3 & _).
    pose proof (restrict_value (imageHeight image) (Qmin 0 (imageHeight image)) ltac:(lra))
      as (C1 & C2 & C3 & _).
    pose proof (restrict_value (imageHeight image) (Qmax 0 (imageHeight image)) ltac:(lra))
      as (D1 & D2 & D3 & _).
    specialize (A3 ltac:(lra) ltac:(lra)). specialize (B3 ltac:(lra) ltac:(lra)).
    specialize (C3 ltac:(lra) ltac:(lra)). specialize (D3 ltac:(lra) ltac:(lra)).
    split.
    + unfold withinImage. cbn [boxX boxY boxWidth boxHeight]. repeat split; lra.
    + intros polygon p Hpoly. discriminate.
Qed.

Lemma boundingBox_within_image_witness :
  exists box,
    boundingBox {| elementImage := Some page100;
                   elementPolygon := Some [(-(20), 30); (50, 130); (70, 60)] |}
    = Return box /\
    withinImage page100 box /\ withinBox box (70, 60).
Proof.
  destruct (boundingBox_within_image
              {| elementImage := Some page100;
                 elementPolygon := Some [(-(20), 30); (50, 130); (70, 60)] |}
              page100 eq_refl)
    as (box & E & H & _).
  - reflexivity.
  - reflexivity.
  - destruct H as [Hw Hp]; [discriminate |].
    exists box. split; [exact E |]. split; [exact Hw |].
    apply (Hp [(-(20), 30); (50, 130); (70, 60)]);
      [reflexivity | simpl; tauto | | | |]; vm_compute; discriminate.
Defined.

(** With [imageBounds] left at [true], [boundingBoxWith] is [boundingBox]. *)
Lemma boundingBoxWith_default (element : Element) :
  boundingBoxWith true element
  = match boundingBox element with
    | Return box => Return (finiteBox box)
    | Throw e => Throw e
    end.
Proof.
  unfold boundingBoxWith, boundingBox.
  destruct (elementPolygon element) as [polygon |], (elementImage element) as [image |];
    try reflexivity;
    destruct (Qle_bool (imageWidth image) 0 || Qle_bool (imageHeight image) 0)%bool;
    reflexivity.
Qed.

(** X5: without image bounds, [boundingBox] needs no image and returns the
    exact extent of a polygon that has a point: the least abscissa and
    ordinate, and the differences to the greatest.  When the element has an
    image with positive dimensions that holds every point of the polygon,
    bounding the box by the image changes none of its four numbers. *)
Theorem boundingBox_image_bounds (element : Element) (polygon : Polygon) :
  elementPolygon element = Some polygon -> polygon <> [] ->
  exists minX maxX minY maxY,
    isMin (map fst polygon) minX /\ isMax (map fst polygon) maxX /\
    isMin (map snd polygon) minY /\ isMax (map snd polygon) maxY /\
    boundingBoxWith false element
    = Return {| numberBoxX := Finite minX; numberBoxY := Finite minY;
                numberBoxWidth := Finite (maxX - minX);
                numberBoxHeight := Finite (maxY - minY) |} /\
    forall image,
      elementImage element = Some image ->
      0 < imageWidth image -> 0 < imageHeight image ->
      Forall (fun p => 0 <= fst p /\ fst p <= imageWidth image /\
                       0 <= snd p /\ snd p <= imageHeight image) polygon ->
      exists box,
        boundingBox element = Return box /\
        boundingBoxWith true element = Return (finiteBox box) /\
        boxX box == minX /\ boxY box == minY /\
        boxWidth box == maxX - minX /\ boxHeight box == maxY - minY.
Proof.
  intros Hp Hne. destruct polygon as [| first rest]; [congruence |].
  set (l := first :: rest) in *.
  exists (fold_left Qmin (map fst rest) (fst first)),
         (fold_left Qmax (map fst rest) (fst first)),
         (fold_left Qmin (map snd rest) (snd first)),
         (fold_left Qmax (map snd rest) (snd first)).
  pose proof (fold_Qmin_isMin (map fst rest) (fst first)) as Ix.
  pose proof (fold_Qmax_isMax (map fst rest) (fst first)) as Ax.
  pose proof (fold_Qmin_isMin (map snd rest) (snd first)) as Iy.
  pose proof (fold_Qmax_isMax (map snd rest) (snd first)) as Ay.
  set (minX := fold_left Qmin (map fst rest) (fst first)) in *.
  set (maxX := fold_left Qmax (map fst rest) (fst first)) in *.
  set (minY := fold_left Qmin (map snd rest) (snd first)) in *.
  set (maxY := fold_left Qmax (map snd rest) (snd first)) in *.
  change (fst first :: map fst rest) with (map fst l) in *.
  change (snd first :: map snd rest) with (map snd l) in *.
  split; [exact Ix |]. split; [exact Ax |]. split; [exact Iy |]. split; [exact Ay |].
  split.
  { unfold boundingBoxWith. rewrite Hp. reflexivity. }
  intros image Hi Hw Hh Hall.
  assert (Hb : boundingBox element
               = Return {| boxX := restrict (imageWidth image) (Value minX);
                           boxY := restrict (imageHeight image) (Value minY);
                           boxWidth := restrict (imageWidth image) (Value maxX)
                                       - restrict (imageWidth image) (Value minX);
                           boxHeight := restrict (imageHeight image) (Value maxY)
                                        - restrict (imageHeight image) (Value minY) |}).
  { unfold boundingBox. rewrite Hp, Hi, (invalidDimensions_false image Hw Hh). reflexivity. }
  eexists. split; [exact Hb |].
  split; [rewrite boundingBoxWith_default, Hb; reflexivity |].
  cbn [boxX boxY boxWidth boxHeight].
  rewrite Forall_forall in Hall.
  destruct Ix as [_ (px & Hpx & Epx)]. destruct Ax as [_ (qx & Hqx & Eqx)].
  destruct Iy as [_ (py & Hpy & Epy)]. destruct Ay as [_ (qy & Hqy & Eqy)].
  apply in_map_iff in Hpx as (a & <- & Ha). apply in_map_iff in Hqx as (b & <- & Hb').
  apply in_map_iff in Hpy as (c & <- & Hc). apply in_map_iff in Hqy as (d & <- & Hd).
  destruct (Hall a Ha) as (? & ? & _ & _). destruct (Hall b Hb') as (? & ? & _ & _).
  destruct (Hall c Hc) as (_ & _ & ? & ?). destruct (Hall d Hd) as (_ & _ & ? & ?).
  pose proof (restrict_value (imageWidth image) minX ltac:(lra)) as (_ & _ & R1 & _).
  pose proof (restrict_value (imageWidth image) maxX ltac:(lra)) as (_ & _ & R2 & _).
  pose proof (restrict_value (imageHeight image) minY ltac:(lra)) as (_ & _ & R3 & _).
  pose proof (restrict_value (imageHeight image) maxY ltac:(lra)) as (_ & _ & R4 & _).
  specialize (R1 ltac:(lra) ltac:(lra)). specialize (R2 ltac:(lra) ltac:(lra)).
  specialize (R3 ltac:(lra) ltac:(lra)). specialize (R4 ltac:(lra) ltac:(lra)).
  repeat split; lra.
Qed.

Lemma boundingBox_image_bounds_witness :
  exists minX maxX minY maxY,
    isMin [-(20); 50; 70] minX /\ isMax [-(20); 50; 70] maxX /\
    isMin [30; 130; 60] minY /\ isMax [30; 130; 60] maxY /\
    boundingBoxWith false
      {| elementImage := None; elementPolygon := Some [(-(20), 30); (50, 130); (70, 60)] |}
    = Return {| numberBoxX := Finite minX; numberBoxY := Finite minY;
                numberBoxWidth := Finite (maxX - minX);
                numberBoxHeight := Finite (maxY - minY) |}.
Proof.
  destruct (boundingBox_image_bounds
              {| elementImage := None;
                 elementPolygon := Some [(-(20), 30); (50, 130); (70, 60)] |}
              [(-(20), 30); (50, 130); (70, 60)] eq_refl)
    as (minX & maxX & minY & maxY & H1 & H2 & H3 & H4 & E & _).
  - discriminate.
  - exists minX, maxX, minY, maxY. repeat split; try assumption; apply H1 || apply H2 || apply H3 || apply H4.
Defined.

(** ** [iiifUri]: errors, the URL of the image and the size asked for *)

Lemma length_append (a b : string) :
  String.length (a ++ b) = (String.length a + String.length b)%nat.
Proof. induction a as [| c a IH]; simpl; [reflexivity | now rewrite IH]. Qed.

Lemma substring_append_tail (a b : string) :
  substring (String.length a) (String.length b) (a ++ b) = b.
Proof.
  induction a as [| c a IH]; simpl.
  - induction b as [| d b IHb]; simpl; [reflexivity | now rewrite IHb].
  - exact IH.
Qed.

Lemma endsWith_append (a suffix : string) : endsWith (a ++ suffix) suffix = true.
Proof.
  unfold endsWith. rewrite length_append.
  replace (String.length a + String.length suffix - String.length suffix)%nat
    with (String.length a) by lia.
  rewrite substring_append_tail, String.eqb_refl.
  apply andb_true_iff. split; [apply Nat.leb_le; lia | reflexivity].
Qed.

Lemma append_not_empty (a b : string) : b <> ""%string -> (a ++ b)%string <> ""%string.
Proof. destruct a; simpl; [tauto | discriminate]. Qed.

(** The element with another URL for its image. *)
Definition withImageUrl (url : string) (element : Element) : Element :=
  {| elementImage :=
       match elementImage element with
       | Some image => Some {| imageWidth := imageWidth image;
                               imageHeight := imageHeight image; imageUrl := url |}
       | None => None
       end;
     elementPolygon := elementPolygon element |}.

Lemma boundingBox_withImageUrl (url : string) (element : Element) :
  boundingBox (withImageUrl url element) = boundingBox element.
Proof.
  unfold boundingBox, withImageUrl. cbn [elementImage elementPolygon].
  destruct (elementPolygon element), (elementImage element); reflexivity.
Qed.

Section IiifUriMore.

Variable fractionToString : Q -> string.

(** X6: a slash at the end of the URL of the image makes no difference:
    for an image whose URL is not empty and does not end with a slash,
    [iiifUri] returns, or throws, the same with the slash added to it. *)
Theorem iiifUri_trailing_slash (element : Element) (image : Image)
    (width height : option Q) :
  elementImage element = Some image ->
  imageUrl image <> ""%string -> endsWith (imageUrl image) "/" = false ->
  iiifUri fractionToString (withImageUrl (imageUrl image ++ "/") element) width height
  = iiifUri fractionToString element width height.
Proof.
  intros Hi Hne Hends. unfold iiifUri.
  rewrite boundingBox_withImageUrl.
  unfold withImageUrl at 1 2. cbn [elementImage elementPolygon]. rewrite Hi.
  cbn [imageWidth imageHeight imageUrl].
  destruct (Qle_bool (imageWidth image) 0 || Qle_bool (imageHeight image) 0)%bool;
    [reflexivity |].
  apply String.eqb_neq in Hne. rewrite Hne.
  assert (Hne' : String.eqb (imageUrl image ++ "/") "" = false).
  { apply String.eqb_neq, append_not_empty. discriminate. }
  rewrite Hne'. cbv zeta. rewrite Hends, endsWith_append. reflexivity.
Qed.

End IiifUriMore.

Lemma iiifUri_trailing_slash_witness :
  iiifUri (fun _ => "?"%string)
    {| elementImage := Some {| imageWidth := 100; imageHeight := 100;
                               imageUrl := "http://x/img/" |};
       elementPolygon := None |} (Some 50) None
  = Return "http://x/img/full/50,/0/default.jpg"%string.
Proof.
  refine (eq_trans
            (iiifUri_trailing_slash (fun _ => "?"%string)
               {| elementImage := Some page100; elementPolygon := None |}
               page100 (Some 50) None eq_refl _ _) _).
  - discriminate.
  - reflexivity.
  - reflexivity.
Defined.






Section IiifUriSize.

Variable fractionToString : Q -> string.


End IiifUriSize.


Section IiifUriErrors.

Variable fractionToString : Q -> string.

(** X8: [iiifUri] returns a URI exactly when the element has an image
    with positive dimensions and a URL that is not empty: the bounding box
    it computes for a polygon never throws then.  Otherwise it throws the
    error of the first of these three requirements that is not met. *)
Theorem iiifUri_returns_iff (element : Element) (width height : option Q) :
  ((exists uri, iiifUri fractionToString element width height = Return uri) <->
   exists image, elementImage element = Some image /\ validImage image) /\
  (elementImage element = None ->
   iiifUri fractionToString element width height = Throw (Error "An image is required.")) /\
  (forall image,
     elementImage element = Some image ->
     imageWidth image <= 0 \/ imageHeight image <= 0 ->
     iiifUri fractionToString element width height
     = Throw (Error "An image with valid dimensions is required.")) /\
  (forall image,
     elementImage element = Some image ->
     0 < imageWidth image -> 0 < imageHeight image -> imageUrl image = ""%string ->
     iiifUri fractionToString element width height
     = Throw (Error "An image with a valid URL is required.")).
Proof.
  assert (H1 : elementImage element = None ->
               iiifUri fractionToString element width height
               = Throw (Error "An image is required.")).
  { intro Hi. unfold iiifUri. now rewrite Hi. }
  assert (H2 : forall image,
             elementImage element = Some image ->
             imageWidth image <= 0 \/ imageHeight image <= 0 ->
             iiifUri fractionToString element width height
             = Throw (Error "An image with valid dimensions is required.")).
  { intros image Hi Hd. unfold iiifUri. rewrite Hi.
    assert (E : (Qle_bool (imageWidth image) 0 || Qle_bool (imageHeight image) 0)%bool = true).
    { apply orb_true_iff. destruct Hd as [Hd | Hd]; [left | right]; now apply Qle_bool_iff. }
    now rewrite E. }
  assert (H3 : forall image,
             elementImage element = Some image ->
             0 < imageWidth image -> 0 < imageHeight image -> imageUrl image = ""%string ->
             iiifUri fractionToString element width height
             = Throw (Error "An image with a valid URL is required.")).
  { intros image Hi Hw Hh Hu. unfold iiifUri.
    rewrite Hi, (invalidDimensions_false image Hw Hh), Hu. reflexivity. }
  split; [| tauto]. split.
  - intros [uri E]. destruct (elementImage element) as [image |] eqn:Hi.
    + exists image. split; [reflexivity |]. unfold validImage.
      destruct (Qlt_le_dec 0 (imageWidth image)) as [Hw | Hw];
        [| rewrite (H2 image eq_refl (or_introl Hw)) in E; discriminate].
      destruct (Qlt_le_dec 0 (imageHeight image)) as [Hh | Hh];
        [| rewrite (H2 image eq_refl (or_intror Hh)) in E; discriminate].
      repeat split; [assumption | assumption |].
      intro Hu. rewrite (H3 image eq_refl Hw Hh Hu) in E. discriminate.
    + rewrite (H1 eq_refl) in E. discriminate.
  - intros (image & Hi & Hv).
    rewrite (iiifUri_unfold fractionToString element image width height Hi Hv).
    eexists. reflexivity.
Qed.

End IiifUriErrors.

(** ** The selection: selecting, unselecting, toggling *)

Lemma includes_app (id : Id) (ids more : list Id) :
  includes id (ids ++ more) = (includes id ids || includes id more)%bool.
Proof. unfold includes. apply existsb_app. Qed.

Lemma includes_self (id : Id) (ids : list Id) : includes id (ids ++ [id]) = true.
Proof.
  rewrite includes_app. unfold includes at 2. simpl. rewrite Id_eqb_refl.
  now rewrite orb_true_r.
Qed.

(** The state once [id] has entered the selection: one [select-element]
    event was dispatched, and the edited element was dropped unless it is
    the one selected. *)
Definition selectedWith (id : Id) (s : State) : State :=
  mkState (mode s) (selected s ++ [id]) (highlighted s) (hovered s)
    (parsedElement s) (parsedChildren s)
    (if editedIs id s then editedElement s else None)
    (movedPointIndex s) (mouseDown s) (lastMousePosition s) (updatedPolygon s)
    (cancelled s) (viewPosition s) (tool s)
    (dispatched s ++ [SelectElement id]).

Lemma addSelected_selectedWith (id : Id) (force : bool) (fuel : nat) (s : State) :
  includes id (selected s) = false ->
  (force || isSelectMode (mode s))%bool = true ->
  addSelected (S fuel) id force s = selectedWith id s.
Proof.
  intros Hinc Hguard. cbn [addSelected]. rewrite Hinc.
  assert (G : (negb force && negb (isSelectMode (mode s)))%bool = false).
  { destruct force, (isSelectMode (mode s)); simpl in *; congruence. }
  rewrite G. cbn [orb].
  assert (E : forall t, includes id (selected t) = true -> addSelected fuel id true t = t).
  { intros t Ht. destruct fuel; cbn [addSelected]; now rewrite Ht. }
  rewrite E by (destruct s; simpl; apply includes_self).
  unfold selectedWith, editedIs.
  destruct s as [m ids hl hv pe pc [edited |] mi md lp up ca vp tl ev]; cbn;
    [| reflexivity].
  destruct (Id_eqb (regionId edited) id); reflexivity.
Qed.

Lemma addSelected_ignored (id : Id) (force : bool) (fuel : nat) (s : State) :
  (includes id (selected s) || (negb force && negb (isSelectMode (mode s))))%bool = true ->
  addSelected fuel id force s = s.
Proof. intro H. destruct fuel; cbn [addSelected]; now rewrite H. Qed.

Lemma removeSelected_force (id : Id) (fuel : nat) (s : State) :
  isSelectMode (mode s) = true ->
  removeSelected fuel id false s = removeSelected fuel id true s.
Proof.
  intro H. destruct fuel; cbn [removeSelected]; rewrite H; reflexivity.
Qed.

Lemma removeSelected_ignored (id : Id) (force : bool) (fuel : nat) (s : State) :
  (negb (includes id (selected s)) || (negb force && negb (isSelectMode (mode s))))%bool
  = true ->
  removeSelected fuel id force s = s.
Proof. intro H. destruct fuel; cbn [removeSelected]; now rewrite H. Qed.

Lemma countId_app (id : Id) (ids more : list Id) :
  countId id (ids ++ more) = (countId id ids + countId id more)%nat.
Proof. unfold countId. now rewrite filter_app, length_app. Qed.

Lemma countId_not_included (id : Id) (ids : list Id) :
  includes id ids = false -> countId id ids = 0%nat.
Proof.
  intro H. destruct (countId id ids) eqn:E; [reflexivity |].
  assert (includes id ids = true) by (apply includes_countId; lia). congruence.
Qed.

Lemma without_app (id : Id) (ids more : list Id) :
  without id (ids ++ more) = without id ids ++ without id more.
Proof. unfold without. apply filter_app. Qed.

Lemma countId_without (other id : Id) (ids : list Id) :
  other <> id -> countId other (without id ids) = countId other ids.
Proof.
  intro Hne. unfold countId, without.
  induction ids as [| x rest IH]; [reflexivity |]. cbn [filter].
  destruct (Id_eqb id x) eqn:E1; cbn [negb].
  - apply Id_eqb_eq in E1. subst x.
    destruct (Id_eqb other id) eqn:E2; [apply Id_eqb_eq in E2; contradiction |].
    exact IH.
  - cbn [filter]. destruct (Id_eqb other x); cbn [length]; now rewrite IH.
Qed.

Lemma removeSelectedElement_fields (id : Id) (s : State) :
  selected (removeSelectedElement id true s) = without id (selected s) /\
  dispatched (removeSelectedElement id true s)
  = dispatched s ++ repeat (UnselectElement id) (countId id (selected s)).
Proof.
  rewrite removeSelectedElement_unselected.
  destruct (unselected_fields id s) as (_ & U2 & _).
  split; [exact U2 |].
  unfold unselected. destruct (includes id (selected s)) eqn:Hinc; [reflexivity |].
  rewrite (countId_not_included _ _ Hinc). cbn [repeat]. now rewrite app_nil_r.
Qed.

(** X9: [removeSelectedElement] takes every occurrence of the id out of
    the selection, not only the first one [splice] removes: each
    [unselect-element] event it dispatches comes back to the listener of
    the component, which removes the next occurrence.  The other ids keep
    their order, one event is dispatched for each occurrence, and the
    edited element is dropped if it has this id.  An id that is not
    selected changes nothing. *)
Theorem removeSelectedElement_every_occurrence (id : Id) (s : State) :
  let s' := removeSelectedElement id true s in
  selected s' = without id (selected s) /\
  includes id (selected s') = false /\
  (forall other, other <> id -> countId other (selected s') = countId other (selected s)) /\
  dispatched s'
  = dispatched s ++ repeat (UnselectElement id) (countId id (selected s)) /\
  editedElement s'
  = (if (includes id (selected s) && editedIs id s)%bool then None else editedElement s) /\
  (includes id (selected s) = false -> s' = s).
Proof.
  intro s'. subst s'.
  destruct (removeSelectedElement_fields id s) as [U2 U6].
  rewrite removeSelectedElement_unselected in *.
  destruct (unselected_fields id s) as (_ & _ & _ & _ & U5).
  split; [exact U2 |]. split; [rewrite U2; apply includes_without |].
  split.
  { intros other Hne. rewrite U2. now apply countId_without. }
  split; [exact U6 |].
  split; [exact U5 |].
  intro Hinc. unfold unselected. now rewrite Hinc.
Qed.

(** X10: the [setMode] action ignores a mode that is not one of
    [display], [select] and [create].  For one of these it sets the mode
    and empties the selection and the highlighted ids, whatever the mode
    (the selection is emptied without [force], which an empty array does
    not need), and the hovered id becomes the empty string.  No event tells
    the application of the ids that left the selection, and the edited
    element and the regions are left as they are. *)
Theorem setElementMode_clears (name : string) (s : State) :
  (modeOfString name = None <->
   name <> "display"%string /\ name <> "select"%string /\ name <> "create"%string) /\
  (modeOfString name = None -> setElementMode name s = s) /\
  (forall m, modeOfString name = Some m ->
     let s' := setElementMode name s in
     mode s' = m /\ selected s' = [] /\ highlighted s' = [] /\
     hovered s' = Some (StringId "") /\ Id_truthy (StringId "") = false /\
     dispatched s' = dispatched s /\ editedElement s' = editedElement s /\
     parsedChildren s' = parsedChildren s).
Proof.
  split; [| split].
  - unfold modeOfString.
    destruct (String.eqb_spec name "display"); [split; [discriminate | tauto] |].
    destruct (String.eqb_spec name "select"); [split; [discriminate | tauto] |].
    destruct (String.eqb_spec name "create"); [split; [discriminate | tauto] |].
    tauto.
  - intro H. unfold setElementMode. now rewrite H.
  - intros m H s'. subst s'. unfold setElementMode. rewrite H.
    unfold setSelected. cbn [length Nat.eqb negb andb].
    rewrite andb_false_r. repeat split.
Qed.

Lemma select_translated (id : Id) (s : State) :
  ~ (viewX (viewPosition s) == 0 /\ viewY (viewPosition s) == 0) -> select id s = s.
Proof.
  intro H. unfold select.
  destruct (Qeq_bool (viewX (viewPosition s)) 0) eqn:Ex; [| reflexivity].
  destruct (Qeq_bool (viewY (viewPosition s)) 0) eqn:Ey; [| reflexivity].
  apply Qeq_bool_iff in Ex, Ey. tauto.
Qed.

Lemma indexOf_found (id : Id) (ids : list Id) :
  (-1 <? indexOf id ids)%Z = includes id ids.
Proof.
  unfold includes. induction ids as [| x rest IH]; [reflexivity |]. simpl.
  rewrite (Id_eqb_sym id x). destruct (Id_eqb x id); [reflexivity |]. simpl.
  rewrite <- IH.
  destruct (Z.ltb_spec (indexOf id rest) 0).
  - destruct (Z.ltb_spec (-1) (indexOf id rest)); [lia | reflexivity].
  - destruct (Z.ltb_spec (-1) (indexOf id rest + 1)); [| lia].
    destruct (Z.ltb_spec (-1) (indexOf id rest)); [reflexivity | lia].
Qed.

Lemma includes_countId_other (other id : Id) (ids : list Id) :
  other <> id -> includes other (without id ids) = includes other ids.
Proof.
  intro Hne. unfold includes, without.
  induction ids as [| x rest IH]; [reflexivity |]. cbn [filter existsb].
  destruct (Id_eqb id x) eqn:E; cbn [negb existsb].
  - apply Id_eqb_eq in E. subst x.
    destruct (Id_eqb other id) eqn:E2; [apply Id_eqb_eq in E2; contradiction |].
    exact IH.
  - now rewrite IH.
Qed.

(** X11: [select(id)] toggles the id.  While the image is translated it
    does nothing, and outside the select mode neither mutation applies.  In
    select mode, with the image in place, the id is selected afterwards
    exactly when it was not before, every other id is selected as before,
    and the application is told with [select-element] or
    [unselect-element] events. *)
Theorem select_toggles (id : Id) (s : State) :
  (~ (viewX (viewPosition s) == 0 /\ viewY (viewPosition s) == 0) -> select id s = s) /\
  (mode s <> SELECT_MODE -> select id s = s) /\
  (mode s = SELECT_MODE ->
   viewX (viewPosition s) == 0 -> viewY (viewPosition s) == 0 ->
   let s' := select id s in
   includes id (selected s') = negb (includes id (selected s)) /\
   (forall other, other <> id ->
      includes other (selected s') = includes other (selected s)) /\
   dispatched s'
   = dispatched s
     ++ (if includes id (selected s)
         then repeat (UnselectElement id) (countId id (selected s))
         else [SelectElement id])).
Proof.
  split; [apply select_translated | split].
  - intro Hmode. unfold select.
    destruct (negb (Qeq_bool (viewX (viewPosition s)) 0)
              || negb (Qeq_bool (viewY (viewPosition s)) 0))%bool; [reflexivity |].
    assert (G : isSelectMode (mode s) = false) by (destruct (mode s); tauto || reflexivity).
    destruct (-1 <? indexOf id (selected s))%Z.
    + apply removeSelected_ignored. rewrite G. simpl. apply orb_true_r.
    + apply addSelected_ignored. rewrite G. simpl. apply orb_true_r.
  - intros Hmode Hx Hy s'. subst s'. unfold select.
    apply Qeq_bool_iff in Hx, Hy. rewrite Hx, Hy. cbn [negb orb].
    rewrite indexOf_found.
    assert (G : isSelectMode (mode s) = true) by now rewrite Hmode.
    destruct (includes id (selected s)) eqn:Hinc.
    + unfold removeSelectedElement. rewrite (removeSelected_force _ _ _ G).
      fold (removeSelectedElement id true s).
      destruct (removeSelectedElement_fields id s) as [A C].
      rewrite A. split; [rewrite includes_without; reflexivity |].
      split; [intros other Hne; now apply includes_countId_other | exact C].
    + unfold addSelectedElement.
      rewrite (addSelected_selectedWith id false 0 s Hinc) by (rewrite G; apply orb_true_r).
      cbn [selected dispatched selectedWith].
      split; [apply includes_self |]. split; [| reflexivity].
      intros other Hne. rewrite includes_app. unfold includes at 2. simpl.
      destruct (Id_eqb other id) eqn:E; [apply Id_eqb_eq in E; contradiction |].
      now rewrite !orb_false_r.
Qed.

(** ** The watcher of the edited element *)

(** The events that tell the application of a region: [create-element]
    and [update-element], in the order they were dispatched. *)
Definition announced (s : State) : list Event :=
  filter (fun event => match event with
                       | CreateElement _ | UpdateElement _ _ => true
                       | _ => false
                       end) (dispatched s).

Lemma announced_dispatchEvent (event : Event) (s : State) :
  announced (dispatchEvent event s)
  = announced s ++ match event with
                   | CreateElement _ | UpdateElement _ _ => [event]
                   | _ => []
                   end.
Proof.
  unfold announced. cbn [dispatched dispatchEvent]. rewrite filter_app. cbn [filter].
  destruct event; reflexivity.
Qed.

Lemma filter_repeat_false {A : Type} (f : A -> bool) (a : A) (n : nat) :
  f a = false -> filter f (repeat a n) = [].
Proof. intro H. induction n as [| n IH]; [reflexivity |]. cbn. now rewrite H. Qed.

(** What the watcher leaves alone: everything but the selection and the
    [select-element] and [unselect-element] events. *)
Record sameButSelection (s s' : State) : Prop := {
  same_mode : mode s' = mode s;
  same_highlighted : highlighted s' = highlighted s;
  same_hovered : hovered s' = hovered s;
  same_element : parsedElement s' = parsedElement s;
  same_children : parsedChildren s' = parsedChildren s;
  same_edited : editedElement s' = editedElement s;
  same_index : movedPointIndex s' = movedPointIndex s;
  same_down : mouseDown s' = mouseDown s;
  same_position : lastMousePosition s' = lastMousePosition s;
  same_updated : updatedPolygon s' = updatedPolygon s;
  same_cancelled : cancelled s' = cancelled s;
  same_view : viewPosition s' = viewPosition s;
  same_tool : tool s' = tool s;
  same_announced : announced s' = announced s
}.

Lemma sameButSelection_refl (s : State) : sameButSelection s s.
Proof. constructor; reflexivity. Qed.

Lemma sameButSelection_trans (s s' s'' : State) :
  sameButSelection s s' -> sameButSelection s' s'' -> sameButSelection s s''.
Proof.
  intros [A1 A2 A3 A4 A5 A6 A7 A8 A9 A10 A11 A12 A13 A14]
         [B1 B2 B3 B4 B5 B6 B7 B8 B9 B10 B11 B12 B13 B14].
  constructor; congruence.
Qed.

Lemma unselected_same (id : Id) (s : State) :
  editedIs id s = false -> sameButSelection s (unselected id s).
Proof.
  intro Hedited. unfold unselected.
  destruct (includes id (selected s)); [| apply sameButSelection_refl].
  constructor; cbn; try reflexivity.
  - now rewrite Hedited.
  - unfold announced. cbn [dispatched]. rewrite filter_app.
    rewrite filter_repeat_false by reflexivity. apply app_nil_r.
Qed.

Lemma addSelectedElement_same (id : Id) (s : State) :
  editedIs id s = true -> sameButSelection s (addSelectedElement id true s).
Proof.
  intro Hedited. unfold addSelectedElement.
  destruct (includes id (selected s)) eqn:Hinc.
  - rewrite addSelected_ignored by (now rewrite Hinc). apply sameButSelection_refl.
  - rewrite (addSelected_selectedWith id true 0 s Hinc eq_refl). unfold selectedWith.
    constructor; cbn; try reflexivity.
    + now rewrite Hedited.
    + unfold announced. cbn [dispatched]. rewrite filter_app. apply app_nil_r.
Qed.

Lemma watchEditedElement_same (oldValue : option Region) (s : State) :
  sameButSelection s (watchEditedElement oldValue s).
Proof.
  unfold watchEditedElement.
  destruct (sameOptionalId (optionalId (editedElement s)) (optionalId oldValue)) eqn:Hsame;
    [apply sameButSelection_refl |].
  assert (Hold : forall old, oldValue = Some old ->
                   sameButSelection s (removeSelectedElement (regionId old) true s)).
  { intros old ->. rewrite removeSelectedElement_unselected. apply unselected_same.
    unfold editedIs. destruct (editedElement s) as [new |]; [| reflexivity].
    exact Hsame. }
  set (s1 := match oldValue with
             | Some old => removeSelectedElement (regionId old) true s
             | None => s
             end).
  assert (H1 : sameButSelection s s1).
  { subst s1. destruct oldValue as [old |]; [now apply Hold | apply sameButSelection_refl]. }
  destruct (editedElement s) as [new |] eqn:Hnew; [| exact H1].
  apply (sameButSelection_trans s s1); [exact H1 |].
  apply addSelectedElement_same. unfold editedIs.
  rewrite (same_edited _ _ H1), Hnew. apply Id_eqb_refl.
Qed.

(** X12: with no region in edition, selecting an id that is not selected
    and unselecting it again gives the selection back as it was.  The
    application is told of both, with one [select-element] and one
    [unselect-element] event; the watcher of the edited element, run after
    each, has nothing to do, and nothing else changes. *)
Theorem select_unselect_round_trip (id : Id) (s : State) :
  includes id (selected s) = false -> editedElement s = None ->
  let s1 := watchEditedElement (editedElement s) (addSelectedElement id true s) in
  let s2 := watchEditedElement (editedElement s1) (removeSelectedElement id true s1) in
  selected s1 = selected s ++ [id] /\
  selected s2 = selected s /\
  dispatched s2 = dispatched s ++ [SelectElement id; UnselectElement id] /\
  editedElement s2 = None /\
  parsedChildren s2 = parsedChildren s /\ highlighted s2 = highlighted s /\
  hovered s2 = hovered s /\ mode s2 = mode s.
Proof.
  intros Hinc He. cbv zeta. unfold addSelectedElement.
  rewrite (addSelected_selectedWith id true 0 s Hinc eq_refl).
  assert (E1 : watchEditedElement (editedElement s) (selectedWith id s) = selectedWith id s).
  { unfold watchEditedElement, selectedWith, editedIs. cbn [editedElement].
    rewrite He. reflexivity. }
  rewrite E1.
  assert (He1 : editedElement (selectedWith id s) = None).
  { unfold selectedWith, editedIs. cbn [editedElement]. now rewrite He. }
  rewrite removeSelectedElement_unselected.
  assert (He2 : editedElement (unselected id (selectedWith id s)) = None).
  { destruct (unselected_fields id (selectedWith id s)) as (_ & _ & _ & _ & U5).
    rewrite U5, He1. now destruct (_ && _)%bool. }
  assert (E2 : watchEditedElement (editedElement (selectedWith id s))
                 (unselected id (selectedWith id s))
               = unselected id (selectedWith id s)).
  { unfold watchEditedElement. now rewrite He1, He2. }
  rewrite E2. clear E1 E2.
  split; [reflexivity |]. split; [| split; [| split; [exact He2 |]]].
  - destruct (unselected_fields id (selectedWith id s)) as (_ & U2 & _). rewrite U2.
    cbn [selected selectedWith].
    rewrite without_app, (without_not_included _ _ Hinc).
    unfold without. cbn [filter]. rewrite Id_eqb_refl. cbn [negb]. apply app_nil_r.
  - unfold unselected. cbn [selected selectedWith]. rewrite includes_self.
    cbn [dispatched]. rewrite countId_app, (countId_not_included _ _ Hinc).
    unfold countId. cbn [filter]. rewrite Id_eqb_refl. cbn [length Nat.add repeat].
    cbn [dispatched selectedWith]. now rewrite <- app_assoc.
  - destruct (unselected_fields id (selectedWith id s)) as (U1 & _ & U3 & U4 & _).
    rewrite U1, U3, U4. repeat split.
    unfold unselected. destruct (includes id (selected (selectedWith id s))); reflexivity.
Qed.

Lemma select_unselect_round_trip_witness :
  selected (watchEditedElement
              (editedElement
                 (watchEditedElement (editedElement region3Selected)
                    (addSelectedElement (NumberId 4) true region3Selected)))
              (removeSelectedElement (NumberId 4) true
                 (watchEditedElement (editedElement region3Selected)
                    (addSelectedElement (NumberId 4) true region3Selected))))
  = [NumberId 3].
Proof.
  apply (select_unselect_round_trip (NumberId 4) region3Selected); reflexivity.
Defined.

(** X13: selecting an element ends the edition of another one.  When a
    region is in edition and an id other than its own enters the
    selection, the listener of [select-element] drops the edited region
    and the watcher, once the handler has returned, takes the id of that
    region out of the selection, every occurrence of it, telling the
    application with [unselect-element].  The regions are left as they
    are. *)
Theorem select_ends_edition (id : Id) (edited : Region) (s : State) :
  editedElement s = Some edited -> regionId edited <> id ->
  includes id (selected s) = false ->
  let s' := watchEditedElement (editedElement s) (addSelectedElement id true s) in
  editedElement s' = None /\
  selected s' = without (regionId edited) (selected s) ++ [id] /\
  dispatched s'
  = dispatched s ++ [SelectElement id]
    ++ repeat (UnselectElement (regionId edited)) (countId (regionId edited) (selected s)) /\
  parsedChildren s' = parsedChildren s.
Proof.
  intros He Hid Hinc. cbv zeta. unfold addSelectedElement.
  rewrite (addSelected_selectedWith id true 0 s Hinc eq_refl).
  assert (Hother : Id_eqb (regionId edited) id = false).
  { destruct (Id_eqb (regionId edited) id) eqn:E; [| reflexivity].
    apply Id_eqb_eq in E. contradiction. }
  assert (He1 : editedElement (selectedWith id s) = None).
  { unfold selectedWith, editedIs. cbn [editedElement]. now rewrite He, Hother. }
  unfold watchEditedElement. rewrite He1, He. cbn [optionalId sameOptionalId].
  destruct (removeSelectedElement_fields (regionId edited) (selectedWith id s)) as [U2 U6].
  rewrite removeSelectedElement_unselected in *.
  destruct (unselected_fields (regionId edited) (selectedWith id s))
    as (U1 & _ & _ & _ & U5).
  split; [rewrite U5, He1; now destruct (_ && _)%bool |].
  split; [| split; [| exact U1]].
  - rewrite U2. cbn [selected selectedWith]. rewrite without_app. f_equal.
    unfold without. cbn [filter]. now rewrite Hother.
  - rewrite U6. cbn [selected dispatched selectedWith].
    rewrite countId_app. unfold countId at 2. cbn [filter]. rewrite Hother.
    cbn [length]. now rewrite Nat.add_0_r, <- app_assoc.
Qed.

Lemma select_ends_edition_witness :
  selected
    (watchEditedElement (editedElement draggingVertex)
       (addSelectedElement (NumberId 7) true draggingVertex))
  = [NumberId 7].
Proof.
  apply (select_ends_edition (NumberId 7)
           {| regionId := NumberId 1;
              regionPolygon := [(0, 0); (10, 0); (10, 10); (0, 10); (0, 0)] |}
           draggingVertex); [reflexivity | discriminate | reflexivity].
Defined.

(** ** Drawing a rectangle *)

(** A mouse event without the shift key, at a position on the image. *)
Definition mouseEvent (pressed : Z) (position : Point) : MouseEvent :=
  {| buttons := pressed; shiftKey := false; eventPosition := Some position |}.


(** The projections of the state the setters leave alone. *)
Ltac fields :=
  unfold announced in *;
  cbn [mode selected highlighted hovered parsedElement parsedChildren editedElement
       movedPointIndex mouseDown lastMousePosition updatedPolygon cancelled
       viewPosition tool dispatched
       setSelectedIds setHovered setParsedChildren setEditedElement setMovedPointIndex
       setLastMousePosition setUpdatedPolygon setViewPosition dispatchEvent
       setMouseDown setCancelled setMode setHighlighted setTool
       viewX viewY viewApplied viewRecenter
       buttons shiftKey eventPosition mouseEvent
       regionId regionPolygon withPolygon] in *.

(** The view is in place, or is being put back: the [mouseup] that ends a
    gesture is not taken for the end of a translation. *)
Definition viewInPlace (s : State) : Prop :=
  (viewX (viewPosition s) == 0 /\ viewY (viewPosition s) == 0)
  \/ viewRecenter (viewPosition s) = true.

Lemma viewInPlace_test (s : State) (up : bool) :
  viewInPlace s ->
  ((negb (Qeq_bool (viewX (viewPosition s)) 0) || negb (Qeq_bool (viewY (viewPosition s)) 0))
   && negb (viewRecenter (viewPosition s)) && up)%bool = false.
Proof.
  intros [[Hx Hy] | Hr].
  - apply Qeq_bool_iff in Hx, Hy. now rewrite Hx, Hy.
  - rewrite Hr. cbn [negb]. now rewrite andb_false_r.
Qed.

(** What holds while a rectangle is drawn from [p]: the rectangle tool in
    create mode, the button down, and the region being drawn. *)
Record drawingRectangle (s0 : State) (polygon : Polygon) (s : State) : Prop := {
  drawing_mode : mode s = CREATE_MODE;
  drawing_tool : tool s = RECTANGLE_TOOL;
  drawing_down : mouseDown s = true;
  drawing_cancelled : cancelled s = false;
  drawing_view : viewInPlace s;
  drawing_edited :
    editedElement s = Some {| regionId := StringId "created-polygon";
                              regionPolygon := polygon |};
  drawing_element : parsedElement s = parsedElement s0;
  drawing_children : parsedChildren s = parsedChildren s0;
  drawing_announced : announced s = announced s0
}.

(** The watcher leaves the drawing as it is. *)
Lemma drawingRectangle_watched (s0 : State) (polygon : Polygon) (oldValue : option Region)
    (s : State) :
  drawingRectangle s0 polygon s ->
  drawingRectangle s0 polygon (watchEditedElement oldValue s).
Proof.
  intros [Hmode Htool Hdown Hc Hview He Helt Hch Hd].
  destruct (watchEditedElement_same oldValue s)
    as [Wmode Whighlighted Whovered Welement Wchildren Wedited Windex Wdown Wposition
          Wupdated Wcancelled Wview Wtool Wannounced].
  constructor; try congruence.
  unfold viewInPlace in *. now rewrite Wview.
Qed.

Lemma trackPosition_fields (mouseCoords : Point) (action : Action) (s : State) :
  let s' := snd (trackPosition mouseCoords action s) in
  fst (trackPosition mouseCoords action s) = Return tt /\
  mode s' = mode s /\ tool s' = tool s /\ mouseDown s' = mouseDown s /\
  cancelled s' = cancelled s /\ editedElement s' = editedElement s /\
  parsedElement s' = parsedElement s /\ parsedChildren s' = parsedChildren s /\
  dispatched s' = dispatched s /\ selected s' = selected s /\
  movedPointIndex s' = movedPointIndex s /\ updatedPolygon s' = updatedPolygon s /\
  viewX (viewPosition s') = viewX (viewPosition s) /\
  viewY (viewPosition s') = viewY (viewPosition s) /\
  viewRecenter (viewPosition s') = viewRecenter (viewPosition s) /\
  (action <> Move -> lastMousePosition s' = None).
Proof.
  unfold trackPosition. run_monad.
  destruct (mouseDown s && match action with Move => true | _ => false end)%bool eqn:E.
  - destruct (viewApplied (viewPosition s)); cbn; repeat split;
      intro H; destruct action; try discriminate; try (exfalso; now apply H);
      now rewrite andb_false_r in E.
  - cbn. repeat split.
Qed.

Lemma trackPosition_drawing (s0 : State) (polygon : Polygon) (mouseCoords : Point)
    (action : Action) (s : State) :
  drawingRectangle s0 polygon s ->
  drawingRectangle s0 polygon (snd (trackPosition mouseCoords action s)).
Proof.
  intros [Hmode Htool Hdown Hc Hview He Helt Hch Hd].
  destruct (trackPosition_fields mouseCoords action s)
    as (_ & T1 & T2 & T3 & T4 & T5 & T6 & T7 & T8 & _ & _ & _ & T9 & T10 & T11 & _).
  constructor; unfold announced in *; try congruence.
  unfold viewInPlace in *. rewrite T9, T10, T11. exact Hview.
Qed.

Lemma mouseAction_down_rectangle (s : State) (p : Point) :
  mode s = CREATE_MODE -> tool s = RECTANGLE_TOOL -> cancelled s = false ->
  viewInPlace s -> editedElement s = None ->
  drawingRectangle s (repeat p 5) (snd (mouseAction (mouseEvent 1 p) Down s)).
Proof.
  intros Hmode Htool Hc Hview He.
  unfold mouseAction, editRectangle. run_monad. fields.
  cbn [Z.eqb Pos.eqb negb andb]. rewrite Hc. cbn [negb]. fields.
  rewrite (viewInPlace_test s false Hview), Hmode, Htool. cbn [isCreateMode negb orb].
  cbn beta. fields. rewrite He. unfold modify. cbn beta iota.
  apply trackPosition_drawing.
  constructor; fields; try congruence. exact Hview.
Qed.


Lemma mouseAction_up_rectangle (s0 s : State) (polygon : Polygon) (pressed : Z) (r : Point) :
  drawingRectangle s0 polygon s ->
  mouseAction (mouseEvent pressed r) Up s
  = (let (c, s') := create (setMouseDown false s) in
     match c with
     | Return _ => trackPosition r Up s'
     | Throw e => (Throw e, s')
     end).
Proof.
  intros [Hmode Htool Hdown Hc Hview He Helt Hch Hd].
  unfold mouseAction, editRectangle. run_monad. fields.
  rewrite Hc. cbn [negb andb]. fields.
  rewrite (viewInPlace_test s true Hview), Hmode, Htool. cbn [isCreateMode negb orb].
  cbn beta. fields. rewrite He. reflexivity.
Qed.

(** The state a gesture ends in when it committed a region, or dropped it. *)
Definition committed (s0 : State) (polygon : Polygon) (s' : State) : Prop :=
  let region := {| regionId := nextId (parsedChildren s0); regionPolygon := polygon |} in
  parsedChildren s' = parsedChildren s0 ++ [Some region] /\
  announced s' = announced s0 ++ [CreateElement region] /\
  editedElement s' = None /\ mouseDown s' = false /\ lastMousePosition s' = None.

Definition dropped (s0 s' : State) : Prop :=
  parsedChildren s' = parsedChildren s0 /\ announced s' = announced s0 /\
  editedElement s' = None /\ mouseDown s' = false /\ lastMousePosition s' = None.

Lemma committed_watched (s0 : State) (polygon : Polygon) (oldValue : option Region)
    (s' : State) :
  committed s0 polygon s' -> committed s0 polygon (watchEditedElement oldValue s').
Proof.
  unfold committed. cbv zeta. destruct (watchEditedElement_same oldValue s')
    as [Wmode Whighlighted Whovered Welement Wchildren Wedited Windex Wdown Wposition
          Wupdated Wcancelled Wview Wtool Wannounced].
  rewrite Wchildren, Wannounced, Wedited, Wdown, Wposition. tauto.
Qed.

Lemma dropped_watched (s0 : State) (oldValue : option Region) (s' : State) :
  dropped s0 s' -> dropped s0 (watchEditedElement oldValue s').
Proof.
  unfold dropped. destruct (watchEditedElement_same oldValue s')
    as [Wmode Whighlighted Whovered Welement Wchildren Wedited Windex Wdown Wposition
          Wupdated Wcancelled Wview Wtool Wannounced].
  rewrite Wchildren, Wannounced, Wedited, Wdown, Wposition. tauto.
Qed.

Lemma mouseEvents_app (events events' : list (MouseEvent * Action)) (s : State) :
  mouseEvents (events ++ events') s = mouseEvents events' (mouseEvents events s).
Proof.
  revert s. induction events as [| [e a] events IH]; intro s; [reflexivity |].
  cbn [app mouseEvents]. apply IH.
Qed.

Lemma release_rectangle (s0 s : State) (polygon : Polygon) (pressed : Z) (r : Point) :
  drawingRectangle s0 polygon s ->
  let s' := handleMouse (mouseEvent pressed r) Up s in
  (forall checked,
     checkPolygon (rawPolygon polygon) POLYGON_MIN_SIZE = Return checked ->
     committed s0 checked s') /\
  (forall reason,
     checkPolygon (rawPolygon polygon) POLYGON_MIN_SIZE
     = Throw (InvalidPolygonError reason) ->
     dropped s0 s').
Proof.
  intros Hdraw s'. subst s'. unfold handleMouse.
  rewrite (mouseAction_up_rectangle s0 s polygon pressed r Hdraw).
  destruct Hdraw as [Hmode Htool Hdown Hc Hview He Helt Hch Hd].
  split.
  - intros checked Hcheck. apply committed_watched.
    rewrite (create_success (setMouseDown false s) _ checked He Hcheck). cbv zeta.
    match goal with
    | |- committed _ _ (snd (trackPosition ?c ?a ?t)) =>
        destruct (trackPosition_fields c a t)
          as (_ & _ & _ & T3 & _ & T5 & _ & T7 & T8 & _ & _ & _ & _ & _ & _ & T12)
    end.
    unfold committed, announced. cbv zeta. rewrite T3, T5, T7, T8, T12 by discriminate.
    fields. rewrite filter_app, Hch, Hd. repeat split.
  - intros reason Hcheck. apply dropped_watched.
    rewrite (create_rejected (setMouseDown false s) _ _ He Hcheck).
    match goal with
    | |- dropped _ (snd (trackPosition ?c ?a ?t)) =>
        destruct (trackPosition_fields c a t)
          as (_ & _ & _ & T3 & _ & T5 & _ & T7 & T8 & _ & _ & _ & _ & _ & _ & T12)
    end.
    unfold dropped, announced. rewrite T3, T5, T7, T8, T12 by discriminate. fields.
    rewrite Hch, Hd. repeat split.
Qed.



(** [checkPolygon] on the five copies of the point a click leaves. *)
Lemma checkPolygon_click (p : Point) :
  exists reason,
    checkPolygon (rawPolygon (repeat p 5)) POLYGON_MIN_SIZE
    = Throw (InvalidPolygonError reason).
Proof.
  rewrite checkPolygon_rawPolygon, checkFinitePolygon_unfold.
  destruct (hasNegativeCoordinate (roundPolygon (repeat p 5))); [eexists; reflexivity |].
  exists TooFewPoints. unfold normalize. cbn [repeat roundPolygon map].
  unfold deduplicate, dedupAfter. rewrite !pointsEqual_refl. reflexivity.
Qed.


(** X15: a click with the rectangle tool creates nothing.  Pressing and
    releasing the left button without moving the mouse leaves five copies
    of one point, which [checkPolygon] always refuses: no region is
    appended, none is announced to the application, and none is left in
    edition. *)
Theorem click_creates_nothing (s : State) (p r : Point) (pressed : Z) :
  mode s = CREATE_MODE -> tool s = RECTANGLE_TOOL -> cancelled s = false ->
  viewInPlace s -> editedElement s = None ->
  dropped s (mouseEvents [(mouseEvent 1 p, Down); (mouseEvent pressed r, Up)] s).
Proof.
  intros Hmode Htool Hc Hview He.
  pose proof (mouseAction_down_rectangle s p Hmode Htool Hc Hview He) as Hdown.
  apply (drawingRectangle_watched _ _ (editedElement s)) in Hdown.
  fold (handleMouse (mouseEvent 1 p) Down s) in Hdown.
  destruct (checkPolygon_click p) as [reason Hcheck].
  cbn [mouseEvents].
  exact (proj2 (release_rectangle s _ _ pressed r Hdown) reason Hcheck).
Qed.

(** The component over the 100 by 100 page with five regions, in create
    mode with the rectangle tool. *)
Definition readyToDraw : State :=
  {| mode := CREATE_MODE; selected := []; highlighted := []; hovered := None;
     parsedElement := Some page; parsedChildren := fiveRegions; editedElement := None;
     movedPointIndex := None; mouseDown := false; lastMousePosition := None;
     updatedPolygon := false; cancelled := false;
     viewPosition := {| viewX := 0; viewY := 0; viewApplied := false; viewRecenter := true |};
     tool := RECTANGLE_TOOL; dispatched := [] |}.


Lemma click_creates_nothing_witness :
  dropped readyToDraw
    (mouseEvents [(mouseEvent 1 (20, 30), Down); (mouseEvent 0 (20, 30), Up)] readyToDraw).
Proof.
  apply (click_creates_nothing readyToDraw (20, 30) (20, 30) 0); try reflexivity.
  left. split; reflexivity.
Defined.

(** ** Cancelling an edition *)

(** X16: cancelling a drag.  When a vertex or a polygon is being dragged
    with the edition tool, [abort] drops the edited copy and marks the
    gesture as cancelled; the [mouseup] that follows only takes the mark
    away: it saves nothing.  The regions are those from before the drag and
    no region is announced to the application, the watcher of the edited
    element having run after each of the two.  In any state [abort]
    returns, leaves no region in edition, and touches neither the regions
    nor the events. *)
Theorem abort_cancels_drag (s : State) (e : MouseEvent) (position : Point) :
  (fst (abort s) = Return tt /\ editedElement (snd (abort s)) = None /\
   parsedChildren (snd (abort s)) = parsedChildren s /\
   dispatched (snd (abort s)) = dispatched s) /\
  (tool s = EDITION_TOOL -> mouseDown s = true ->
   movedPointIndex s <> None \/ lastMousePosition s <> None ->
   eventPosition e = Some position ->
   let s1 := watchEditedElement (editedElement s) (snd (abort s)) in
   let s2 := handleMouse e Up s1 in
   cancelled s1 = true /\ mouseDown s1 = false /\ updatedPolygon s1 = false /\
   movedPointIndex s1 = None /\ lastMousePosition s1 = None /\
   fst (mouseAction e Up s1) = Return tt /\
   s2 = setCancelled false s1 /\
   parsedChildren s2 = parsedChildren s /\ announced s2 = announced s /\
   editedElement s2 = None).
Proof.
  split.
  - unfold abort. run_monad.
    destruct (match tool s with EDITION_TOOL => true | _ => false end && mouseDown s
              && (match movedPointIndex s with Some _ => true | None => false end
                  || match lastMousePosition s with Some _ => true | None => false end))%bool;
      cbn; repeat split.
  - intros Htool Hdown Hdrag Hpos.
    assert (E : abort s
                = (Return tt,
                   setCancelled true
                     (setUpdatedPolygon false
                        (setLastMousePosition None
                           (setMovedPointIndex None
                              (setMouseDown false (setEditedElement None s))))))).
    { unfold abort. run_monad. rewrite Htool, Hdown. cbn [andb].
      destruct (movedPointIndex s), (lastMousePosition s); try reflexivity.
      destruct Hdrag; congruence. }
    rewrite E. cbn [snd]. cbv zeta.
    set (s1 := watchEditedElement (editedElement s)
                 (setCancelled true
                    (setUpdatedPolygon false
                       (setLastMousePosition None
                          (setMovedPointIndex None
                             (setMouseDown false (setEditedElement None s))))))).
    set (s2 := handleMouse e Up s1).
    destruct (watchEditedElement_same (editedElement s)
                (setCancelled true
                   (setUpdatedPolygon false
                      (setLastMousePosition None
                         (setMovedPointIndex None
                            (setMouseDown false (setEditedElement None s)))))))
      as [W1 W2 W3 W4 W5 W6 W7 W8 W9 W10 W11 W12 W13 W14].
    fold s1 in W1, W2, W3, W4, W5, W6, W7, W8, W9, W10, W11, W12, W13, W14.
    cbn [mode highlighted hovered parsedElement parsedChildren editedElement
         movedPointIndex mouseDown lastMousePosition updatedPolygon cancelled
         viewPosition tool setCancelled setUpdatedPolygon setLastMousePosition
         setMovedPointIndex setMouseDown setEditedElement]
      in W1, W2, W3, W4, W5, W6, W7, W8, W9, W10, W11, W12, W13.
    assert (W15 : announced s1 = announced s) by exact W14.
    assert (Eup : mouseAction e Up s1 = (Return tt, setCancelled false s1)).
    { unfold mouseAction. run_monad. rewrite Hpos. cbn [negb andb].
      cbn [cancelled setMouseDown]. rewrite W11. cbn [negb].
      assert (Edown : setMouseDown false s1 = s1).
      { destruct s1 as [m ids hl hv pe pc ed mi md lp up ca vp tl ev].
        cbn in W8. now subst md. }
      now rewrite Edown. }
    assert (E2 : s2 = setCancelled false s1).
    { subst s2. unfold handleMouse. rewrite Eup. cbn [snd].
      unfold watchEditedElement. cbn [editedElement setCancelled]. now rewrite W6. }
    rewrite Eup, E2. cbn [fst parsedChildren editedElement setCancelled].
    repeat split; try assumption.
Qed.

Lemma abort_cancels_drag_witness :
  parsedChildren
    (handleMouse (mouseEvent 0 (50, 50)) Up
       (watchEditedElement (editedElement draggingVertex) (snd (abort draggingVertex))))
  = parsedChildren draggingVertex /\
  announced
    (handleMouse (mouseEvent 0 (50, 50)) Up
       (watchEditedElement (editedElement draggingVertex) (snd (abort draggingVertex))))
  = [].
Proof.
  destruct (proj2 (abort_cancels_drag draggingVertex (mouseEvent 0 (50, 50)) (50, 50))
              eq_refl eq_refl)
    as (_ & _ & _ & _ & _ & _ & _ & H1 & H2 & _).
  - left. discriminate.
  - reflexivity.
  - split; [exact H1 | exact H2].
Defined.

(** ** Saving an edited region *)

Lemma at_index_nat {A : Type} (l : list A) (index : nat) :
  at_index l (Z.of_nat index) = nth_error l index.
Proof.
  unfold at_index. destruct (Z.ltb_spec (Z.of_nat index) 0); [lia |].
  now rewrite Nat2Z.id.
Qed.

Lemma assignAt_nat {A : Type} (index : nat) (value : A) (l : list A) :
  (index < length l)%nat ->
  assignAt (Z.of_nat index) value l = firstn index l ++ [value] ++ skipn (S index) l.
Proof.
  intro H. unfold assignAt.
  destruct (Z.leb_spec 0 (Z.of_nat index)); [| lia].
  destruct (Z.ltb_spec (Z.of_nat index) (Z.of_nat (length l))); [| lia].
  cbn [andb]. rewrite splice_nat by lia.
  now replace (index + 1)%nat with (S index) by lia.
Qed.

(** The state [saveEdited] starts from once it has reset the index of the
    moved point and hovered the edited region again. *)
Definition resetEdition (edited : Region) (s : State) : State :=
  let s := setMovedPointIndex None s in
  match lastMousePosition s with
  | Some _ => setHovered (Some (regionId edited)) s
  | None => s
  end.

Lemma saveEdited_accepted (s : State) (edited base : Region) (index : nat)
    (checked : Polygon) (equal : bool) :
  editedElement s = Some edited ->
  getChildIndex (regionId edited) s = Z.of_nat index ->
  nth_error (parsedChildren s) index = Some (Some base) ->
  updatedPolygon s = true ->
  checkPolygon (rawPolygon (regionPolygon edited)) POLYGON_MIN_SIZE = Return checked ->
  polygonsEqual (rawPolygon checked) (rawPolygon (regionPolygon base)) = Return equal ->
  saveEdited s
  = (Return tt,
     if equal then setUpdatedPolygon false (resetEdition edited s)
     else
       setEditedElement None
         (dispatchEvent (UpdateElement (regionId edited) checked)
            (setParsedChildren
               (firstn index (parsedChildren s) ++ [Some (withPolygon edited checked)]
                ++ skipn (S index) (parsedChildren s))
               (setUpdatedPolygon false (resetEdition edited s))))).
Proof.
  intros He Hi Hn Hu Hc Hq.
  assert (Hlen : (index < length (parsedChildren s))%nat).
  { apply nth_error_Some. congruence. }
  unfold saveEdited, resetEdition. run_monad. fields. rewrite He.
  unfold getChildIndex in *.
  destruct (lastMousePosition s) as [position |]; fields;
    rewrite Hi, at_index_nat, Hn, Hu, Hc; cbn [negb andb]; fields;
    rewrite Hq; destruct equal; try reflexivity;
    fields; rewrite (assignAt_nat _ _ _ Hlen); reflexivity.
Qed.

(** X17: saving an edited region.  When the polygon of a region of the
    list was moved, [checkPolygon] accepts it and [polygonsEqual] can
    compare it with the polygon the region has, [saveEdited] returns.  If
    [polygonsEqual] finds them different, the region keeps its place and
    its id and gets the sanitized polygon, every other entry of the list is
    as before, one [update-element] event carries the id and the new
    polygon, and no region is left in edition.  If it finds them equal, the
    list is unchanged, no event is dispatched and the region stays in
    edition. *)
Theorem saveEdited_updates_in_place (s : State) (edited base : Region) (index : nat)
    (checked : Polygon) (equal : bool) :
  editedElement s = Some edited ->
  getChildIndex (regionId edited) s = Z.of_nat index ->
  nth_error (parsedChildren s) index = Some (Some base) ->
  updatedPolygon s = true ->
  checkPolygon (rawPolygon (regionPolygon edited)) POLYGON_MIN_SIZE = Return checked ->
  polygonsEqual (rawPolygon checked) (rawPolygon (regionPolygon base)) = Return equal ->
  exists s',
    saveEdited s = (Return tt, s') /\
    updatedPolygon s' = false /\ movedPointIndex s' = None /\
    length (parsedChildren s') = length (parsedChildren s) /\
    (equal = true ->
     parsedChildren s' = parsedChildren s /\ dispatched s' = dispatched s /\
     editedElement s' = Some edited) /\
    (equal = false ->
     nth_error (parsedChildren s') index
     = Some (Some {| regionId := regionId base; regionPolygon := checked |}) /\
     (forall j, j <> index ->
        nth_error (parsedChildren s') j = nth_error (parsedChildren s) j) /\
     dispatched s' = dispatched s ++ [UpdateElement (regionId base) checked] /\
     editedElement s' = None).
Proof.
  intros He Hi Hn Hu Hc Hq.
  assert (Hlen : (index < length (parsedChildren s))%nat).
  { apply nth_error_Some. congruence. }
  assert (Hid : regionId edited = regionId base).
  { unfold getChildIndex in Hi.
    destruct (findChildIndex_found (regionId edited) (parsedChildren s)) as
      (index' & region & Ei & _ & Hn' & Hr); [lia |].
    rewrite Hi in Ei. apply Nat2Z.inj in Ei. subst index'. congruence. }
  eexists. split; [apply (saveEdited_accepted s edited base index checked equal); assumption |].
  assert (Rc : parsedChildren (resetEdition edited s) = parsedChildren s).
  { unfold resetEdition. cbv zeta.
    destruct (lastMousePosition (setMovedPointIndex None s)); reflexivity. }
  assert (Rd : dispatched (resetEdition edited s) = dispatched s).
  { unfold resetEdition. cbv zeta.
    destruct (lastMousePosition (setMovedPointIndex None s)); reflexivity. }
  assert (Re : editedElement (resetEdition edited s) = editedElement s).
  { unfold resetEdition. cbv zeta.
    destruct (lastMousePosition (setMovedPointIndex None s)); reflexivity. }
  assert (Rm : movedPointIndex (resetEdition edited s) = None).
  { unfold resetEdition. cbv zeta.
    destruct (lastMousePosition (setMovedPointIndex None s)); reflexivity. }
  destruct equal; fields.
  - rewrite Rc, Rd, Re, Rm. repeat split; try assumption; discriminate.
  - rewrite ?Rc, ?Rd, ?Rm. split; [reflexivity |]. split; [reflexivity |].
    split.
    { rewrite !length_app, length_firstn, length_skipn. simpl. lia. }
    split; [discriminate |]. intros _.
    split.
    { rewrite nth_error_app2 by (rewrite length_firstn; lia).
      rewrite length_firstn, Nat.min_l, Nat.sub_diag by lia.
      unfold withPolygon. cbn. now rewrite Hid. }
    split; [| rewrite Hid; split; reflexivity].
    intros j Hj. destruct (Nat.lt_ge_cases j index) as [Hlt | Hge].
    + rewrite nth_error_app1 by (rewrite length_firstn; lia).
      rewrite nth_error_firstn.
      destruct (Nat.ltb_spec j index); [reflexivity | lia].
    + rewrite nth_error_app2 by (rewrite length_firstn; lia).
      rewrite length_firstn, Nat.min_l by lia.
      destruct (j - index)%nat as [| k] eqn:Ek; [lia |]. cbn [app nth_error].
      rewrite nth_error_skipn. f_equal. lia.
Qed.

(** ** What a mouse event can do to the regions *)

(** The regions and the events dispatched so far. *)
Definition regionsOf (s : State) : list (option Region) * list Event :=
  (parsedChildren s, dispatched s).

(** The three ways the regions change: not at all, by one region appended
    with the next id, or by a new polygon for one region; the last two with
    the event that tells the application. *)
Inductive regionsStep :
  list (option Region) * list Event -> list (option Region) * list Event -> Prop :=
| Unchanged (children : list (option Region)) (events : list Event) :
    regionsStep (children, events) (children, events)
| Appended (children : list (option Region)) (events : list Event) (polygon : Polygon) :
    let region := {| regionId := nextId children; regionPolygon := polygon |} in
    regionsStep (children, events)
      (children ++ [Some region], events ++ [CreateElement region])
| Replaced (children : list (option Region)) (events : list Event) (index : nat)
    (base : Region) (polygon : Polygon) :
    nth_error children index = Some (Some base) ->
    regionsStep (children, events)
      (firstn index children
       ++ [Some {| regionId := regionId base; regionPolygon := polygon |}]
       ++ skipn (S index) children,
       events ++ [UpdateElement (regionId base) polygon]).

Lemma regionsStep_refl (s s' : State) :
  regionsOf s' = regionsOf s -> regionsStep (regionsOf s) (regionsOf s').
Proof. intros ->. destruct (regionsOf s). constructor. Qed.

Lemma regionsStep_frame (s t t' s' : State) :
  regionsOf t = regionsOf s -> regionsOf s' = regionsOf t' ->
  regionsStep (regionsOf t) (regionsOf t') -> regionsStep (regionsOf s) (regionsOf s').
Proof. intros <- ->. tauto. Qed.

Lemma elementLimits_state (position : Point) (s : State) :
  snd (elementLimits position s) = s.
Proof.
  unfold elementLimits, originalBoundingBox. run_monad.
  destruct (parsedElement s) as [element |]; [| reflexivity].
  destruct (boundingBox element); reflexivity.
Qed.

Lemma everyWithinLimits_state (points : Polygon) (s : State) :
  snd (everyWithinLimits points s) = s.
Proof.
  induction points as [| p rest IH]; [reflexivity |].
  cbn [everyWithinLimits]. unfold bind.
  pose proof (elementLimits_state p s) as E.
  destruct (elementLimits p s) as [[limited | e] t]; cbn [snd] in E; subst t;
    [| reflexivity].
  destruct (pointsEqual p limited); [exact IH | reflexivity].
Qed.

Lemma movePoint_state (position : Point) (s : State) : snd (movePoint position s) = s.
Proof.
  unfold movePoint. unfold bind at 1. unfold get.
  destruct (editedElement s) as [edited |]; [| reflexivity].
  unfold bind. pose proof (elementLimits_state position s) as E.
  destruct (elementLimits position s) as [[limited | e] t]; cbn [snd] in E; subst t;
    [| reflexivity].
  destruct (movedPointIndex s) as [index |]; [| reflexivity].
  destruct (nth_error (regionPolygon edited) index) as [point |]; [| reflexivity].
  destruct (pointsEqual point limited); reflexivity.
Qed.

Lemma movePolygon_state (position : Point) (s : State) : snd (movePolygon position s) = s.
Proof.
  unfold movePolygon. unfold bind at 1. unfold get.
  destruct (lastMousePosition s) as [lastPosition |]; [| reflexivity].
  destruct (pointsEqual lastPosition position); [reflexivity |].
  destruct (editedElement s) as [edited |]; [| reflexivity].
  unfold bind.
  pose proof (everyWithinLimits_state
                (shiftPolygon (regionPolygon edited)
                   (fst position - fst lastPosition, snd position - snd lastPosition)) s) as E.
  destruct (everyWithinLimits _ s) as [[inBounds | e] t]; cbn [snd] in E; subst t;
    [| reflexivity].
  destruct inBounds; reflexivity.
Qed.

Lemma translate_regions (position : Point) (s : State) :
  regionsOf (snd (translate position s)) = regionsOf s.
Proof.
  unfold translate. run_monad. destruct (lastMousePosition s); reflexivity.
Qed.

Lemma trackPosition_regions (mouseCoords : Point) (action : Action) (s : State) :
  regionsOf (snd (trackPosition mouseCoords action s)) = regionsOf s.
Proof.
  destruct (trackPosition_fields mouseCoords action s)
    as (_ & _ & _ & _ & _ & _ & _ & T7 & T8 & _).
  unfold regionsOf. now rewrite T7, T8.
Qed.

Lemma create_regions (s : State) :
  regionsStep (regionsOf s) (regionsOf (snd (create s))).
Proof.
  destruct (editedElement s) as [edited |] eqn:He.
  - destruct (checkPolygon (rawPolygon (regionPolygon edited)) POLYGON_MIN_SIZE)
      as [polygon | e] eqn:Hc.
    + rewrite (create_success s edited polygon He Hc). cbv zeta. unfold regionsOf. fields.
      apply Appended.
    + rewrite (create_rejected s edited e He Hc).
      destruct e; apply regionsStep_refl; reflexivity.
  - apply regionsStep_refl. unfold create. run_monad. now rewrite He.
Qed.

Lemma saveEdited_regions (s : State) :
  regionsStep (regionsOf s) (regionsOf (snd (saveEdited s))).
Proof.
  unfold saveEdited. run_monad. fields.
  destruct (editedElement s) as [edited |] eqn:He;
    [| apply regionsStep_refl; reflexivity].
  unfold getChildIndex. fields.
  assert (Hfound : forall base,
             at_index (parsedChildren s)
               (findChildIndex (regionId edited) (parsedChildren s)) = Some (Some base) ->
             exists index,
               findChildIndex (regionId edited) (parsedChildren s) = Z.of_nat index /\
               (index < length (parsedChildren s))%nat /\
               nth_error (parsedChildren s) index = Some (Some base) /\
               regionId base = regionId edited).
  { intros base Hbase.
    assert (H0 : (0 <= findChildIndex (regionId edited) (parsedChildren s))%Z).
    { unfold at_index in Hbase.
      destruct (Z.ltb_spec (findChildIndex (regionId edited) (parsedChildren s)) 0);
        [discriminate | assumption]. }
    destruct (findChildIndex_found _ _ H0) as (index & region & Ei & Hi & Hn & Hr).
    exists index. rewrite Ei, at_index_nat, Hn in Hbase. injection Hbase as <-.
    repeat split; assumption. }
  destruct (at_index (parsedChildren s) (findChildIndex (regionId edited) (parsedChildren s)))
    as [[base |] |] eqn:Hbase; cbn [andb negb];
  destruct (lastMousePosition s) as [position |]; cbn beta iota; fields;
  destruct (updatedPolygon s); cbn [negb andb]; cbn beta iota;
  try (apply regionsStep_refl; reflexivity);
  destruct (checkPolygon (rawPolygon (regionPolygon edited)) POLYGON_MIN_SIZE)
    as [checked | e1]; cbn beta iota;
  try (apply regionsStep_refl; reflexivity);
  destruct (polygonsEqual (rawPolygon checked) (rawPolygon (regionPolygon base)))
    as [[|] | e2]; cbn beta iota;
  try (apply regionsStep_refl; reflexivity);
  destruct (Hfound base eq_refl) as (index & Ei & Hi & Hn & Hr);
  unfold modify, regionsOf; fields;
  rewrite Ei, (assignAt_nat _ _ _ Hi); unfold withPolygon; fields; rewrite <- Hr;
  apply (Replaced (parsedChildren s) (dispatched s) index base checked Hn).
Qed.

Lemma edit_regions (argument : EditArgument) (action : option Action) (s : State) :
  regionsStep (regionsOf s) (regionsOf (snd (edit argument action s))).
Proof.
  unfold edit, editWith. unfold bind at 1. unfold get at 1. cbn beta iota.
  destruct action as [[| | | |] |]; try (apply regionsStep_refl; reflexivity).
  - (* down *)
    apply regionsStep_refl. unfold editElement, modify.
    destruct (hovered s) as [id |]; [| reflexivity].
    destruct (if Id_truthy id then at_index (parsedChildren s) (getChildIndex id s) else None)
      as [[child |] |]; reflexivity.
  - (* up *)
    destruct (editedElement s) as [edited |]; [apply saveEdited_regions |].
    destruct (lastMousePosition s) as [lastPosition |];
      [| apply regionsStep_refl; reflexivity].
    apply regionsStep_refl. destruct argument as [position | element]; [| reflexivity].
    unfold asPosition, bind, ret. apply translate_regions.
  - (* move *)
    destruct (mouseDown s); cbn [negb]; [| apply regionsStep_refl; reflexivity].
    apply regionsStep_refl.
    destruct (editedElement s) as [edited |] eqn:He.
    + unfold bind at 1.
      assert (Hmove : exists result,
                 (match movedPointIndex s, lastMousePosition s with
                  | Some _, _ => position <- asPosition argument ;; movePoint position
                  | None, Some _ => position <- asPosition argument ;; movePolygon position
                  | None, None => ret None
                  end) s = (result, s)).
      { destruct (movedPointIndex s), (lastMousePosition s), argument as [position | element];
          unfold asPosition, bind, ret, throw; eauto.
        - eexists. rewrite surjective_pairing at 1. now rewrite movePoint_state.
        - eexists. rewrite surjective_pairing at 1. now rewrite movePoint_state.
        - eexists. rewrite surjective_pairing at 1. now rewrite movePolygon_state. }
      destruct Hmove as [result ->].
      destruct result as [[polygon |] | e]; run_monad; fields; rewrite ?He; reflexivity.
    + destruct (lastMousePosition s) as [lastPosition |]; [| reflexivity].
      destruct argument as [position | element]; [| reflexivity].
      unfold asPosition, bind, ret. apply translate_regions.
Qed.

Lemma editRectangle_regions (position : Point) (action : Action) (s : State) :
  regionsStep (regionsOf s) (regionsOf (snd (editRectangle position action s))).
Proof.
  unfold editRectangle. unfold bind at 1. unfold get at 1. cbn beta iota.
  destruct (editedElement s) as [edited |].
  - destruct action; try apply create_regions; apply regionsStep_refl;
      unfold setCoordinate; run_monad; fields; try reflexivity.
    pose proof (elementLimits_state position s) as E.
    destruct (elementLimits position s) as [[limited | e] t]; cbn [snd] in E; subst t;
      [| reflexivity].
    destruct (nth_error _ 1) as [p1 |]; [| reflexivity].
    destruct (nth_error _ 3) as [p3 |]; reflexivity.
  - destruct action; apply regionsStep_refl; reflexivity.
Qed.

Lemma editPolygon_regions (position : Point) (action : Action) (s : State) :
  regionsStep (regionsOf s) (regionsOf (snd (editPolygon position action s))).
Proof.
  unfold editPolygon. unfold bind at 1. unfold get at 1. cbn beta iota. unfold bind at 1.
  pose proof (elementLimits_state position s) as E.
  destruct (elementLimits position s) as [[point | e] t]; cbn [snd] in E; subst t;
    [| apply regionsStep_refl; reflexivity].
  destruct (editedElement s) as [edited |].
  - destruct action; try (apply regionsStep_refl; reflexivity).
    run_monad.
    destruct (regionPolygon edited) as [| first rest];
      [apply regionsStep_refl; reflexivity |].
    unfold modify.
    match goal with
    | |- regionsStep _ (regionsOf (snd (create ?t))) =>
        apply (regionsStep_frame s t (snd (create t)) (snd (create t)));
          [reflexivity | reflexivity | apply create_regions]
    end.
  - destruct action; apply regionsStep_refl; reflexivity.
Qed.

Lemma dispatch_regions (e : MouseEvent) (mouseCoords : Point) (action : Action)
    (t : State) :
  regionsStep (regionsOf t)
    (regionsOf
       (snd ((if (negb (isCreateMode (mode t)) || shiftKey e)%bool then
                if mouseDown t then translate mouseCoords else ret tt
              else
                match tool t with
                | RECTANGLE_TOOL => editRectangle mouseCoords action
                | POLYGON_TOOL => editPolygon mouseCoords action
                | EDITION_TOOL => edit (AtPosition mouseCoords) (Some action)
                end) t))).
Proof.
  destruct (negb (isCreateMode (mode t)) || shiftKey e)%bool.
  - destruct (mouseDown t); apply regionsStep_refl;
      [apply translate_regions | reflexivity].
  - destruct (tool t);
      [apply editRectangle_regions | apply editPolygon_regions | apply edit_regions].
Qed.

Lemma then_track_regions (s t : State) (m : M unit) (mouseCoords : Point)
    (action : Action) :
  regionsOf t = regionsOf s ->
  regionsStep (regionsOf t) (regionsOf (snd (m t))) ->
  regionsStep (regionsOf s)
    (regionsOf (snd (let (c, s') := m t in
                     match c with
                     | Return _ => trackPosition mouseCoords action s'
                     | Throw e0 => (Throw e0, s')
                     end))).
Proof.
  intros Ht Hm. destruct (m t) as [[[] | e0] t']; cbn [snd] in *.
  - apply (regionsStep_frame s t t' _ Ht); [apply trackPosition_regions | exact Hm].
  - apply (regionsStep_frame s t t' _ Ht); [reflexivity | exact Hm].
Qed.

Lemma mouseAction_regionsStep (e : MouseEvent) (action : Action) (s : State) :
  regionsStep (regionsOf s) (regionsOf (snd (mouseAction e action s))).
Proof.
  unfold mouseAction. unfold bind at 1. unfold get at 1. cbn beta iota.
  destruct (match action with Down => true | _ => false end && negb (buttons e =? 1)%Z)%bool;
    [apply regionsStep_refl; reflexivity |].
  destruct (match action with Move => true | _ => false end && negb (mouseDown s)
            && match editedElement s with Some _ => false | None => true end)%bool;
    [apply regionsStep_refl; reflexivity |].
  destruct (eventPosition e) as [mouseCoords |]; [| apply regionsStep_refl; reflexivity].
  destruct action; run_monad; try destruct (cancelled s); cbn beta iota; cbn [negb];
    try (apply regionsStep_refl; reflexivity);
    match goal with
    | |- context [(?a && negb (viewRecenter ?v) && ?u)%bool] =>
        destruct (a && negb (viewRecenter v) && u)%bool
    end; cbn beta iota;
    try (apply regionsStep_refl; reflexivity);
    first
      [ apply then_track_regions;
        [reflexivity
        | first [apply dispatch_regions | apply regionsStep_refl; reflexivity]]
      | apply regionsStep_refl; apply trackPosition_regions ].
Qed.

(** X18: whatever the mouse event, in any state, [mouseAction] changes
    the regions in one of three ways only.  It leaves them and the events
    as they are; or it appends one region, with the next id, and dispatches
    one [create-element] event with that region; or it gives one region a
    new polygon, leaving its id and its place, and dispatches one
    [update-element] event with that id and polygon.  It never removes a
    region, moves one or changes an id. *)
Theorem mouseAction_changes_regions (e : MouseEvent) (action : Action) (s : State) :
  let s' := snd (mouseAction e action s) in
  (parsedChildren s' = parsedChildren s /\ dispatched s' = dispatched s) \/
  (exists polygon,
     let region := {| regionId := nextId (parsedChildren s); regionPolygon := polygon |} in
     parsedChildren s' = parsedChildren s ++ [Some region] /\
     dispatched s' = dispatched s ++ [CreateElement region]) \/
  (exists index base polygon,
     nth_error (parsedChildren s) index = Some (Some base) /\
     parsedChildren s'
     = firstn index (parsedChildren s)
       ++ [Some {| regionId := regionId base; regionPolygon := polygon |}]
       ++ skipn (S index) (parsedChildren s) /\
     dispatched s' = dispatched s ++ [UpdateElement (regionId base) polygon]).
Proof.
  intro s'. pose proof (mouseAction_regionsStep e action s) as H. fold s' in H.
  unfold regionsOf in H. inversion H as [c d E1 E2 | c d polygon region E1 E2 | c d index base polygon Hn E1 E2].
  - left. split; congruence.
  - right. left. exists polygon. cbv zeta. subst region. split; congruence.
  - right. right. exists index, base, polygon. repeat split; congruence.
Qed.

(** ** The ids of the regions *)

(** A list of regions without hole, whose ids are numbers that grow along
    the list. *)
Definition numbered (children : list (option Region)) : Prop :=
  Forall (fun child => exists region n, child = Some region /\ regionId region = NumberId n)
         children
  /\ increasingIds children.

(** What happens to the component: a mouse event, or the deletion of a
    region the application asks for; the watcher of the edited element
    runs after each. *)
Inductive Operation : Type :=
| Mouse (e : MouseEvent) (action : Action)
| Delete (id : Id).

Definition operate (operation : Operation) (s : State) : State :=
  watchEditedElement (editedElement s)
    match operation with
    | Mouse e action => snd (mouseAction e action s)
    | Delete id => onDeleteElement id s
    end.

Definition operations (l : list Operation) (s : State) : State :=
  fold_left (fun s operation => operate operation s) l s.

Lemma nextId_number (children : list (option Region)) : exists n, nextId children = NumberId n.
Proof.
  unfold nextId.
  destruct (at_index children (Z.of_nat (length children) - 1)) as [[lastElement |] |];
    eauto.
  destruct (regionId lastElement); eauto.
Qed.

Lemma numbered_appended (children : list (option Region)) (polygon : Polygon) :
  numbered children ->
  numbered (children ++ [Some {| regionId := nextId children; regionPolygon := polygon |}]).
Proof.
  intros [Hall Hinc]. split.
  - apply Forall_app. split; [exact Hall |]. constructor; [| constructor].
    destruct (nextId_number children) as [n En]. eauto.
  - intros i j ri rj mi mj Hij Hi Hj Ei Ej.
    assert (Hjlen : (j < length (children ++ [Some {| regionId := nextId children;
                                                       regionPolygon := polygon |}]))%nat).
    { apply nth_error_Some. congruence. }
    rewrite length_app in Hjlen. simpl in Hjlen.
    destruct (Nat.eq_dec j (length children)) as [-> | Hne].
    + rewrite nth_error_app1 in Hi by lia.
      rewrite nth_error_app2, Nat.sub_diag in Hj by lia. simpl in Hj.
      injection Hj as <-. cbn [regionId] in Ej.
      destruct (exists_last (l := children)) as (front & lastChild & ->).
      { intros ->. simpl in Hij. lia. }
      rewrite Forall_forall in Hall.
      destruct (Hall lastChild) as (lastRegion & n & -> & En);
        [apply in_or_app; right; now left |].
      rewrite (nextId_last front lastRegion n En) in Ej. injection Ej as <-.
      pose proof (nextId_above front lastRegion n En Hinc ri mi (nth_error_In _ _ Hi) Ei).
      lia.
    + rewrite nth_error_app1 in Hi, Hj by lia.
      exact (Hinc i j ri rj mi mj Hij Hi Hj Ei Ej).
Qed.

Lemma nth_error_replaced {A : Type} (l : list A) (index : nat) (x : A) (j : nat) :
  (index < length l)%nat ->
  nth_error (firstn index l ++ [x] ++ skipn (S index) l) j
  = if (j =? index)%nat then Some x else nth_error l j.
Proof.
  intro H. destruct (Nat.eqb_spec j index) as [-> | Hne].
  - rewrite nth_error_app2 by (rewrite length_firstn; lia).
    rewrite length_firstn, Nat.min_l, Nat.sub_diag by lia. reflexivity.
  - destruct (Nat.lt_ge_cases j index) as [Hlt | Hge].
    + rewrite nth_error_app1 by (rewrite length_firstn; lia).
      rewrite nth_error_firstn. destruct (Nat.ltb_spec j index); [reflexivity | lia].
    + rewrite nth_error_app2 by (rewrite length_firstn; lia).
      rewrite length_firstn, Nat.min_l by lia.
      destruct (j - index)%nat as [| k] eqn:Ek; [lia |]. cbn [app nth_error].
      rewrite nth_error_skipn. f_equal. lia.
Qed.

Lemma numbered_replaced (children : list (option Region)) (index : nat) (base : Region)
    (polygon : Polygon) :
  nth_error children index = Some (Some base) ->
  numbered children ->
  numbered (firstn index children
            ++ [Some {| regionId := regionId base; regionPolygon := polygon |}]
            ++ skipn (S index) children).
Proof.
  intros Hn [Hall Hinc].
  assert (Hlen : (index < length children)%nat) by (apply nth_error_Some; congruence).
  assert (Hbase : exists n, regionId base = NumberId n).
  { rewrite Forall_forall in Hall.
    destruct (Hall (Some base) (nth_error_In _ _ Hn)) as (region & n & E & En).
    injection E as <-. eauto. }
  split.
  - apply Forall_app. split; [now apply Forall_firstn_skipn |].
    apply Forall_app. split; [| now apply Forall_firstn_skipn].
    constructor; [| constructor]. destruct Hbase as [n En]. eauto.
  - assert (Hid : forall j r m,
               nth_error (firstn index children
                          ++ [Some {| regionId := regionId base; regionPolygon := polygon |}]
                          ++ skipn (S index) children) j = Some (Some r) ->
               regionId r = NumberId m ->
               exists r', nth_error children j = Some (Some r') /\ regionId r' = NumberId m).
    { intros j r m Hj Em. rewrite (nth_error_replaced _ _ _ _ Hlen) in Hj.
      destruct (Nat.eqb_spec j index) as [-> | Hne].
      - injection Hj as <-. exists base. split; assumption.
      - exists r. split; assumption. }
    intros i j ri rj mi mj Hij Hi Hj Ei Ej.
    destruct (Hid i ri mi Hi Ei) as (ri' & Hi' & Ei').
    destruct (Hid j rj mj Hj Ej) as (rj' & Hj' & Ej').
    exact (Hinc i j ri' rj' mi mj Hij Hi' Hj' Ei' Ej').
Qed.

Lemma numbered_step (children children' : list (option Region)) (events events' : list Event) :
  regionsStep (children, events) (children', events') ->
  numbered children -> numbered children'.
Proof.
  intros H Hn.
  inversion H as [c d E1 E2 | c d polygon region E1 E2 | c d index base polygon Hb E1 E2];
    subst.
  - exact Hn.
  - now apply numbered_appended.
  - now apply numbered_replaced.
Qed.

Lemma nth_error_removed {A : Type} (l : list A) (k i : nat) :
  (k <= length l)%nat ->
  nth_error (firstn k l ++ skipn (k + 1) l) i
  = nth_error l (if (i <? k)%nat then i else S i).
Proof.
  intro H. destruct (Nat.ltb_spec i k).
  - rewrite nth_error_app1 by (rewrite length_firstn; lia).
    rewrite nth_error_firstn. destruct (Nat.ltb_spec i k); [reflexivity | lia].
  - rewrite nth_error_app2 by (rewrite length_firstn; lia).
    rewrite length_firstn, Nat.min_l by lia.
    rewrite nth_error_skipn. f_equal. lia.
Qed.

Lemma numbered_spliced (children : list (option Region)) (start : Z) :
  numbered children -> numbered (splice start 1 [] children).
Proof.
  intros [Hall Hinc]. unfold splice. cbn [app].
  set (k := Z.to_nat (if (start <? 0)%Z
                      then Z.max (Z.of_nat (length children) + start) 0
                      else Z.min start (Z.of_nat (length children)))).
  assert (Hk : (k <= length children)%nat).
  { subst k. destruct (Z.ltb_spec start 0); lia. }
  split.
  - apply Forall_app. split; now apply Forall_firstn_skipn.
  - intros i j ri rj mi mj Hij Hi Hj Ei Ej.
    rewrite (nth_error_removed _ _ _ Hk) in Hi. rewrite (nth_error_removed _ _ _ Hk) in Hj.
    refine (Hinc _ _ ri rj mi mj _ Hi Hj Ei Ej).
    destruct (Nat.ltb_spec i k), (Nat.ltb_spec j k); lia.
Qed.

Lemma onDeleteElement_children (id : Id) (s : State) :
  parsedChildren (onDeleteElement id s)
  = splice (findChildIndex id (parsedChildren s)) 1 [] (parsedChildren s).
Proof.
  unfold onDeleteElement. rewrite removeSelectedElement_unselected. cbv zeta.
  destruct (unselected_fields id s) as (U1 & _).
  unfold getChildIndex. rewrite U1.
  match goal with |- parsedChildren (if ?c then _ else _) = _ => destruct c end;
    reflexivity.
Qed.

Lemma numbered_operate (operation : Operation) (s : State) :
  numbered (parsedChildren s) -> numbered (parsedChildren (operate operation s)).
Proof.
  intro H. unfold operate.
  rewrite (same_children _ _ (watchEditedElement_same _ _)).
  destruct operation as [e action | id].
  - pose proof (mouseAction_regionsStep e action s) as Hstep.
    exact (numbered_step _ _ _ _ Hstep H).
  - rewrite onDeleteElement_children. now apply numbered_spliced.
Qed.

(** X19: the ids of the regions stay distinct.  When the component starts
    from a list of regions without hole whose ids are numbers that grow
    along the list, it keeps such a list through any sequence of mouse
    events and deletions: no region ever gets the id of another region of
    the list, and looking a region up by its id finds it. *)
Theorem ids_stay_distinct (l : list Operation) (s : State) :
  numbered (parsedChildren s) ->
  let children := parsedChildren (operations l s) in
  numbered children /\
  (forall i j a b,
     nth_error children i = Some (Some a) -> nth_error children j = Some (Some b) ->
     regionId a = regionId b -> i = j) /\
  (forall i a, nth_error children i = Some (Some a) ->
               findChildIndex (regionId a) children = Z.of_nat i).
Proof.
  intros Hs children.
  assert (Hn : numbered children).
  { subst children. revert s Hs. induction l as [| operation l IH]; intros s Hs;
      [exact Hs |].
    cbn [operations fold_left]. apply IH. now apply numbered_operate. }
  assert (Hu : forall i j a b,
             nth_error children i = Some (Some a) -> nth_error children j = Some (Some b) ->
             regionId a = regionId b -> i = j).
  { destruct Hn as [Hall Hinc]. intros i j a b Hi Hj Hid.
    rewrite Forall_forall in Hall.
    destruct (Hall _ (nth_error_In _ _ Hi)) as (a' & m & Ea & Em). injection Ea as <-.
    destruct (Nat.lt_trichotomy i j) as [Hlt | [Heq | Hgt]]; [| exact Heq |].
    - rewrite Hid in Em. pose proof (Hinc i j a b m m Hlt Hi Hj). rewrite Hid in H.
      specialize (H Em Em). lia.
    - pose proof (Hinc j i b a m m Hgt Hj Hi). rewrite Hid in Em.
      specialize (H Em). rewrite Hid in H. specialize (H Em). lia. }
  split; [exact Hn |]. split; [exact Hu |].
  intros i a Hi.
  assert (Hfound : (0 <= findChildIndex (regionId a) children)%Z).
  { clear - Hi. revert i Hi. induction children as [| child rest IH]; intros i Hi.
    - destruct i; discriminate.
    - cbn [findChildIndex]. destruct i as [| i].
      + simpl in Hi. injection Hi as ->. rewrite Id_eqb_refl. lia.
      + simpl in Hi. specialize (IH i Hi).
        destruct (match child with
                  | Some element => Id_eqb (regionId element) (regionId a)
                  | None => false
                  end); [lia |].
        destruct (Z.ltb_spec (findChildIndex (regionId a) rest) 0); lia. }
  destruct (findChildIndex_found _ _ Hfound) as (index & region & Ei & _ & Hn' & Hr).
  rewrite Ei. f_equal. exact (Hu index i region a Hn' Hi Hr).
Qed.

Lemma numbered_fiveRegions : numbered fiveRegions.
Proof.
  split.
  - unfold fiveRegions. cbn [map].
    repeat constructor; eexists; eexists; split; reflexivity.
  - intros i j ri rj mi mj Hij Hi Hj Ei Ej. unfold fiveRegions in Hi, Hj.
    destruct i as [| [| [| [| [| i]]]]]; cbn in Hi; try (destruct i; discriminate);
      injection Hi as <-; cbn in Ei; injection Ei as <-;
      destruct j as [| [| [| [| [| j]]]]]; cbn in Hj; try (destruct j; discriminate);
      injection Hj as <-; cbn in Ej; injection Ej as <-; lia.
Qed.

Lemma ids_stay_distinct_witness :
  numbered
    (parsedChildren
       (operations
          [Delete (NumberId 3); Mouse (mouseEvent 1 (20, 30)) Down;
           Mouse (mouseEvent 1 (60, 70)) Move; Mouse (mouseEvent 0 (60, 70)) Up]
          readyToDraw)).
Proof.
  apply (ids_stay_distinct
           [Delete (NumberId 3); Mouse (mouseEvent 1 (20, 30)) Down;
            Mouse (mouseEvent 1 (60, 70)) Move; Mouse (mouseEvent 0 (60, 70)) Up]
           readyToDraw).
  exact numbered_fiveRegions.
Defined.

(** Region 1 has been dragged by (5, 5) with the edition tool and the
    button is released. *)
Definition movedRegion : State :=
  {| mode := CREATE_MODE; selected := [NumberId 1]; highlighted := [];
     hovered := Some (NumberId 1); parsedElement := Some page;
     parsedChildren := [Some {| regionId := NumberId 1;
                                regionPolygon := [(0, 0); (10, 0); (10, 10); (0, 10); (0, 0)] |};
                        Some (regionN 2)];
     editedElement := Some {| regionId := NumberId 1;
                              regionPolygon := [(5, 5); (15, 5); (15, 15); (5, 15); (5, 5)] |};
     movedPointIndex := None; mouseDown := false; lastMousePosition := Some (8, 8);
     updatedPolygon := true; cancelled := false;
     viewPosition := {| viewX := 0; viewY := 0; viewApplied := true; viewRecenter := true |};
     tool := EDITION_TOOL; dispatched := [] |}.

Lemma saveEdited_updates_in_place_witness :
  exists s',
    saveEdited movedRegion = (Return tt, s') /\
    nth_error (parsedChildren s') 0
    = Some (Some {| regionId := NumberId 1;
                    regionPolygon := [(5, 5); (15, 5); (15, 15); (5, 15); (5, 5)] |}) /\
    dispatched s'
    = [UpdateElement (NumberId 1) [(5, 5); (15, 5); (15, 15); (5, 15); (5, 5)]].
Proof.
  destruct (saveEdited_updates_in_place movedRegion
              {| regionId := NumberId 1;
                 regionPolygon := [(5, 5); (15, 5); (15, 15); (5, 15); (5, 5)] |}
              {| regionId := NumberId 1;
                 regionPolygon := [(0, 0); (10, 0); (10, 10); (0, 10); (0, 0)] |}
              0 [(5, 5); (15, 5); (15, 15); (5, 15); (5, 5)] false)
    as (s' & E & _ & _ & _ & _ & H); try reflexivity.
  destruct (H eq_refl) as (H1 & _ & H2 & _).
  exists s'. repeat split; assumption.
Defined.

(** ** Zooming with the wheel *)

(** An index of [ZOOM_FACTORS]. *)
Definition validFactor (factor : Z) : Prop :=
  (0 <= factor < Z.of_nat (length ZOOM_FACTORS))%Z.

(** X20: zooming with the wheel never leaves the table of zoom factors.
    [zoom] does not touch the state of the component; while the button is
    down it leaves the scale alone.  When it returns a scale other than the
    one it was given, the factor of this scale is an index of
    [ZOOM_FACTORS] and the scale is marked as not applied; from a valid
    index the factor moves by one step at most, and stays at 0 and at the
    last index rather than going past them. *)
Theorem zoom_within_factors (position : Point) (deltaY : Q) (withLimits : bool)
    (scale : Scale) (s : State) :
  snd (zoom position deltaY withLimits scale s) = s /\
  (mouseDown s = true -> fst (zoom position deltaY withLimits scale s) = Return scale) /\
  (forall scale',
     fst (zoom position deltaY withLimits scale s) = Return scale' ->
     scale' = scale \/
     (validFactor (scaleFactor scale') /\ scaleApplied scale' = false /\
      exists factor, nth_error ZOOM_FACTORS (Z.to_nat (scaleFactor scale')) = Some factor)) /\
  (forall scale',
     fst (zoom position deltaY withLimits scale s) = Return scale' ->
     validFactor (scaleFactor scale) ->
     validFactor (scaleFactor scale') /\
     (Z.abs (scaleFactor scale' - scaleFactor scale) <= 1)%Z /\
     (Qlt_bool deltaY 0 = true -> (scaleFactor scale <= scaleFactor scale')%Z) /\
     (Qlt_bool deltaY 0 = false -> (scaleFactor scale' <= scaleFactor scale)%Z)).
Proof.
  unfold zoom. unfold bind, get, ret, throw. cbn beta iota.
  destruct (mouseDown s) eqn:Hdown.
  { cbn. split; [reflexivity |]. split; [reflexivity |].
    split; intros scale' E; injection E as <-; [now left |].
    intro H. rewrite Z.sub_diag. repeat split; try apply H; simpl; lia. }
  cbv zeta.
  set (stepped := (scaleFactor scale + (if Qlt_bool deltaY 0 then 1 else -1))%Z).
  set (raised := if (stepped <? 0)%Z then 0%Z else stepped).
  set (factor := if (Z.of_nat (length ZOOM_FACTORS) <=? raised)%Z
                 then (Z.of_nat (length ZOOM_FACTORS) - 1)%Z else raised).
  assert (Hvalid : validFactor factor).
  { unfold validFactor. subst factor raised. cbn [ZOOM_FACTORS length] in *.
    destruct (Z.ltb_spec stepped 0);
      destruct (Z.leb_spec (Z.of_nat 8) 0); destruct (Z.leb_spec (Z.of_nat 8) stepped); lia. }
  assert (Hnth : exists f, nth_error ZOOM_FACTORS (Z.to_nat factor) = Some f).
  { destruct (nth_error ZOOM_FACTORS (Z.to_nat factor)) as [f |] eqn:E; [eauto |].
    apply nth_error_None in E. unfold validFactor in Hvalid. lia. }
  assert (Hstep : validFactor (scaleFactor scale) ->
                  (Z.abs (factor - scaleFactor scale) <= 1)%Z /\
                  (Qlt_bool deltaY 0 = true -> (scaleFactor scale <= factor)%Z) /\
                  (Qlt_bool deltaY 0 = false -> (factor <= scaleFactor scale)%Z)).
  { unfold validFactor. subst factor raised stepped. cbn [ZOOM_FACTORS length] in *.
    intro H. destruct (Qlt_bool deltaY 0);
      match goal with |- context [(?a <? 0)%Z] => destruct (Z.ltb_spec a 0) end;
      match goal with |- context [(Z.of_nat 8 <=? ?a)%Z] => destruct (Z.leb_spec (Z.of_nat 8) a) end;
      repeat split; intros; try discriminate; lia. }
  destruct (factor =? scaleFactor scale)%Z eqn:Esame.
  { cbn. split; [reflexivity |]. split; [discriminate |].
    split; intros scale' E; injection E as <-; [now left |].
    intro H. rewrite Z.sub_diag. repeat split; try apply H; simpl; lia. }
  destruct withLimits.
  - pose proof (elementLimits_state position s) as El.
    destruct (elementLimits position s) as [[limited | e] t]; cbn [snd] in El; subst t.
    + destruct (scaleApplied scale) eqn:Ea; cbn.
      * split; [reflexivity |]. split; [discriminate |].
        split; intros scale' E; injection E as <-; cbn [scaleFactor scaleApplied].
        -- right. split; [exact Hvalid |]. split; [reflexivity | exact Hnth].
        -- intro H. split; [exact Hvalid | now apply Hstep].
      * split; [reflexivity |]. split; [discriminate |].
        split; intros scale' E; injection E as <-; cbn [scaleFactor scaleApplied].
        -- right. split; [exact Hvalid |]. split; [reflexivity | exact Hnth].
        -- intro H. split; [exact Hvalid | now apply Hstep].
    + cbn. split; [reflexivity |]. split; [discriminate |]. split; discriminate.
  - cbn. split; [reflexivity |]. split; [discriminate |]. split; discriminate.
Qed.

(** ** Drawing a polygon *)

(** What holds while a polygon is drawn: the polygon tool in create mode
    and the region being drawn. *)
Record drawingPolygon (s0 : State) (polygon : Polygon) (s : State) : Prop := {
  polygon_mode : mode s = CREATE_MODE;
  polygon_tool : tool s = POLYGON_TOOL;
  polygon_cancelled : cancelled s = false;
  polygon_view : viewInPlace s;
  polygon_edited :
    editedElement s = Some {| regionId := StringId "created-polygon";
                              regionPolygon := polygon |};
  polygon_element : parsedElement s = parsedElement s0;
  polygon_children : parsedChildren s = parsedChildren s0;
  polygon_announced : announced s = announced s0
}.

(** The same before the first click: no region is in edition. *)
Record readyForPolygon (s0 s : State) : Prop := {
  ready_mode : mode s = CREATE_MODE;
  ready_tool : tool s = POLYGON_TOOL;
  ready_cancelled : cancelled s = false;
  ready_view : viewInPlace s;
  ready_edited : editedElement s = None;
  ready_element : parsedElement s = parsedElement s0;
  ready_children : parsedChildren s = parsedChildren s0;
  ready_announced : announced s = announced s0
}.

Lemma trackPosition_drawingPolygon (s0 : State) (polygon : Polygon) (mouseCoords : Point)
    (action : Action) (s : State) :
  drawingPolygon s0 polygon s ->
  drawingPolygon s0 polygon (snd (trackPosition mouseCoords action s)).
Proof.
  intros [Hmode Htool Hc Hview He Helt Hch Hd].
  destruct (trackPosition_fields mouseCoords action s)
    as (_ & T1 & T2 & T3 & T4 & T5 & T6 & T7 & T8 & _ & _ & _ & T9 & T10 & T11 & _).
  constructor; unfold announced in *; try congruence.
  unfold viewInPlace in *. rewrite T9, T10, T11. exact Hview.
Qed.

Lemma trackPosition_readyForPolygon (s0 : State) (mouseCoords : Point)
    (action : Action) (s : State) :
  readyForPolygon s0 s -> readyForPolygon s0 (snd (trackPosition mouseCoords action s)).
Proof.
  intros [Hmode Htool Hc Hview He Helt Hch Hd].
  destruct (trackPosition_fields mouseCoords action s)
    as (_ & T1 & T2 & T3 & T4 & T5 & T6 & T7 & T8 & _ & _ & _ & T9 & T10 & T11 & _).
  constructor; unfold announced in *; try congruence.
  unfold viewInPlace in *. rewrite T9, T10, T11. exact Hview.
Qed.

Section PolygonGesture.

Variables (s0 : State) (element : Element) (box : Box).
Hypothesis Helement : parsedElement s0 = Some element.
Hypothesis Hbox : boundingBox element = Return box.

Lemma polygon_ready_move (s : State) (pressed : Z) (q : Point) :
  readyForPolygon s0 s -> mouseDown s = false ->
  snd (mouseAction (mouseEvent pressed q) Move s) = s.
Proof.
  intros [Hmode Htool Hc Hview He Helt Hch Hd] Hdown.
  unfold mouseAction. run_monad. fields. now rewrite Hdown, He.
Qed.

Lemma polygon_ready_down (s : State) (q : Point) :
  readyForPolygon s0 s ->
  readyForPolygon s0 (snd (mouseAction (mouseEvent 1 q) Down s)).
Proof.
  intros [Hmode Htool Hc Hview He Helt Hch Hd].
  assert (Hel' : parsedElement (setMouseDown true s) = Some element) by (fields; congruence).
  unfold mouseAction, editPolygon. run_monad. fields.
  cbn [Z.eqb Pos.eqb negb andb]. rewrite Hc. cbn [negb]. fields.
  rewrite (viewInPlace_test s false Hview), Hmode, Htool. cbn [isCreateMode negb orb].
  cbn beta. rewrite (elementLimits_box (setMouseDown true s) element box Hel' Hbox q). fields. rewrite He.
  apply trackPosition_readyForPolygon. constructor; fields; try congruence. exact Hview.
Qed.

Lemma polygon_ready_up (s : State) (pressed : Z) (q : Point) :
  readyForPolygon s0 s ->
  drawingPolygon s0 [limitTo box q; limitTo box q]
    (snd (mouseAction (mouseEvent pressed q) Up s)) /\
  mouseDown (snd (mouseAction (mouseEvent pressed q) Up s)) = false.
Proof.
  intros [Hmode Htool Hc Hview He Helt Hch Hd].
  assert (Hel' : parsedElement (setMouseDown false s) = Some element) by (fields; congruence).
  unfold mouseAction, editPolygon. run_monad. fields.
  rewrite Hc. cbn [negb andb]. fields.
  rewrite (viewInPlace_test s true Hview), Hmode, Htool. cbn [isCreateMode negb orb].
  cbn beta. rewrite (elementLimits_box (setMouseDown false s) element box Hel' Hbox q). fields. rewrite He.
  unfold modify. cbn beta iota. split.
  - apply trackPosition_drawingPolygon. constructor; fields; try congruence. exact Hview.
  - match goal with
    | |- mouseDown (snd (trackPosition ?c ?a ?t)) = _ =>
        destruct (trackPosition_fields c a t) as (_ & _ & _ & T3 & _)
    end.
    now rewrite T3.
Qed.

Lemma polygon_move (s : State) (polygon : Polygon) (pressed : Z) (q : Point) :
  drawingPolygon s0 polygon s ->
  drawingPolygon s0 (splice (-1) 1 [limitTo box q] polygon)
    (snd (mouseAction (mouseEvent pressed q) Move s)) /\
  mouseDown (snd (mouseAction (mouseEvent pressed q) Move s)) = mouseDown s.
Proof.
  intros [Hmode Htool Hc Hview He Helt Hch Hd].
  assert (Hel' : parsedElement s = Some element) by congruence.
  unfold mouseAction, editPolygon. run_monad. fields.
  rewrite He. rewrite andb_false_r. cbn [andb negb]. cbn beta iota. fields.
  rewrite (viewInPlace_test s false Hview), Hmode, Htool. cbn [isCreateMode negb orb].
  cbn beta. rewrite (elementLimits_box (s) element box Hel' Hbox q). fields. rewrite He.
  unfold modify. cbn beta iota. fields. split.
  - apply trackPosition_drawingPolygon.
    constructor; fields; try congruence; try reflexivity. exact Hview.
  - match goal with
    | |- mouseDown (snd (trackPosition ?c ?a ?t)) = _ =>
        destruct (trackPosition_fields c a t) as (_ & _ & _ & T3 & _)
    end.
    now rewrite T3.
Qed.

Lemma polygon_down (s : State) (polygon : Polygon) (q : Point) :
  drawingPolygon s0 polygon s ->
  drawingPolygon s0 polygon (snd (mouseAction (mouseEvent 1 q) Down s)) /\
  mouseDown (snd (mouseAction (mouseEvent 1 q) Down s)) = true.
Proof.
  intros [Hmode Htool Hc Hview He Helt Hch Hd].
  assert (Hel' : parsedElement (setMouseDown true s) = Some element) by (fields; congruence).
  unfold mouseAction, editPolygon. run_monad. fields.
  cbn [Z.eqb Pos.eqb negb andb]. rewrite Hc. cbn [negb]. fields.
  rewrite (viewInPlace_test s false Hview), Hmode, Htool. cbn [isCreateMode negb orb].
  cbn beta. rewrite (elementLimits_box (setMouseDown true s) element box Hel' Hbox q). fields. rewrite He.
  unfold modify. cbn beta iota. fields.
  split.
  - apply trackPosition_drawingPolygon.
    constructor; fields; try congruence; try reflexivity. exact Hview.
  - match goal with
    | |- mouseDown (snd (trackPosition ?c ?a ?t)) = _ =>
        destruct (trackPosition_fields c a t) as (_ & _ & _ & T3 & _)
    end.
    now rewrite T3.
Qed.

Lemma polygon_up (s : State) (polygon : Polygon) (pressed : Z) (q : Point) :
  drawingPolygon s0 polygon s ->
  drawingPolygon s0 (polygon ++ [limitTo box q])
    (snd (mouseAction (mouseEvent pressed q) Up s)) /\
  mouseDown (snd (mouseAction (mouseEvent pressed q) Up s)) = false.
Proof.
  intros [Hmode Htool Hc Hview He Helt Hch Hd].
  assert (Hel' : parsedElement (setMouseDown false s) = Some element) by (fields; congruence).
  unfold mouseAction, editPolygon. run_monad. fields.
  rewrite Hc. cbn [negb andb]. fields.
  rewrite (viewInPlace_test s true Hview), Hmode, Htool. cbn [isCreateMode negb orb].
  cbn beta. rewrite (elementLimits_box (setMouseDown false s) element box Hel' Hbox q). fields. rewrite He.
  unfold modify. cbn beta iota. fields. split.
  - apply trackPosition_drawingPolygon.
    constructor; fields; try congruence; try reflexivity. exact Hview.
  - match goal with
    | |- mouseDown (snd (trackPosition ?c ?a ?t)) = _ =>
        destruct (trackPosition_fields c a t) as (_ & _ & _ & T3 & _)
    end.
    now rewrite T3.
Qed.

End PolygonGesture.

(** The watcher leaves the drawing as it is. *)
Lemma drawingPolygon_watched (s0 : State) (polygon : Polygon) (oldValue : option Region)
    (s : State) :
  drawingPolygon s0 polygon s -> drawingPolygon s0 polygon (watchEditedElement oldValue s).
Proof.
  intros [Hmode Htool Hc Hview He Helt Hch Hd].
  destruct (watchEditedElement_same oldValue s)
    as [Wmode Whighlighted Whovered Welement Wchildren Wedited Windex Wdown Wposition
          Wupdated Wcancelled Wview Wtool Wannounced].
  constructor; try congruence.
  unfold viewInPlace in *. now rewrite Wview.
Qed.

Lemma readyForPolygon_watched (s0 : State) (oldValue : option Region) (s : State) :
  readyForPolygon s0 s -> readyForPolygon s0 (watchEditedElement oldValue s).
Proof.
  intros [Hmode Htool Hc Hview He Helt Hch Hd].
  destruct (watchEditedElement_same oldValue s)
    as [Wmode Whighlighted Whovered Welement Wchildren Wedited Windex Wdown Wposition
          Wupdated Wcancelled Wview Wtool Wannounced].
  constructor; try congruence.
  unfold viewInPlace in *. now rewrite Wview.
Qed.

Lemma mouseDown_watched (oldValue : option Region) (s : State) :
  mouseDown (watchEditedElement oldValue s) = mouseDown s.
Proof. apply (same_down _ _ (watchEditedElement_same oldValue s)). Qed.

(** A click at a position: the mouse comes there, the left button is
    pressed and released. *)
Definition click (v : Point) : list (MouseEvent * Action) :=
  [(mouseEvent 0 v, Move); (mouseEvent 1 v, Down); (mouseEvent 0 v, Up)].

Lemma last_cons_default {A : Type} (a d : A) (l : list A) : last (a :: l) d = last l a.
Proof.
  revert a d. induction l as [| b l IH]; intros a d; [reflexivity |].
  change (last (b :: l) d = last (b :: l) a). now rewrite (IH b d), (IH b a).
Qed.

Section PolygonClicks.

Variables (s0 : State) (element : Element) (box : Box).
Hypothesis Helement : parsedElement s0 = Some element.
Hypothesis Hbox : boundingBox element = Return box.

Lemma polygon_first_click (s : State) (v : Point) :
  readyForPolygon s0 s -> mouseDown s = false ->
  drawingPolygon s0 [limitTo box v; limitTo box v] (mouseEvents (click v) s).
Proof.
  intros Hready Hdown. unfold click. cbn [mouseEvents]. unfold handleMouse at 3.
  rewrite (polygon_ready_move s0 s 0 v Hready Hdown).
  assert (Hready' : readyForPolygon s0 (watchEditedElement (editedElement s) s))
    by now apply readyForPolygon_watched.
  unfold handleMouse. apply drawingPolygon_watched.
  apply (polygon_ready_up s0 element box Helement Hbox).
  apply readyForPolygon_watched.
  now apply (polygon_ready_down s0 element box Helement Hbox).
Qed.

Lemma polygon_next_click (s : State) (front : Polygon) (x v : Point) :
  drawingPolygon s0 (front ++ [x]) s ->
  drawingPolygon s0 ((front ++ [limitTo box v]) ++ [limitTo box v])
    (mouseEvents (click v) s).
Proof.
  intro Hdraw. unfold click. cbn [mouseEvents]. unfold handleMouse.
  apply drawingPolygon_watched.
  apply (polygon_up s0 element box Helement Hbox).
  apply drawingPolygon_watched.
  apply (polygon_down s0 element box Helement Hbox).
  apply drawingPolygon_watched.
  rewrite <- (splice_last [limitTo box v] front x).
  now apply (polygon_move s0 element box Helement Hbox).
Qed.

Lemma polygon_clicks (vs : list Point) :
  forall (s : State) (front : Polygon) (x : Point),
    drawingPolygon s0 (front ++ [x]) s ->
    drawingPolygon s0
      (front ++ map (limitTo box) vs ++ [last (map (limitTo box) vs) x])
      (mouseEvents (flat_map click vs) s).
Proof.
  induction vs as [| v vs IH]; intros s front x Hdraw; [exact Hdraw |].
  cbn [flat_map]. rewrite mouseEvents_app.
  pose proof (IH _ _ _ (polygon_next_click s front x v Hdraw)) as H.
  cbn [map]. rewrite last_cons_default.
  rewrite <- app_assoc in H. exact H.
Qed.

(** The polygon once the vertices have been clicked, the last one
    following the mouse. *)
Lemma polygon_drawn (s : State) (v : Point) (vs : list Point) :
  readyForPolygon s0 s -> mouseDown s = false ->
  drawingPolygon s0
    (map (limitTo box) (v :: vs) ++ [last (map (limitTo box) vs) (limitTo box v)])
    (mouseEvents (flat_map click (v :: vs)) s).
Proof.
  intros Hready Hdown. cbn [flat_map]. rewrite mouseEvents_app.
  apply (polygon_clicks vs _ [limitTo box v] (limitTo box v)).
  now apply polygon_first_click.
Qed.

Lemma pointMouseUp_first (s : State) (first : Point) (more : Polygon) (x : Point) :
  drawingPolygon s0 (first :: more ++ [x]) s ->
  pointMouseUp 0 s
  = (let (c, s') :=
       create (setEditedElement
                 (Some {| regionId := StringId "created-polygon";
                          regionPolygon := first :: more ++ [first] |}) s) in
     match c with
     | Return _ => (Return true, s')
     | Throw e => (Throw e, s')
     end).
Proof.
  intros [Hmode Htool Hc Hview He Helt Hch Hd].
  unfold pointMouseUp. run_monad. rewrite Hc, Htool. cbn [Nat.eqb negb]. rewrite He.
  fields. unfold modify.
  change (first :: more ++ [x]) with ((first :: more) ++ [x]).
  rewrite splice_last. reflexivity.
Qed.

Lemma doubleClick_last (s : State) (first : Point) (more : Polygon) (x : Point)
    (pressed : Z) (q : Point) :
  drawingPolygon s0 (first :: more ++ [x]) s ->
  mouseAction (mouseEvent pressed q) DbClick s
  = (let (c, s') :=
       create (setEditedElement
                 (Some {| regionId := StringId "created-polygon";
                          regionPolygon := first :: more ++ [first] |}) s) in
     match c with
     | Return _ => trackPosition q DbClick s'
     | Throw e => (Throw e, s')
     end).
Proof.
  intros [Hmode Htool Hc Hview He Helt Hch Hd].
  assert (Hel' : parsedElement s = Some element) by congruence.
  unfold mouseAction, editPolygon. run_monad. fields.
  cbn [andb negb]. cbn beta iota. fields.
  rewrite (viewInPlace_test s false Hview), Hmode, Htool. cbn [isCreateMode negb orb].
  cbn beta. rewrite (elementLimits_box s element box Hel' Hbox q). fields. rewrite He.
  fields. unfold modify. cbn beta iota.
  change (first :: more ++ [x]) with ((first :: more) ++ [x]).
  rewrite splice_last. fields.
  destruct (create _) as [[[] | e] t]; reflexivity.
Qed.

End PolygonClicks.

(** The click on the first point of the polygon in edition.  [mousedown]
    reaches the point, then the image layer; [mouseup] reaches the point,
    which keeps it from the image layer.  The watcher runs after each of
    the two events. *)
Definition pressFirstPoint (position : Point) (s : State) : State :=
  watchEditedElement (editedElement s)
    (snd ((pointMouseDown 0 ;;; mouseAction (mouseEvent 1 position) Down) s)).

Definition releaseFirstPoint (s : State) : Completion bool * State :=
  let (result, s') := pointMouseUp 0 s in
  (result, watchEditedElement (editedElement s) s').

Lemma pointMouseDown_drawing (s0 s : State) (polygon : Polygon) (index : nat) :
  drawingPolygon s0 polygon s -> pointMouseDown index s = (Return tt, s).
Proof.
  intros [Hmode Htool Hc Hview He Helt Hch Hd].
  unfold pointMouseDown. run_monad. now rewrite Htool.
Qed.

Lemma pressFirstPoint_drawing (s0 s : State) (element : Element) (box : Box)
    (polygon : Polygon) (q : Point) :
  parsedElement s0 = Some element -> boundingBox element = Return box ->
  drawingPolygon s0 polygon s ->
  drawingPolygon s0 polygon (pressFirstPoint q s) /\
  mouseDown (pressFirstPoint q s) = true.
Proof.
  intros Helement Hbox Hdraw. unfold pressFirstPoint, bind.
  rewrite (pointMouseDown_drawing s0 s polygon 0 Hdraw).
  destruct (polygon_down s0 element box Helement Hbox s polygon q Hdraw) as [Hdown Hheld].
  split; [now apply drawingPolygon_watched | now rewrite mouseDown_watched].
Qed.

(** [checkPolygon] on points that are pairs of numbers, one at least:
    the polygon is returned or refused as invalid. *)
Lemma checkPolygon_points (p : Point) (l : Polygon) (minSize : Q) :
  match checkPolygon (rawPolygon (p :: l)) minSize with
  | Return _ | Throw (InvalidPolygonError _) => True
  | Throw _ => False
  end.
Proof.
  rewrite checkPolygon_rawPolygon.
  pose proof (checkFinitePolygon_cases (p :: l) minSize) as H.
  destruct (checkFinitePolygon (p :: l) minSize) as [result | [[] | reason | |]];
    try exact I; try exact H; discriminate H.
Qed.

(** What is left once the drawn polygon has been handed to [create]: no
    region is in edition; the sanitized polygon has been appended with the
    next id and announced, or, the polygon being invalid, nothing has been
    appended or announced. *)
Definition polygonClosed (s0 : State) (drawn : Polygon) (s' : State) : Prop :=
  editedElement s' = None /\
  (forall checked,
     checkPolygon (rawPolygon drawn) POLYGON_MIN_SIZE = Return checked ->
     let region := {| regionId := nextId (parsedChildren s0); regionPolygon := checked |} in
     parsedChildren s' = parsedChildren s0 ++ [Some region] /\
     announced s' = announced s0 ++ [CreateElement region]) /\
  (forall reason,
     checkPolygon (rawPolygon drawn) POLYGON_MIN_SIZE = Throw (InvalidPolygonError reason) ->
     parsedChildren s' = parsedChildren s0 /\ announced s' = announced s0).

Lemma polygonClosed_watched (s0 : State) (drawn : Polygon) (oldValue : option Region)
    (s' : State) :
  polygonClosed s0 drawn s' -> polygonClosed s0 drawn (watchEditedElement oldValue s').
Proof.
  unfold polygonClosed. destruct (watchEditedElement_same oldValue s')
    as [Wmode Whighlighted Whovered Welement Wchildren Wedited Windex Wdown Wposition
          Wupdated Wcancelled Wview Wtool Wannounced].
  now rewrite Wedited, Wchildren, Wannounced.
Qed.

Lemma create_drawn (s0 s : State) (p : Point) (l : Polygon) :
  parsedChildren s = parsedChildren s0 -> announced s = announced s0 ->
  let result :=
    create (setEditedElement
              (Some {| regionId := StringId "created-polygon"; regionPolygon := p :: l |}) s) in
  fst result = Return tt /\ polygonClosed s0 (p :: l) (snd result) /\
  mouseDown (snd result) = mouseDown s.
Proof.
  intros Hch Hd.
  set (edited := {| regionId := StringId "created-polygon"; regionPolygon := p :: l |}).
  assert (Hedited : editedElement (setEditedElement (Some edited) s) = Some edited)
    by reflexivity.
  pose proof (checkPolygon_points p l POLYGON_MIN_SIZE) as Hcases.
  unfold polygonClosed. cbv zeta.
  destruct (checkPolygon (rawPolygon (p :: l)) POLYGON_MIN_SIZE) as [checked | e] eqn:Hcheck.
  - rewrite (create_success _ edited checked Hedited Hcheck). cbn [fst snd].
    rewrite announced_dispatchEvent. unfold announced in *. fields.
    split; [reflexivity | split; [split; [reflexivity | split] | reflexivity]].
    + intros checked' E. injection E as <-. now rewrite Hd, Hch.
    + intros reason E. discriminate E.
  - rewrite (create_rejected _ edited e Hedited Hcheck).
    destruct e as [| reason | |]; try contradiction. cbn [fst snd]. fields.
    split; [reflexivity | split; [split; [reflexivity | split] | reflexivity]].
    + intros checked E. discriminate E.
    + intros reason' _. split; assumption.
Qed.

Lemma releaseFirstPoint_closes (s0 s : State) (first : Point) (more : Polygon) (x : Point) :
  drawingPolygon s0 (first :: more ++ [x]) s ->
  fst (releaseFirstPoint s) = Return true /\
  polygonClosed s0 (first :: more ++ [first]) (snd (releaseFirstPoint s)) /\
  mouseDown (snd (releaseFirstPoint s)) = mouseDown s.
Proof.
  intro Hdraw. unfold releaseFirstPoint.
  rewrite (pointMouseUp_first s0 s first more x Hdraw).
  destruct Hdraw as [Hmode Htool Hc Hview He Helt Hch Hd].
  destruct (create_drawn s0 s first (more ++ [first]) Hch Hd) as (Hreturn & Hclosed & Hheld).
  destruct (create _) as [[[] | e] t]; cbn [fst snd] in *; [| discriminate Hreturn].
  split; [reflexivity |].
  split; [now apply polygonClosed_watched | now rewrite mouseDown_watched].
Qed.

(** X21: with the polygon tool, clicks at one or more positions and then
    on the first point close the polygon: the positions, each brought
    into the bounding box of the element, followed by the first one again,
    go through checkPolygon.  When it accepts them the result is appended
    as a new region and announced; when it rejects them as an invalid
    polygon nothing is created; either way the edition is over, and the
    mouseup is kept from the image layer, which leaves the button recorded
    as held. *)
Theorem draw_polygon (s : State) (element : Element) (box : Box)
    (v : Point) (vs : list Point) (r : Point) :
  mode s = CREATE_MODE -> tool s = POLYGON_TOOL -> cancelled s = false ->
  viewInPlace s -> editedElement s = None -> mouseDown s = false ->
  parsedElement s = Some element -> boundingBox element = Return box ->
  let closing :=
    releaseFirstPoint
      (pressFirstPoint r
         (mouseEvents (flat_map click (v :: vs) ++ [(mouseEvent 0 r, Move)]) s)) in
  fst closing = Return true /\
  polygonClosed s (map (limitTo box) (v :: vs) ++ [limitTo box v]) (snd closing) /\
  mouseDown (snd closing) = true.
Proof.
  intros Hmode Htool Hc Hview He Hdown Helement Hbox closing.
  assert (Hready : readyForPolygon s s) by (constructor; auto).
  pose proof (polygon_drawn s element box Helement Hbox s v vs Hready Hdown) as Hdrawn.
  pose proof (polygon_move s element box Helement Hbox _ _ 0 r Hdrawn) as [Hmove _].
  apply (drawingPolygon_watched _ _
           (editedElement (mouseEvents (flat_map click (v :: vs)) s))) in Hmove.
  fold (handleMouse (mouseEvent 0 r) Move (mouseEvents (flat_map click (v :: vs)) s))
    in Hmove.
  rewrite splice_last in Hmove. cbn [map app] in Hmove.
  destruct (pressFirstPoint_drawing s _ element box _ r Helement Hbox Hmove)
    as [Hpressed Hheld].
  destruct (releaseFirstPoint_closes s _ _ _ _ Hpressed) as (Hreturn & Hclosed & Hsame).
  assert (Eclosing : closing
                     = releaseFirstPoint
                         (pressFirstPoint r
                            (handleMouse (mouseEvent 0 r) Move
                               (mouseEvents (flat_map click (v :: vs)) s)))).
  { unfold closing. rewrite mouseEvents_app. reflexivity. }
  rewrite Eclosing. cbn [map app].
  split; [exact Hreturn |]. split; [exact Hclosed | congruence].
Qed.

(** The component over the 100 by 100 page with five regions, in create
    mode with the polygon tool. *)
Definition readyToClick : State := setTool POLYGON_TOOL readyToDraw.

Lemma draw_polygon_witness :
  let closing :=
    releaseFirstPoint
      (pressFirstPoint (11, 11)
         (mouseEvents
            (flat_map click [(10, 10); (60, 10); (60, 130)]
             ++ [(mouseEvent 0 (11, 11), Move)])
            readyToClick)) in
  let region := {| regionId := NumberId 6;
                   regionPolygon := [(10, 10); (60, 10); (60, 100); (10, 10)] |} in
  fst closing = Return true /\
  editedElement (snd closing) = None /\
  parsedChildren (snd closing) = fiveRegions ++ [Some region] /\
  announced (snd closing) = [CreateElement region].
Proof.
  destruct (draw_polygon readyToClick page pageBox (10, 10) [(60, 10); (60, 130)] (11, 11)
              eq_refl eq_refl eq_refl (or_introl (conj (Qeq_refl 0) (Qeq_refl 0)))
              eq_refl eq_refl eq_refl eq_refl) as (Hreturn & (Hedited & Hcreated & _) & _).
  split; [exact Hreturn | split; [exact Hedited |]].
  apply (Hcreated [(10, 10); (60, 10); (60, 100); (10, 10)]).
  vm_compute. reflexivity.
Defined.

(** A point that follows itself is dropped by the deduplication. *)
Lemma dedupAfter_repeated (front rest : Polygon) (p : Point) :
  forall previous,
    dedupAfter previous (front ++ p :: p :: rest) = dedupAfter previous (front ++ p :: rest).
Proof.
  induction front as [| q front IH]; intro previous.
  - cbn [app dedupAfter]. destruct (pointsEqual p previous) eqn:E.
    + reflexivity.
    + now rewrite pointsEqual_refl.
  - cbn [app dedupAfter]. destruct (pointsEqual q previous); now rewrite IH.
Qed.

Lemma deduplicate_repeated (front rest : Polygon) (p : Point) :
  deduplicate (front ++ p :: p :: rest) = deduplicate (front ++ p :: rest).
Proof.
  destruct front as [| q front].
  - cbn [app deduplicate dedupAfter]. now rewrite pointsEqual_refl.
  - cbn [app deduplicate]. now rewrite dedupAfter_repeated.
Qed.

Lemma checkPolygon_repeated (front rest : Polygon) (p : Point) (minSize : Q) :
  checkPolygon (rawPolygon (front ++ p :: p :: rest)) minSize
  = checkPolygon (rawPolygon (front ++ p :: rest)) minSize.
Proof.
  rewrite !checkPolygon_rawPolygon, !checkFinitePolygon_unfold.
  unfold normalize, roundPolygon, hasNegativeCoordinate.
  rewrite !map_app. cbn [map]. rewrite deduplicate_repeated.
  rewrite !existsb_app. cbn [existsb].
  assert (E : forall b c, b || (b || c) = b || c) by (intros [] []; reflexivity).
  now rewrite E.
Qed.

Lemma last_map_default {A B : Type} (f : A -> B) (l : list A) :
  forall d, last (map f l) (f d) = f (last l d).
Proof.
  induction l as [| a l IH]; intro d; [reflexivity |].
  cbn [map]. now rewrite !last_cons_default, IH.
Qed.

Lemma polygonClosed_same (s0 s' : State) (drawn drawn' : Polygon) :
  checkPolygon (rawPolygon drawn) POLYGON_MIN_SIZE
  = checkPolygon (rawPolygon drawn') POLYGON_MIN_SIZE ->
  polygonClosed s0 drawn s' -> polygonClosed s0 drawn' s'.
Proof. unfold polygonClosed. intros ->. exact (fun H => H). Qed.

Lemma polygonClosed_tracked (s0 s' : State) (drawn : Polygon) (q : Point) (action : Action) :
  polygonClosed s0 drawn s' ->
  polygonClosed s0 drawn (snd (trackPosition q action s')).
Proof.
  destruct (trackPosition_fields q action s')
    as (_ & _ & _ & _ & _ & T5 & _ & T7 & T8 & _).
  unfold polygonClosed, announced. now rewrite T5, T7, T8.
Qed.

(** A double click while a polygon is drawn closes it: the first point
    takes the place of the last one and the polygon is handed to [create]. *)
Lemma doubleClick_closes (s0 s : State) (element : Element) (box : Box)
    (first : Point) (more : Polygon) (x : Point) (pressed : Z) (q : Point) :
  parsedElement s0 = Some element -> boundingBox element = Return box ->
  drawingPolygon s0 (first :: more ++ [x]) s ->
  polygonClosed s0 (first :: more ++ [first])
    (handleMouse (mouseEvent pressed q) DbClick s).
Proof.
  intros Helement Hbox Hdraw. unfold handleMouse. apply polygonClosed_watched.
  rewrite (doubleClick_last s0 element box Helement Hbox s first more x pressed q Hdraw).
  destruct Hdraw as [Hmode Htool Hc Hview He Helt Hch Hd].
  destruct (create_drawn s0 s first (more ++ [first]) Hch Hd) as (Hreturn & Hclosed & _).
  destruct (create _) as [[[] | e] t]; cbn [fst snd] in *; [| discriminate Hreturn].
  now apply polygonClosed_tracked.
Qed.

Lemma pointMouseUp_other (s0 s : State) (polygon : Polygon) (index : nat) :
  drawingPolygon s0 polygon s -> index <> 0%nat ->
  pointMouseUp index s = (Return true, s).
Proof.
  intros [Hmode Htool Hc Hview He Helt Hch Hd] Hindex.
  unfold pointMouseUp. run_monad. rewrite Hc, Htool.
  destruct index as [| index]; [contradiction | reflexivity].
Qed.

(** The [mouseup] on a point of the polygon, and the watcher after it. *)
Definition releasePoint (index : nat) (s : State) : Completion bool * State :=
  let (result, s') := pointMouseUp index s in
  (result, watchEditedElement (editedElement s) s').

(** X22: with the polygon tool, clicks at one or more positions, the last
    of them a double click, close the polygon as a click on its first
    point does: the positions brought into the bounding box of the
    element, followed by the first one again, are what checkPolygon
    decides on.  This holds whether the second mouseup of the double click
    reaches the image layer, which adds the last position once more, or
    a point of the polygon other than the first, which stops it. *)
Theorem doubleClick_polygon (s : State) (element : Element) (box : Box)
    (v : Point) (vs : list Point) :
  mode s = CREATE_MODE -> tool s = POLYGON_TOOL -> cancelled s = false ->
  viewInPlace s -> editedElement s = None -> mouseDown s = false ->
  parsedElement s = Some element -> boundingBox element = Return box ->
  let position := last vs v in
  let pressed :=
    mouseEvents (flat_map click (v :: vs) ++ [(mouseEvent 1 position, Down)]) s in
  let drawn := map (limitTo box) (v :: vs) ++ [limitTo box v] in
  polygonClosed s drawn
    (mouseEvents [(mouseEvent 0 position, Up); (mouseEvent 0 position, DbClick)] pressed) /\
  (forall index, index <> 0%nat ->
     fst (releasePoint index pressed) = Return true /\
     polygonClosed s drawn
       (mouseEvents [(mouseEvent 0 position, DbClick)] (snd (releasePoint index pressed)))).
Proof.
  intros Hmode Htool Hc Hview He Hdown Helement Hbox position pressed drawn.
  assert (Hready : readyForPolygon s s) by (constructor; auto).
  pose proof (polygon_drawn s element box Helement Hbox s v vs Hready Hdown) as Hdrawn.
  rewrite (last_map_default (limitTo box) vs v) in Hdrawn. fold position in Hdrawn.
  pose proof (polygon_down s element box Helement Hbox _ _ position Hdrawn) as [Hpressed _].
  apply (drawingPolygon_watched _ _
           (editedElement (mouseEvents (flat_map click (v :: vs)) s))) in Hpressed.
  assert (Epressed : pressed = handleMouse (mouseEvent 1 position) Down
                                 (mouseEvents (flat_map click (v :: vs)) s)).
  { unfold pressed. rewrite mouseEvents_app. reflexivity. }
  unfold handleMouse in Epressed.
  rewrite <- Epressed in Hpressed. clearbody pressed. clear Epressed Hdrawn.
  cbn [map app] in Hpressed. cbn [mouseEvents]. split.
  - pose proof (polygon_up s element box Helement Hbox _ _ 0 position Hpressed) as [Hup _].
    apply (drawingPolygon_watched _ _ (editedElement pressed)) in Hup.
    fold (handleMouse (mouseEvent 0 position) Up pressed) in Hup.
    cbn [app] in Hup.
    pose proof (doubleClick_closes s _ element box _ _ _ 0 position Helement Hbox Hup)
      as Hclosed.
    revert Hclosed. apply polygonClosed_same.
    assert (Elast : exists front,
               limitTo box v :: map (limitTo box) vs = front ++ [limitTo box position]).
    { exists (removelast (limitTo box v :: map (limitTo box) vs)).
      rewrite (app_removelast_last (limitTo box v)) at 1 by discriminate.
      rewrite last_cons_default, (last_map_default (limitTo box) vs v). reflexivity. }
    destruct Elast as [front Efront]. subst drawn. cbn [map app].
    rewrite !app_comm_cons, Efront, <- !app_assoc. cbn [app].
    apply checkPolygon_repeated.
  - intros index Hindex. unfold releasePoint.
    rewrite (pointMouseUp_other s pressed _ index Hpressed Hindex). cbn [fst snd].
    split; [reflexivity |].
    apply (doubleClick_closes s _ element box (limitTo box v) (map (limitTo box) vs)
             (limitTo box position) 0 position Helement Hbox).
    now apply drawingPolygon_watched.
Qed.

Lemma doubleClick_polygon_witness :
  polygonClosed readyToClick
    (map (limitTo pageBox) [(10, 10); (60, 10); (60, 130)] ++ [limitTo pageBox (10, 10)])
    (mouseEvents
       [(mouseEvent 0 (60, 130), Up); (mouseEvent 0 (60, 130), DbClick)]
       (mouseEvents
          (flat_map click [(10, 10); (60, 10); (60, 130)] ++ [(mouseEvent 1 (60, 130), Down)])
          readyToClick)).
Proof.
  exact (proj1 (doubleClick_polygon readyToClick page pageBox (10, 10) [(60, 10); (60, 130)]
                  eq_refl eq_refl eq_refl (or_introl (conj (Qeq_refl 0) (Qeq_refl 0)))
                  eq_refl eq_refl eq_refl eq_refl)).
Defined.
